(** * StormAudio: the TCP session, the value codec and the poller

    A shallow embedding of [custom_components/stormaudio/media_player.py]
    (class [StormAudioAPI], [StormAudioDataUpdateCoordinator] and
    [StormAudioMediaPlayer]), of [const.py], and of the older coordinator
    of [coordinator.py]; then of the connection test of [config_flow.py],
    of the setup and the unloading of an entry in [stormaudtio__init__.py],
    and of the player of the first revision ([src/__init__.py]).

    Conventions of the embedding.
    - Time is a clock in milliseconds ([Z]); [asyncio.sleep] and the
      time-outs of [asyncio.wait_for] move it forward.
    - The socket is a [link]: the lines the device will send, each with
      the time at which it reaches the reader, the fate of each write,
      and whether closing completes.  The network is a list of [dial]s,
      one per call of [asyncio.open_connection] still to come.
    - A coroutine is a function from the state to an outcome (a value or
      a raised exception) and the new state; state changes made before an
      exception is raised are kept, as in Python.
    - A Python float is the number it stands for, a rational ([Q]), or
      an infinity or not-a-number; every operation on floats rounds its
      exact result to the nearest binary64 number ([Py.fl]).
    - In [media_player.py], where every handler is [except Exception], a
      received line is its decoded text, and a line whose bytes do not
      decode is one more way for the read to raise ([Lost]).  The
      connection of [coordinator.py] catches [OSError] only: there the
      decoding is a step of its own.
    - [async with self._lock] only orders the callers; one coroutine runs
      at a time in this embedding. *)

From Stdlib Require Import ZArith QArith Qround Qabs Qpower String Ascii List Lia Lqa.
From Stdlib Require Import DecimalString DecimalPos.
From Stdlib Require SpecFloat.
From stdpp Require Import gmap strings.
Import ListNotations.

Local Open Scope string_scope.
Local Open Scope list_scope.
Local Open Scope nat_scope.

(** ** const.py *)

Definition DOMAIN := "stormaudio".

Definition CMD_POWER_ON := "ssp.power.on".
Definition CMD_POWER_OFF := "ssp.power.off".
Definition CMD_POWER_QUERY := "ssp.power".
Definition CMD_VOLUME_SET := "ssp.vol.".
Definition CMD_VOLUME_QUERY := "ssp.vol".
Definition CMD_VOLUME_UP := "ssp.vol.up".
Definition CMD_VOLUME_DOWN := "ssp.vol.down".
Definition CMD_MUTE_ON := "ssp.mute.on".
Definition CMD_MUTE_OFF := "ssp.mute.off".
Definition CMD_MUTE_QUERY := "ssp.mute".
Definition CMD_MUTE_TOGGLE := "ssp.mute.toggle".
Definition CMD_INPUT_SET := "ssp.input.".
Definition CMD_INPUT_QUERY := "ssp.input".
Definition CMD_INPUT_LIST := "ssp.input.list".
Definition CMD_INPUT_NEXT := "ssp.input.next".
Definition CMD_INPUT_PREV := "ssp.input.prev".
Definition CMD_PROC_STATE := "ssp.procstate".

Definition STATE_ON := "on".
Definition STATE_OFF := "off".

(** ** Python's string operations *)

Module Py.

(** [str.isspace] on one character (code points below 256). *)
Definition isspace (c : ascii) : bool :=
  let n := nat_of_ascii c in
  ((9 <=? n) && (n <=? 13)) || ((28 <=? n) && (n <=? 32))
  || (n =? 133) || (n =? 160).

Fixpoint lstrip (s : string) : string :=
  match s with
  | String c r => if isspace c then lstrip r else s
  | EmptyString => EmptyString
  end.

Fixpoint rstrip (s : string) : string :=
  match s with
  | String c r =>
      match rstrip r with
      | EmptyString => if isspace c then EmptyString else String c EmptyString
      | r' => String c r'
      end
  | EmptyString => EmptyString
  end.

(** [s.strip()] *)
Definition strip (s : string) : string := rstrip (lstrip s).

(** [s.startswith(p)] *)
Definition startswith (s p : string) : bool := String.prefix p s.

(** [s.find(sub)], [None] for -1. *)
Definition find (s sub : string) : option nat := String.index 0 sub s.

(** [sub in s] *)
Definition contains (sub s : string) : bool :=
  match find s sub with Some _ => true | None => false end.

(** [s[a:b]] for indices that are not negative. *)
Definition slice (s : string) (a b : nat) : string := String.substring a (b - a) s.

(** The truth value of a string: empty is false. *)
Definition truthy (s : string) : bool :=
  match s with EmptyString => false | _ => true end.

(** [str(n)] for an integer. *)
Definition str (n : Z) : string := NilEmpty.string_of_int (Z.to_int n).

Definition digit (c : ascii) : option Z :=
  let n := nat_of_ascii c in
  if (48 <=? n) && (n <=? 57) then Some (Z.of_nat (n - 48)) else None.

(** A [digitpart] of Python's number grammar: digits, single underscores
    allowed between two digits.  [seen] tells that the previous character
    was a digit; the result is the value and the number of digits. *)
Fixpoint digitpart (s : string) (acc : Z) (len : nat) (seen : bool) : option (Z * nat) :=
  match s with
  | EmptyString => if seen then Some (acc, len) else None
  | String c r =>
      match digit c with
      | Some d => digitpart r (10 * acc + d)%Z (S len) true
      | None =>
          if Ascii.eqb c "_" then
            if seen then digitpart r acc len false else None
          else None
      end
  end.

Definition signed (s : string) : bool * string :=
  match s with
  | String "-" r => (true, r)
  | String "+" r => (false, r)
  | _ => (false, s)
  end.

(** The whitespace that [int] and [float] accept around a number: the
    six ASCII characters of C's [isspace], and the spaces above 127
    (U+0085, U+00A0), which are turned into blanks first.  The
    separators U+001C to U+001F, which [str.strip] removes, are not
    among them. *)
Definition numspace (c : ascii) : bool :=
  let n := nat_of_ascii c in
  ((9 <=? n) && (n <=? 13)) || (n =? 32) || (n =? 133) || (n =? 160).

Fixpoint lstrip_num (s : string) : string :=
  match s with
  | String c r => if numspace c then lstrip_num r else s
  | EmptyString => EmptyString
  end.

Fixpoint rstrip_num (s : string) : string :=
  match s with
  | String c r =>
      match rstrip_num r with
      | EmptyString => if numspace c then EmptyString else String c EmptyString
      | r' => String c r'
      end
  | EmptyString => EmptyString
  end.

Definition strip_num (s : string) : string := rstrip_num (lstrip_num s).

(** [int(s)] for a string [s]: [None] stands for [ValueError]. *)
Definition int (s : string) : option Z :=
  let (neg, body) := signed (strip_num s) in
  match digitpart body 0 0 false with
  | Some (v, _) => Some (if neg then (- v)%Z else v)
  | None => None
  end.

(** [int(x)] for a float [x]: the fraction is dropped (towards zero). *)
Definition trunc (q : Q) : Z := Z.quot (Qnum q) (Z.pos (Qden q)).

(** [round(x)] for a float [x]: to the nearest integer, a tie goes to the
    even one. *)
Definition round (q : Q) : Z :=
  let f := Qfloor q in
  let r := (q - inject_Z f)%Q in
  match (r ?= 1 # 2)%Q with
  | Lt => f
  | Gt => (f + 1)%Z
  | Eq => if Z.even f then f else (f + 1)%Z
  end.

(** A Python float: a finite number, an infinity or not-a-number. *)
Inductive float := Fin (q : Q) | PosInf | NegInf | NaN.

(** The exponent of the leading bit of a positive number [x]: the
    largest [k] with [2^k <= x]. *)
Definition ilog2 (x : Q) : Z :=
  let k := (Z.log2 (Qnum x) - Z.log2 (Z.pos (Qden x)))%Z in
  if Qle_bool (2 ^ k) x then k else (k - 1)%Z.

(** The exponent of the last of the 53 bits that binary64 keeps of [x];
    it is -1074 for the numbers too small to have 53 bits. *)
Definition last_place (x : Q) : Z := Z.max (-1074) (ilog2 (Qabs x) - 52).

(** [x] rounded to the nearest multiple of [2 ^ last_place x], a tie going
    to the even multiple. *)
Definition nearest (x : Q) : Q :=
  if Qeq_bool x 0 then 0%Q
  else let e := last_place x in (inject_Z (round (x / 2 ^ e)) * 2 ^ e)%Q.

(** The float that an exact result [x] is rounded to: the nearest
    binary64 number, an infinity from [2^1024] on. *)
Definition fl (x : Q) : float :=
  let y := nearest x in
  if Qle_bool (2 ^ 1024) (Qabs y) then (if Qle_bool 0 y then PosInf else NegInf)
  else Fin y.

(** [a op b] for a float [a] and a positive integer constant [b]
    ([a * 100], [a - 100], [a + 100], [a / 100]): the exact result,
    rounded; infinities and not-a-number stay what they are. *)
Definition with_int (op : Q -> Q -> Q) (a : float) (b : Z) : float :=
  match a with
  | Fin q => fl (op q (inject_Z b))
  | other => other
  end.

Definition lower (c : ascii) : ascii :=
  let n := nat_of_ascii c in
  if (65 <=? n) && (n <=? 90) then ascii_of_nat (n + 32) else c.

Fixpoint lowercase (s : string) : string :=
  match s with
  | String c r => String (lower c) (lowercase r)
  | EmptyString => EmptyString
  end.

Definition upper (c : ascii) : ascii :=
  let n := nat_of_ascii c in
  if (97 <=? n) && (n <=? 122) then ascii_of_nat (n - 32) else c.

(** [s.upper()], on the letters a to z. *)
Fixpoint uppercase (s : string) : string :=
  match s with
  | String c r => String (upper c) (uppercase r)
  | EmptyString => EmptyString
  end.

(** [s.split()]: the words between runs of whitespace; [word] is the
    word being read. *)
Fixpoint split_from (s : string) (word : option string) : list string :=
  match s with
  | EmptyString =>
      match word with
      | Some w => [w]
      | None => []
      end
  | String c r =>
      if isspace c then
        match word with
        | Some w => w :: split_from r None
        | None => split_from r None
        end
      else
        split_from r (Some (match word with
                            | Some w => w +:+ String c EmptyString
                            | None => String c EmptyString
                            end))
  end.

Definition split (s : string) : list string := split_from s None.

(** Split at the first character satisfying [p]. *)
Fixpoint cut (p : ascii -> bool) (s : string) : string * option string :=
  match s with
  | EmptyString => (EmptyString, None)
  | String c r =>
      if p c then (EmptyString, Some r)
      else let (a, b) := cut p r in (String c a, b)
  end.

(** [number ::= [digitpart] "." digitpart | digitpart ["."]]: the value
    and the number of digits after the point. *)
Definition number (s : string) : option (Z * nat) :=
  match cut (Ascii.eqb ".") s with
  | (ip, None) =>
      match digitpart ip 0 0 false with
      | Some (v, _) => Some (v, 0)
      | None => None
      end
  | (ip, Some fp) =>
      match ip, fp with
      | EmptyString, _ => digitpart fp 0 0 false
      | _, EmptyString =>
          match digitpart ip 0 0 false with
          | Some (v, _) => Some (v, 0)
          | None => None
          end
      | _, _ =>
          match digitpart ip 0 0 false with
          | Some (v, _) => digitpart fp v 0 false
          | None => None
          end
      end
  end.

Definition pow10 (e : Z) : Q :=
  if (0 <=? e)%Z then inject_Z (10 ^ e) else (/ inject_Z (10 ^ (- e)))%Q.

(** [floatnumber ::= number [("e" | "E") [sign] digitpart]] *)
Definition floatnumber (s : string) : option Q :=
  let (m, e) := cut (fun c => Ascii.eqb c "e" || Ascii.eqb c "E") s in
  match number m with
  | None => None
  | Some (v, k) =>
      match e with
      | None => Some (inject_Z v * pow10 (- Z.of_nat k))%Q
      | Some es =>
          let (neg, body) := signed es in
          match digitpart body 0 0 false with
          | Some (x, _) =>
              Some (inject_Z v * pow10 ((if neg then - x else x) - Z.of_nat k)%Z)%Q
          | None => None
          end
      end
  end.

(** [float(s)] for a string [s]: the number written, rounded; [None]
    stands for [ValueError]. *)
Definition float_of (s : string) : option float :=
  let (neg, body) := signed (strip_num s) in
  let l := lowercase body in
  if String.eqb l "inf" || String.eqb l "infinity" then
    Some (if neg then NegInf else PosInf)
  else if String.eqb l "nan" then Some NaN
  else
    match floatnumber body with
    | Some q => Some (fl (if neg then (- q)%Q else q))
    | None => None
    end.

(** [a < b] on floats with an integer bound [b]; a comparison with
    not-a-number is false. *)
Definition lt_int (a : float) (b : Z) : bool :=
  match a with
  | Fin q => match (q ?= inject_Z b)%Q with Lt => true | _ => false end
  | NegInf => true
  | PosInf | NaN => false
  end.

Definition gt_int (a : float) (b : Z) : bool :=
  match a with
  | Fin q => match (q ?= inject_Z b)%Q with Gt => true | _ => false end
  | PosInf => true
  | NegInf | NaN => false
  end.

End Py.

(** ** Coroutines: state and exceptions *)

(** The exceptions in play: [asyncio.TimeoutError]; an [OSError] of the
    connection; the [AttributeError] of a call on [None]; the
    [IncompleteReadError] of [readuntil] at the end of the stream and its
    [LimitOverrunError] on a chunk longer than the reader's limit; the
    [UnicodeDecodeError] of [bytes.decode]; the [OverflowError] of [int]
    on an infinity; Home Assistant's [UpdateFailed]. *)
Inductive exn :=
| TimeoutError
| ConnectionError
| AttributeError
| IncompleteReadError
| LimitOverrunError
| UnicodeDecodeError
| OverflowError
| UpdateFailed.

Inductive outcome (A : Type) :=
| Ok (a : A)
| Raised (e : exn).

Arguments Ok {A} a.
Arguments Raised {A} e.

(** A coroutine over a state [S]. *)
Definition M (S A : Type) : Type := S -> outcome A * S.

Definition ret {S A} (a : A) : M S A := fun s => (Ok a, s).

Definition raise {S A} (e : exn) : M S A := fun s => (Raised e, s).

Definition bind {S A B} (m : M S A) (k : A -> M S B) : M S B :=
  fun s =>
    match m s with
    | (Ok a, s') => k a s'
    | (Raised e, s') => (Raised e, s')
    end.

(** [try: m  except Exception as e: h e] *)
Definition try_except {S A} (m : M S A) (h : exn -> M S A) : M S A :=
  fun s =>
    match m s with
    | (Ok a, s') => (Ok a, s')
    | (Raised e, s') => h e s'
    end.

(** [try: m  except asyncio.TimeoutError: h]; other exceptions go on. *)
Definition except_timeout {S A} (m : M S A) (h : M S A) : M S A :=
  try_except m (fun e => match e with TimeoutError => h | _ => raise e end).

(** [try: m  except (OSError, asyncio.TimeoutError): h] *)
Definition except_os {S A} (m : M S A) (h : M S A) : M S A :=
  try_except m (fun e => match e with
                         | TimeoutError | ConnectionError => h
                         | _ => raise e
                         end).

Definition gets {S A} (f : S -> A) : M S A := fun s => (Ok (f s), s).

Definition modify {S} (f : S -> S) : M S unit := fun s => (Ok tt, f s).

Declare Scope coro_scope.
Delimit Scope coro_scope with coro.

Notation "x <- m ;; k" := (bind m (fun x => k))
  (at level 100, m at next level, right associativity) : coro_scope.
Notation "m ;; k" := (bind m (fun _ => k))
  (at level 100, right associativity) : coro_scope.

Local Open Scope coro_scope.

(** The ways out of one turn of a loop body. *)
Inductive turn (A : Type) :=
| Continue
| Break
| Return (a : A).

Arguments Continue {A}.
Arguments Break {A}.
Arguments Return {A} a.

(** [while cond: body], for at most [fuel] turns. *)
Fixpoint while_ {St A} (fuel : nat) (cond : M St bool) (body : M St (turn A))
  : M St (option A) :=
  match fuel with
  | 0 => ret None
  | S fuel' =>
      c <- cond ;;
      if c : bool then
        t <- body ;;
        match t with
        | Continue => while_ fuel' cond body
        | Break => ret None
        | Return a => ret (Some a)
        end
      else ret None
  end.

(** [for i in range(start, start + count): body i] *)
Fixpoint for_range {St A} (count start : nat) (body : nat -> M St (turn A))
  : M St (option A) :=
  match count with
  | 0 => ret None
  | S count' =>
      t <- body start ;;
      match t with
      | Continue => for_range count' (S start) body
      | Break => ret None
      | Return a => ret (Some a)
      end
  end.

(** ** The transport *)

(** What the peer sends: a line reaching the reader at time [t]; the end
    of the stream ([readline] returns the empty bytes from then on); a
    failure of the connection ([readline] raises from then on). *)
Inductive packet :=
| Line (t : Z) (raw : string)
| Eof (t : Z)
| Lost (t : Z).

(** An open connection: what is still to be read, whether each coming
    [write]/[drain] goes through (all do once the list is used up), and
    whether [wait_closed] returns normally. *)
Record link := Link {
  inbox : list packet;
  tx : list bool;
  shut : bool
}.

(** One call of [asyncio.open_connection]: how long it takes and how it
    ends. *)
Inductive dial :=
| Refused (dt : Z)
| Accepted (dt : Z) (l : link).

Inductive level := DEBUG | INFO | WARNING | ERROR.

(** The state of a [StormAudioAPI] and of the world around it.  [sock]
    is the pair [_reader]/[_writer]: both are set and cleared together. *)
Record net := Net {
  clock : Z;
  dials : list dial;
  sock : option link;
  wire : list string;
  log : list (level * string)
}.

Definition set_clock (t : Z) (s : net) : net :=
  Net t (dials s) (sock s) (wire s) (log s).
Definition set_dials (d : list dial) (s : net) : net :=
  Net (clock s) d (sock s) (wire s) (log s).
Definition set_sock (k : option link) (s : net) : net :=
  Net (clock s) (dials s) k (wire s) (log s).
Definition add_wire (w : string) (s : net) : net :=
  Net (clock s) (dials s) (sock s) (wire s ++ [w]) (log s).
Definition add_log (e : level * string) (s : net) : net :=
  Net (clock s) (dials s) (sock s) (wire s) (log s ++ [e]).

Definition set_inbox (i : list packet) (l : link) : link := Link i (tx l) (shut l).
Definition set_tx (x : list bool) (l : link) : link := Link (inbox l) x (shut l).

Abbreviation api := (M net).

(** [asyncio.get_event_loop().time()] *)
Definition time : api Z := gets clock.

(** [asyncio.sleep(ms / 1000)] *)
Definition sleep (ms : Z) : api unit := modify (fun s => set_clock (clock s + ms)%Z s).

(** [_LOGGER.debug/info/warning/error] *)
Definition logger (l : level) (msg : string) : api unit := modify (add_log (l, msg)).

(** [asyncio.wait_for(asyncio.open_connection(host, port), timeout)] *)
Definition open_connection (timeout : Z) : api link :=
  fun s =>
    match dials s with
    | [] => (Raised ConnectionError, s)
    | Refused dt :: ds =>
        if (dt <? timeout)%Z
        then (Raised ConnectionError, set_dials ds (set_clock (clock s + dt)%Z s))
        else (Raised TimeoutError, set_dials ds (set_clock (clock s + timeout)%Z s))
    | Accepted dt l :: ds =>
        if (dt <? timeout)%Z
        then (Ok l, set_dials ds (set_clock (clock s + dt)%Z s))
        else (Raised TimeoutError, set_dials ds (set_clock (clock s + timeout)%Z s))
    end.

(** [asyncio.wait_for(self._reader.readline(), timeout)]: the next
    packet is delivered when it is there before the time-out fires. *)
Definition readline (timeout : Z) : api string :=
  fun s =>
    match sock s with
    | None => (Raised AttributeError, s)
    | Some l =>
        let late := (Raised TimeoutError, set_clock (clock s + timeout)%Z s) in
        match inbox l with
        | [] => late
        | Line t raw :: rest =>
            if (t <? clock s + timeout)%Z
            then (Ok raw, set_sock (Some (set_inbox rest l)) (set_clock (Z.max (clock s) t) s))
            else late
        | Eof t :: _ =>
            if (t <? clock s + timeout)%Z
            then (Ok EmptyString, set_clock (Z.max (clock s) t) s)
            else late
        | Lost t :: _ =>
            if (t <? clock s + timeout)%Z
            then (Raised ConnectionError, set_clock (Z.max (clock s) t) s)
            else late
        end
    end.

(** The limit of a [StreamReader] that [asyncio.open_connection] makes
    (2^16 bytes). *)
Definition _DEFAULT_LIMIT : Z := 65536.

(** [asyncio.wait_for(self.reader.readuntil(separator), timeout)]: as
    [readline], a packet [Line] being a chunk that ends with the
    separator, as the bytes received; at the end of the stream
    [readuntil] raises, and so it does, leaving the chunk where it is,
    when the separator comes after more bytes than the limit. *)
Definition readuntil (timeout : Z) : api string :=
  fun s =>
    match sock s with
    | Some l =>
        match inbox l with
        | Eof t :: _ =>
            if (t <? clock s + timeout)%Z
            then (Raised IncompleteReadError, set_clock (Z.max (clock s) t) s)
            else (Raised TimeoutError, set_clock (clock s + timeout)%Z s)
        | Line t raw :: _ =>
            if (t <? clock s + timeout)%Z && (_DEFAULT_LIMIT <? Z.of_nat (String.length raw) - 1)%Z
            then (Raised LimitOverrunError, set_clock (Z.max (clock s) t) s)
            else readline timeout s
        | _ => readline timeout s
        end
    | None => (Raised AttributeError, s)
    end.

(** [self._writer.write(data); await self._writer.drain()] *)
Definition write_drain (data : string) : api unit :=
  fun s =>
    match sock s with
    | None => (Raised AttributeError, s)
    | Some l =>
        match tx l with
        | false :: x => (Raised ConnectionError, set_sock (Some (set_tx x l)) s)
        | true :: x => (Ok tt, add_wire data (set_sock (Some (set_tx x l)) s))
        | [] => (Ok tt, add_wire data s)
        end
    end.

(** [(asyncio.get_event_loop().time() - start_time) < limit], the test
    of the two [while] loops. *)
Definition within (start_time limit : Z) : api bool :=
  now <- time ;;
  ret (now - start_time <? limit)%Z.

(** [self._writer.close(); await self._writer.wait_closed()] *)
Definition close_wait (l : link) : api unit :=
  if shut l then ret tt else raise ConnectionError.

(** How many packets the open connection still holds. *)
Definition pending (s : net) : nat :=
  match sock s with
  | Some l => length (inbox l)
  | None => 0
  end.

(** ** class StormAudioAPI *)

(** The line feed that ends a command. *)
Definition nl : string := "
".

Definition disconnect : api unit :=
  w <- gets sock ;;
  match w with
  | Some l =>
      close_wait l ;;
      modify (set_sock None)
  | None => ret tt
  end.

(** One turn of the loop of [_clear_initial_responses]. *)
Definition clear_turn : api (turn unit) :=
  except_timeout
    (response <- readline 100 ;;
     if negb (Py.truthy response) then ret Break
     else
       logger DEBUG ("Cleared initial: " +:+ Py.strip response) ;;
       ret Continue)
    (ret Break).

(** Every turn that goes on has taken a line out of the inbox, so one
    turn more than there are packets is enough (lemma [clear_fuel]). *)
Definition _clear_initial_responses : api unit :=
  try_except
    (start_time <- time ;;
     n <- gets pending ;;
     while_ (S n) (within start_time 2000) clear_turn ;;
     ret tt)
    (fun e => logger DEBUG "Error clearing initial responses").

Definition connect : api bool :=
  try_except
    (logger INFO "Connecting to StormAudio" ;;
     l <- open_connection 10000 ;;
     modify (set_sock (Some l)) ;;
     _clear_initial_responses ;;
     logger INFO "Connected to StormAudio successfully" ;;
     ret true)
    (fun e =>
       logger ERROR "Failed to connect" ;;
       ret false).

Definition _get_expected_response_prefix (command : string) : string :=
  if String.eqb command CMD_POWER_QUERY then "ssp.power."
  else if String.eqb command CMD_VOLUME_QUERY then "ssp.vol."
  else if String.eqb command CMD_MUTE_QUERY then "ssp.mute."
  else if String.eqb command CMD_INPUT_QUERY then "ssp.input."
  else if String.eqb command CMD_PROC_STATE then "ssp.procstate."
  else "ssp.".

(** One turn of the loop of [send_query]. *)
Definition query_turn (target_prefix : string) : api (turn string) :=
  except_timeout
    (response <- readline 200 ;;
     if negb (Py.truthy response) then ret Break
     else
       let line := Py.strip response in
       logger DEBUG ("Received: " +:+ line) ;;
       if Py.startswith line target_prefix then
         logger DEBUG ("Found matching response: " +:+ line) ;;
         ret (Return line)
       else
         logger DEBUG ("Ignoring unrelated response: " +:+ line) ;;
         ret Continue)
    (ret Continue).

(** A turn of the loop of [send_query] either takes a line out of the
    inbox or lets 0.2 s pass, and the loop stops once 3 s have passed:
    16 turns more than there are packets are enough (lemma
    [query_fuel_enough]). *)
Definition query_fuel (s : net) : nat := pending s + 16.

(** [if not self._writer: if not await self.connect(): ...]: tells
    whether there is a writer to go on with. *)
Definition ensure_writer : api bool :=
  w <- gets sock ;;
  match w with
  | Some _ => ret true
  | None => connect
  end.

Definition send_query (command : string) : api (option string) :=
  try_except
    (up <- ensure_writer ;;
     if negb up then ret None
     else
       logger DEBUG ("Sending query: " +:+ command) ;;
       write_drain (command +:+ nl) ;;
       let target_prefix := _get_expected_response_prefix command in
       start_time <- time ;;
       n <- gets query_fuel ;;
       found <- while_ n (within start_time 3000) (query_turn target_prefix) ;;
       match found with
       | Some line => ret (Some line)
       | None =>
           logger WARNING ("No matching response found for " +:+ command) ;;
           ret None
       end)
    (fun e =>
       logger ERROR ("Query failed: " +:+ command) ;;
       disconnect ;;
       ret None).

Definition send_command (command : string) : api bool :=
  try_except
    (up <- ensure_writer ;;
     if negb up then ret false
     else
       logger INFO ("Sending command: " +:+ command) ;;
       write_drain (command +:+ nl) ;;
       ret true)
    (fun e =>
       logger ERROR ("Command failed: " +:+ command) ;;
       disconnect ;;
       ret false).

Definition get_power_state : api (option string) :=
  response <- send_query CMD_POWER_QUERY ;;
  match response with
  | Some r =>
      if Py.truthy r then
        if Py.contains "ssp.power.on" r then ret (Some STATE_ON)
        else if Py.contains "ssp.power.off" r then ret (Some STATE_OFF)
        else ret None
      else ret None
  | None => ret None
  end.

(** [response[response.find("[") + 1 : response.find("]")]] when both
    brackets occur in [response]. *)
Definition bracketed (response : string) : option string :=
  match Py.find response "[", Py.find response "]" with
  | Some i, Some j => Some (Py.slice response (i + 1) j)
  | _, _ => None
  end.

(** [min(0, volume)]: the first argument unless the second is smaller. *)
Definition min_0 (volume : Py.float) : Py.float :=
  if Py.lt_int volume 0 then volume else Py.Fin 0.

(** [max(-100, x)]: the first argument unless the second is larger. *)
Definition max_100 (x : Py.float) : Py.float :=
  if Py.gt_int x (-100) then x else Py.Fin (-100 # 1).

Definition get_volume : api (option Py.float) :=
  response <- send_query CMD_VOLUME_QUERY ;;
  match response with
  | Some r =>
      if Py.truthy r && Py.contains "ssp.vol." r then
        match bracketed r with
        | Some volume_str =>
            match Py.float_of volume_str with
            | Some volume => ret (Some (max_100 (min_0 volume)))
            | None => ret None
            end
        | None => ret None
        end
      else ret None
  | None => ret None
  end.

Definition get_mute_state : api (option bool) :=
  response <- send_query CMD_MUTE_QUERY ;;
  match response with
  | Some r =>
      if Py.truthy r then
        if Py.contains "ssp.mute.on" r then ret (Some true)
        else if Py.contains "ssp.mute.off" r then ret (Some false)
        else ret None
      else ret None
  | None => ret None
  end.

Definition get_input : api (option Z) :=
  response <- send_query CMD_INPUT_QUERY ;;
  match response with
  | Some r =>
      if Py.truthy r && Py.contains "ssp.input." r then
        match bracketed r with
        | Some input_str => ret (Py.int input_str)
        | None => ret None
        end
      else ret None
  | None => ret None
  end.

Definition get_processor_state : api (option Z) :=
  response <- send_query CMD_PROC_STATE ;;
  match response with
  | Some r =>
      if Py.truthy r && Py.contains "ssp.procstate." r then
        match bracketed r with
        | Some state_str => ret (Py.int state_str)
        | None => ret None
        end
      else ret None
  | None => ret None
  end.

Definition set_power (power_on : bool) : api bool :=
  let command := if power_on then CMD_POWER_ON else CMD_POWER_OFF in
  send_command command.

Definition volume_up : api bool := send_command CMD_VOLUME_UP.

Definition volume_down : api bool := send_command CMD_VOLUME_DOWN.

(** The value [storm_volume] of [set_volume_level] for a float [level]:
    [int((level * 100) - 100)], the product and the difference rounded
    as floats are; [None] stands for the [OverflowError] of [int] on an
    infinity. *)
Definition storm_volume (level : Q) : option Z :=
  match Py.with_int Qminus (Py.with_int Qmult (Py.Fin level) 100) 100 with
  | Py.Fin x => Some (Py.trunc x)
  | _ => None
  end.

Definition set_volume_level (level : Q) : api bool :=
  match storm_volume level with
  | Some storm_volume =>
      let command := CMD_VOLUME_SET +:+ "[" +:+ Py.str storm_volume +:+ "]" in
      send_command command
  | None => raise OverflowError
  end.

Definition set_mute (muted : bool) : api bool :=
  let command := if muted then CMD_MUTE_ON else CMD_MUTE_OFF in
  send_command command.

Definition set_input (input_id : Z) : api bool :=
  let command := CMD_INPUT_SET +:+ "[" +:+ Py.str input_id +:+ "]" in
  send_command command.

(** ** The snapshot: a Python dict with string keys *)

(** One entry of the input list, [{"name": ..., "id": ...}]. *)
Record input_info := InputInfo {
  input_name : string;
  input_id : Z
}.

Inductive value :=
| VNone
| VStr (s : string)
| VInt (z : Z)
| VFloat (x : Py.float)
| VBool (b : bool)
| VInputs (l : list input_info).

(** [d.get(key)] *)
Definition get (d : gmap string value) (key : string) : value :=
  match d !! key with
  | Some v => v
  | None => VNone
  end.

(** [v == n] for an integer constant [n]. *)
Definition eq_int (v : value) (n : Z) : bool :=
  match v with
  | VInt z => (z =? n)%Z
  | VBool b => ((if b then 1 else 0) =? n)%Z
  | VFloat (Py.Fin q) => Qeq_bool q (inject_Z n)
  | _ => false
  end.

(** [v == s] for a string constant [s]. *)
Definition eq_str (v : value) (s : string) : bool :=
  match v with
  | VStr t => String.eqb t s
  | _ => false
  end.

Definition of_option {A} (f : A -> value) (o : option A) : value :=
  match o with
  | Some a => f a
  | None => VNone
  end.

(** ** class StormAudioDataUpdateCoordinator *)

(** The fields of the coordinator.  [data] and [last_update_success]
    belong to Home Assistant's [DataUpdateCoordinator]; [data] is [None]
    until a poll cycle has succeeded.  [_input_list_cached] is [None]
    as long as the attribute does not exist ([hasattr] is false). *)
Record coordinator := Coordinator {
  data : option (gmap string value);
  last_update_success : bool;
  _last_power_command_time : Z;
  _power_on_polling_active : bool;
  _input_list_cached : option (list input_info)
}.

Definition set_data (d : option (gmap string value)) (c : coordinator) : coordinator :=
  Coordinator d (last_update_success c) (_last_power_command_time c)
    (_power_on_polling_active c) (_input_list_cached c).
Definition set_last_update_success (b : bool) (c : coordinator) : coordinator :=
  Coordinator (data c) b (_last_power_command_time c)
    (_power_on_polling_active c) (_input_list_cached c).
Definition set_last_power_command_time (t : Z) (c : coordinator) : coordinator :=
  Coordinator (data c) (last_update_success c) t
    (_power_on_polling_active c) (_input_list_cached c).
Definition set_power_on_polling_active (b : bool) (c : coordinator) : coordinator :=
  Coordinator (data c) (last_update_success c) (_last_power_command_time c)
    b (_input_list_cached c).
Definition set_input_list_cached (l : option (list input_info)) (c : coordinator) : coordinator :=
  Coordinator (data c) (last_update_success c) (_last_power_command_time c)
    (_power_on_polling_active c) l.

(** [StormAudioDataUpdateCoordinator.__init__] *)
Definition new_coordinator : coordinator := Coordinator None true 0 false None.

(** The coordinator together with its [api]. *)
Abbreviation hub := (coordinator * net)%type.
Abbreviation poller := (M hub).

(** A call of a method of [self.api]. *)
Definition on_api {A} (m : api A) : poller A :=
  fun h => let (r, s) := m (snd h) in (r, (fst h, s)).

Definition self {A} (f : coordinator -> A) : poller A := gets (fun h => f (fst h)).

Definition assign (f : coordinator -> coordinator) : poller unit :=
  modify (fun h => (f (fst h), snd h)).

(** The list that [_get_input_list] returns. *)
Definition builtin_inputs : list input_info :=
  [ InputInfo "Apple TV" 1; InputInfo "Video Game" 2; InputInfo "HDMI 3" 3 ].

Definition _get_input_list : poller (list input_info) :=
  ret builtin_inputs.

Definition _async_update_data : poller (gmap string value) :=
  try_except
    (let data : gmap string value := ∅ in
     power_state <- on_api get_power_state ;;
     let data := <["power_state" := of_option VStr power_state]> data in
     processor_state <- on_api get_processor_state ;;
     let data := <["processor_state" := of_option VInt processor_state]> data in
     active <- self _power_on_polling_active ;;
     (if active : bool then on_api (logger DEBUG "Enhanced polling active") else ret tt) ;;
     on_api (logger INFO "Status update") ;;
     data <- (if eq_int (get data "processor_state") 2 then
                volume <- on_api get_volume ;;
                let data := <["volume" := of_option VFloat volume]> data in
                muted <- on_api get_mute_state ;;
                let data := <["muted" := of_option VBool muted]> data in
                input <- on_api get_input ;;
                ret (<["input" := of_option VInt input]> data)
              else
                let data := <["volume" := VNone]> data in
                let data := <["muted" := VNone]> data in
                ret (<["input" := VNone]> data)) ;;
     cached <- self _input_list_cached ;;
     input_list <- match cached with
                   | Some l => ret l
                   | None =>
                       l <- _get_input_list ;;
                       assign (set_input_list_cached (Some l)) ;;
                       ret l
                   end ;;
     ret (<["input_list" := VInputs input_list]> data))
    (fun err =>
       on_api (logger ERROR "Error communicating with StormAudio") ;;
       raise UpdateFailed).

(** [self.data or {}] *)
Definition data_or_empty (c : coordinator) : gmap string value :=
  match data c with
  | Some d => d
  | None => ∅
  end.

(** The test of [_poll_power_on_sequence] on [current_data]. *)
Definition fully_on (current_data : gmap string value) : bool :=
  eq_str (get current_data "power_state") STATE_ON
  && eq_int (get current_data "processor_state") 2.

(** [self.async_request_refresh] is Home Assistant's, not this
    repository's: it asks the framework for a poll cycle, and the
    framework decides when the cycle runs (requests that follow each
    other closely are merged).  The methods that call it take it as the
    parameter [refresh]. *)
Section WithRefresh.
Variable refresh : poller unit.

(** One turn of the loop of [_poll_power_on_sequence]. *)
Definition poll_turn (attempt : nat) : poller (turn unit) :=
  on_api (sleep 2000) ;;
  refresh ;;
  current_data <- self data_or_empty ;;
  if fully_on current_data then
    on_api (logger INFO ("Device fully powered on after "
                         +:+ Py.str (Z.of_nat ((attempt + 1) * 2)) +:+ " seconds")) ;;
    assign (set_power_on_polling_active false) ;;
    ret (Return tt)
  else ret Continue.

Definition _poll_power_on_sequence : poller unit :=
  done <- for_range 15 0 poll_turn ;;
  match done with
  | Some _ => ret tt
  | None =>
      on_api (logger WARNING "Device may not have fully powered on after 30 seconds") ;;
      assign (set_power_on_polling_active false)
  end.

Definition handle_power_command (power_on : bool) : poller unit :=
  success <- on_api (set_power power_on) ;;
  if success && power_on then
    now <- on_api time ;;
    assign (set_last_power_command_time now) ;;
    assign (set_power_on_polling_active true) ;;
    on_api (logger INFO "Power-on command sent, starting enhanced polling") ;;
    _poll_power_on_sequence
  else if success then
    on_api (sleep 1000) ;;
    refresh
  else ret tt.

Definition force_refresh : poller unit :=
  on_api (logger INFO "Force refreshing status due to external request") ;;
  refresh.

End WithRefresh.

(** A request that the framework serves at once, the [refresh()] of the
    specification: one poll cycle.  The snapshot of a cycle that returns
    becomes [self.data]; a cycle that raises is logged and leaves
    [self.data] as it was. *)
Definition async_request_refresh : poller unit :=
  try_except
    (snapshot <- _async_update_data ;;
     assign (fun c => set_last_update_success true (set_data (Some snapshot) c)))
    (fun err =>
       on_api (logger ERROR "Error fetching stormaudio data") ;;
       assign (set_last_update_success false)).

(** ** class StormAudioMediaPlayer *)

(** Home Assistant's [MediaPlayerState]. *)
Inductive MediaPlayerState :=
| OFF | ON | IDLE | PLAYING | PAUSED | STANDBY | BUFFERING.

(** [state], on [self.coordinator.data]. *)
Definition state (data : gmap string value) : MediaPlayerState :=
  let power_state := get data "power_state" in
  let processor_state := get data "processor_state" in
  if eq_str power_state STATE_OFF then OFF
  else if eq_int processor_state 1 then BUFFERING
  else if eq_int processor_state 2 then ON
  else OFF.

(** [(volume + 100) / 100] *)
Definition plus_100_over_100 (volume : Py.float) : Py.float :=
  Py.with_int Qdiv (Py.with_int Qplus volume 100) 100.

(** [min(1.0, x)] and [max(0.0, y)] *)
Definition min_1 (x : Py.float) : Py.float :=
  if Py.lt_int x 1 then x else Py.Fin 1.
Definition max_0 (y : Py.float) : Py.float :=
  if Py.gt_int y 0 then y else Py.Fin 0.

(** The value [volume_percent] of [volume_level]. *)
Definition volume_percent (volume : Py.float) : Py.float :=
  max_0 (min_1 (plus_100_over_100 volume)).

(** A number as a float; [None] when the value is no number. *)
Definition number_of (v : value) : option Py.float :=
  match v with
  | VFloat x => Some x
  | VInt z => Some (Py.Fin (inject_Z z))
  | VBool b => Some (Py.Fin (if b then 1 else 0))
  | _ => None
  end.

(** [volume_level]; the outer [None] stands for the [TypeError] of an
    addition on something that is no number. *)
Definition volume_level (data : gmap string value) : option (option Py.float) :=
  match get data "volume" with
  | VNone => Some None
  | volume =>
      match number_of volume with
      | Some x => Some (Some (volume_percent x))
      | None => None
      end
  end.

Definition is_volume_muted (data : gmap string value) : value := get data "muted".

(** [self.coordinator.data.get("input_list", [])] *)
Definition input_list_of (data : gmap string value) : list input_info :=
  match data !! "input_list" with
  | Some (VInputs l) => l
  | _ => []
  end.

Fixpoint source_in (input_list : list input_info) (input_id' : value) : option string :=
  match input_list with
  | input_info :: rest =>
      if eq_int input_id' (input_id input_info) then Some (input_name input_info)
      else source_in rest input_id'
  | [] => None
  end.

Definition source (data : gmap string value) : option string :=
  match get data "input" with
  | VNone => None
  | input_id' => source_in (input_list_of data) input_id'
  end.

Definition source_list (data : gmap string value) : list string :=
  map input_name (input_list_of data).

(** The actions of the entity.  The result of the command is not
    looked at; the refresh follows 0.5 s after it. *)
Definition async_turn_on : poller unit := handle_power_command async_request_refresh true.

Definition async_turn_off : poller unit := handle_power_command async_request_refresh false.

Definition async_volume_up : poller unit :=
  on_api volume_up ;;
  on_api (sleep 500) ;;
  async_request_refresh.

Definition async_volume_down : poller unit :=
  on_api volume_down ;;
  on_api (sleep 500) ;;
  async_request_refresh.

Definition async_set_volume_level (volume : Q) : poller unit :=
  on_api (set_volume_level volume) ;;
  on_api (sleep 500) ;;
  async_request_refresh.

Definition async_mute_volume (mute : bool) : poller unit :=
  on_api (set_mute mute) ;;
  on_api (sleep 500) ;;
  async_request_refresh.

(** The loop of [async_select_source] over [input_list]. *)
Fixpoint select_in (input_list : list input_info) (source : string) : poller unit :=
  match input_list with
  | input_info :: rest =>
      if String.eqb (input_name input_info) source then
        on_api (set_input (input_id input_info)) ;;
        on_api (sleep 500) ;;
        async_request_refresh
      else select_in rest source
  | [] => on_api (logger ERROR "Input source not found in available inputs")
  end.

(** [async_select_source]; [self.coordinator.data] is [None] until a
    first refresh has succeeded, and [None.get] raises. *)
Definition async_select_source (source : string) : poller unit :=
  d <- self data ;;
  match d with
  | Some data => select_in (input_list_of data) source
  | None => raise AttributeError
  end.

(** ** coordinator.py: the older coordinator and its connection

    [const.py] defines no [TIMEOUT], which [coordinator.py] imports: it
    is a parameter here, in milliseconds.  The coordinator's state is its
    connection.  The text of a chunk of bytes is given by [decode], the
    UTF-8 decoder of [bytes.decode], [None] standing for its
    [UnicodeDecodeError]. *)

Module CoordinatorPy.
Section WithTimeout.
Variable TIMEOUT : Z.
Variable decode : string -> option string.

(** The carriage return that ends a command and a reply. *)
Definition cr : string := String (ascii_of_nat 13) EmptyString.

(** [StormAudioConnection.connect] *)
Definition connect : api bool :=
  except_os
    (l <- open_connection TIMEOUT ;;
     modify (set_sock (Some l)) ;;
     logger DEBUG "Connected to StormAudio" ;;
     ret true)
    (logger ERROR "Failed to connect to StormAudio" ;;
     ret false).

(** [StormAudioConnection.disconnect] *)
Definition disconnect : api unit :=
  w <- gets sock ;;
  match w with
  | Some l =>
      try_except (close_wait l) (fun _ => ret tt) ;;
      modify (set_sock None)
  | None => ret tt
  end.

(** [StormAudioConnection.send_command] *)
Definition send_command (command : string) : api (option string) :=
  w <- gets sock ;;
  up <- match w with
        | Some _ => ret true
        | None => connect
        end ;;
  if negb up then ret None
  else
    except_os
      (write_drain (command +:+ cr) ;;
       response <- readuntil TIMEOUT ;;
       match decode response with
       | Some text =>
           let response_str := Py.strip text in
           logger DEBUG ("Sent: " +:+ command +:+ ", Received: " +:+ response_str) ;;
           ret (Some response_str)
       | None => raise UnicodeDecodeError
       end)
      (logger ERROR "Command failed" ;;
       disconnect ;;
       ret None).

(** The truth value of a response: [None] and the empty string are false. *)
Definition answered (response : option string) : bool :=
  match response with
  | Some r => Py.truthy r
  | None => false
  end.

(** The second word of a response, when it has two. *)
Definition second_part (response : string) : option string :=
  match Py.split response with
  | _ :: part :: _ => Some part
  | _ => None
  end.

(** [(db_value + 80) / 80] *)
Definition plus_80_over_80 (db_value : Py.float) : Py.float :=
  Py.with_int Qdiv (Py.with_int Qplus db_value 80) 80.

(** [StormAudioCoordinator._async_update_data] *)
Definition _async_update_data : api (gmap string value) :=
  try_except
    (power_response <- send_command "POWER?" ;;
     match power_response with
     | Some r =>
         if Py.truthy r then
           let power := Py.contains "ON" (Py.uppercase r) in
           let data : gmap string value :=
             <["power" := VBool power]> (<["available" := VBool true]> ∅) in
           if power then
             volume_response <- send_command "VOLUME?" ;;
             let data :=
               match volume_response with
               | Some v =>
                   if Py.truthy v then
                     match second_part v with
                     | Some part =>
                         match Py.float_of part with
                         | Some db_value =>
                             <["volume_level" :=
                                 VFloat (max_0 (min_1 (plus_80_over_80 db_value)))]> data
                         | None => <["volume_level" := VFloat (Py.Fin (1 # 2))]> data
                         end
                     | None => data
                     end
                   else data
               | None => data
               end in
             mute_response <- send_command "MUTE?" ;;
             let data :=
               <["muted" := match mute_response with
                            | Some m =>
                                if Py.truthy m then VBool (Py.contains "ON" (Py.uppercase m))
                                else VStr m
                            | None => VNone
                            end]> data in
             input_response <- send_command "INPUT?" ;;
             let data :=
               match input_response with
               | Some i =>
                   if Py.truthy i then
                     match second_part i with
                     | Some part =>
                         match Py.int part with
                         | Some n => <["input" := VInt n]> data
                         | None => <["input" := VInt 1]> data
                         end
                     | None => data
                     end
                   else data
               | None => data
               end in
             preset_response <- send_command "PRESET?" ;;
             let data :=
               match preset_response with
               | Some p =>
                   if Py.truthy p then
                     match second_part p with
                     | Some part =>
                         match Py.int part with
                         | Some n => <["preset" := VInt n]> data
                         | None => <["preset" := VNone]> data
                         end
                     | None => data
                     end
                   else data
               | None => data
               end in
             ret data
           else
             ret (<["preset" := VNone]>
                    (<["input" := VInt 1]>
                       (<["muted" := VBool false]>
                          (<["volume_level" := VFloat (Py.Fin 0)]> data))))
         else raise UpdateFailed
     | None => raise UpdateFailed
     end)
    (fun err => raise UpdateFailed).

End WithTimeout.
End CoordinatorPy.

(** ** config_flow.py: the connection test *)

Module ConfigFlow.

(** [StormAudioConfigFlow._test_connection].  The connection is the
    method's own: [sock] holds its [reader] and [writer] once it is
    open. *)
Definition _test_connection : api bool :=
  try_except
    (l <- open_connection 5000 ;;
     modify (set_sock (Some l)) ;;
     write_drain ("ssp.power" +:+ nl) ;;
     response <- readline 5000 ;;
     close_wait l ;;
     ret (0 <? String.length response))
    (fun e =>
       logger ERROR "Connection test failed" ;;
       ret false).

End ConfigFlow.

(** ** stormaudtio__init__.py: setting up and unloading an entry

    Home Assistant's [hass.data] is the dict from a domain to the dict
    of its entries; for this domain, an entry id leads to the host and
    the port.  The two calls into [hass.config_entries] are parameters:
    what they return or raise, and the [hass] they leave. *)

Module Integration.

Inductive failure := KeyError | ConfigEntryNotReady.

Definition CONF_HOST := "host".
Definition CONF_PORT := "port".

Record config_entry := ConfigEntry {
  entry_id : string;
  entry_data : gmap string value
}.

Record hass := Hass {
  hass_data : gmap string (gmap string (gmap string value));
  world : net
}.

(** The body of the [try] of [async_setup_entry]: the connection is
    opened and closed at once. *)
Definition probe : api unit :=
  l <- open_connection 10000 ;;
  close_wait l.

Section WithFramework.

Variable async_forward_entry_setups : config_entry -> hass -> option failure * hass.
Variable async_unload_platforms : config_entry -> hass -> (failure + bool) * hass.

Definition async_setup_entry (entry : config_entry) (h : hass) : (failure + bool) * hass :=
  match entry_data entry !! CONF_HOST with
  | None => (inl KeyError, h)
  | Some host =>
      match entry_data entry !! CONF_PORT with
      | None => (inl KeyError, h)
      | Some port =>
          match probe (world h) with
          | (Raised e, w) =>
              (inl ConfigEntryNotReady,
               Hass (hass_data h) (add_log (ERROR, "Unable to connect to StormAudio") w))
          | (Ok _, w) =>
              let domain := default ∅ (hass_data h !! DOMAIN) in
              let info : gmap string value := <[CONF_PORT := port]> (<[CONF_HOST := host]> ∅) in
              let data := <[DOMAIN := <[entry_id entry := info]> domain]> (hass_data h) in
              match async_forward_entry_setups entry (Hass data w) with
              | (Some e, h') => (inl e, h')
              | (None, h') => (inr true, h')
              end
          end
      end
  end.

Definition async_unload_entry (entry : config_entry) (h : hass) : (failure + bool) * hass :=
  match async_unload_platforms entry h with
  | (inl e, h') => (inl e, h')
  | (inr unload_ok, h') =>
      if unload_ok : bool then
        match hass_data h' !! DOMAIN with
        | None => (inl KeyError, h')
        | Some domain =>
            match domain !! entry_id entry with
            | None => (inl KeyError, h')
            | Some _ =>
                (inr true,
                 Hass (<[DOMAIN := delete (entry_id entry) domain]> (hass_data h')) (world h'))
            end
        end
      else (inr false, h')
  end.

End WithFramework.

End Integration.

(** ** The first revision (src/__init__.py, src/media_player.py)

    [StormAudioClient] opens a connection for every command.  What
    becomes of a command is the device's to say: the connection cannot
    be made; the command is sent and the exchange fails after that; or
    bytes come back. *)

Module Legacy.

Inductive failure := TypeError | IndexError | OverflowError.

Inductive exchange :=
| Unreachable
| Dropped
| Answered (raw : string).

(** The exchanges to come, and what has been sent. *)
Record client := Client {
  exchanges : list exchange;
  sent : list string
}.

Definition cr : string := String (ascii_of_nat 13) EmptyString.

(** [StormAudioClient.send_command]; once the exchanges are used up the
    device is out of reach. *)
Definition send_command (command : string) (k : client) : option string * client :=
  match exchanges k with
  | [] => (None, k)
  | Unreachable :: rest => (None, Client rest (sent k))
  | Dropped :: rest => (None, Client rest (sent k ++ [command +:+ cr]))
  | Answered raw :: rest => (Some (Py.strip raw), Client rest (sent k ++ [command +:+ cr]))
  end.

Record player := Player {
  _state : string;
  _volume : Q;
  _source : option string;
  _client : client
}.

(** [StormAudioMediaPlayer.__init__] *)
Definition new_player (k : client) : player := Player "off" 0 None k.

(** [s.split("=")[1]]; [None] stands for [IndexError]. *)
Definition second_field (s : string) : option string :=
  match Py.cut (Ascii.eqb "=") s with
  | (_, Some r) => Some (fst (Py.cut (Ascii.eqb "=") r))
  | (_, None) => None
  end.

(** [(int(vol.split("=")[1]) + 79) / 91], the quotient of two integers
    rounded to a float; [None] when it raises, which the bare [except] of
    [update] catches. *)
Definition volume_of (vol : option string) : option Q :=
  match vol with
  | Some v =>
      match second_field v with
      | Some field =>
          match Py.int field with
          | Some n =>
              match Py.fl (inject_Z (n + 79) / 91) with
              | Py.Fin q => Some q
              | _ => None
              end
          | None => None
          end
      | None => None
      end
  | None => None
  end.

(** [StormAudioMediaPlayer.update]; the fields that were assigned
    before an exception stay assigned. *)
Definition update (p : player) : (failure + unit) * player :=
  let (pow_state, k1) := send_command "POW=?" (_client p) in
  let state :=
    match pow_state with
    | Some r => if String.eqb r "POWON" then "on" else "off"
    | None => "off"
    end in
  let (vol, k2) := send_command "VOL=?" k1 in
  let volume :=
    match volume_of vol with
    | Some q => q
    | None => _volume p
    end in
  let (inp, k3) := send_command "INP=?" k2 in
  match inp with
  | Some i =>
      if Py.contains "=" i then
        match second_field i with
        | Some field => (inr tt, Player state volume (Some field) k3)
        | None => (inl IndexError, Player state volume (_source p) k3)
        end
      else (inr tt, Player state volume (Some i) k3)
  | None => (inl TypeError, Player state volume (_source p) k3)
  end.

(** [db_volume = int(volume * 91 - 79)] for a float [volume]; [None]
    stands for the [OverflowError] of [int] on an infinity. *)
Definition db_volume (volume : Q) : option Z :=
  match Py.with_int Qminus (Py.with_int Qmult (Py.Fin volume) 91) 79 with
  | Py.Fin x => Some (Py.trunc x)
  | _ => None
  end.

Definition set_volume_level (volume : Q) (p : player) : (failure + unit) * player :=
  match db_volume volume with
  | Some db_volume =>
      let (_, k) := send_command ("VOL=" +:+ Py.str db_volume) (_client p) in
      (inr tt, Player (_state p) (_volume p) (_source p) k)
  | None => (inl OverflowError, p)
  end.

Definition select_source (source : string) (p : player) : player :=
  let (_, k) := send_command ("INP=" +:+ source) (_client p) in
  Player (_state p) (_volume p) (_source p) k.

End Legacy.

(** ** Notions used in the statements *)

(** When a packet reaches the reader. *)
Definition arrival (p : packet) : Z :=
  match p with
  | Line t _ | Eof t | Lost t => t
  end.

(** A line of text: a packet [Line] whose bytes are not empty (a line
    holds at least its terminator). *)
Definition is_line (p : packet) : Prop :=
  match p with
  | Line _ raw => raw <> EmptyString
  | _ => False
  end.

(** The received line [p] answers a query waiting for [target_prefix]. *)
Definition answers (target_prefix : string) (p : packet) : bool :=
  match p with
  | Line _ raw => Py.startswith (Py.strip raw) target_prefix
  | _ => false
  end.

(** A call of [open_connection] that does not give a connection. *)
Definition dial_fails (d : dial) : Prop :=
  match d with
  | Refused _ => True
  | Accepted dt _ => (10000 <= dt)%Z
  end.

(** A burst of lines after the connection has been opened at
    [start_time]: each line arrives less than 0.1 s after the previous
    read has returned (at [now]), and is read less than 2 s after
    [start_time]. *)
Fixpoint burst (start_time now : Z) (us : list packet) : Prop :=
  match us with
  | [] => True
  | Line t raw :: us' =>
      raw <> EmptyString /\ (now - start_time < 2000)%Z /\ (t < now + 100)%Z
      /\ burst start_time (Z.max now t) us'
  | _ => False
  end.

(** The input list a poll cycle hands out, and the coordinator after it
    has been stored. *)
Definition input_list_for (c : coordinator) : list input_info :=
  match _input_list_cached c with
  | Some l => l
  | None => builtin_inputs
  end.

Definition with_input_list (c : coordinator) : coordinator :=
  match _input_list_cached c with
  | Some _ => c
  | None => set_input_list_cached (Some builtin_inputs) c
  end.

(** The state after the two log calls of [_async_update_data]. *)
Definition status_logged (c : coordinator) (s : net) : net :=
  add_log (INFO, "Status update")
    (if _power_on_polling_active c
     then add_log (DEBUG, "Enhanced polling active") s
     else s).

(** The state after the handler of [_async_update_data]. *)
Definition update_failed {A} (c : coordinator) (s : net) : outcome A * hub :=
  (Raised UpdateFailed, (c, add_log (ERROR, "Error communicating with StormAudio") s)).

(** The first two entries of the snapshot. *)
Definition basic_states (power_state : option string) (processor_state : option Z)
  : gmap string value :=
  <["processor_state" := of_option VInt processor_state]>
    (<["power_state" := of_option VStr power_state]> ∅).

(** Every connection, open or still to be opened, closes normally when
    it is closed. *)
Definition closable (s : net) : Prop :=
  (forall l, sock s = Some l -> shut l = true)
  /\ Forall (fun d => match d with
                      | Accepted _ l => shut l = true
                      | Refused _ => True
                      end) (dials s).

(** ** The burst of polls after a power-on command *)

Section Attempts.
Variable refresh : poller unit.

(** An attempt of the burst, [await asyncio.sleep(2)] and then
    [await self.async_request_refresh()], and the state it leaves. *)
Definition burst_poll : poller unit :=
  on_api (sleep 2000) ;;
  refresh.

Definition polled (h : hub) : hub := snd (burst_poll h).

(** The state after [k] attempts. *)
Fixpoint polls (k : nat) (h : hub) : hub :=
  match k with
  | 0 => h
  | S k' => polls k' (polled h)
  end.

(** The number of the first attempt, among the next [count], after
    which the test of the loop holds. *)
Fixpoint first_ready (count : nat) (h : hub) : option nat :=
  match count with
  | 0 => None
  | S count' =>
      if fully_on (data_or_empty (fst (polled h))) then Some 1
      else option_map S (first_ready count' (polled h))
  end.

End Attempts.


(** Leaving the burst: the log entry is written and the flag is cleared. *)
Definition settled (e : level * string) (h : hub) : hub :=
  (set_power_on_polling_active false (fst h), add_log e (snd h)).

Definition powered_on_after (attempt : nat) : level * string :=
  (INFO, "Device fully powered on after "
         +:+ Py.str (Z.of_nat ((attempt + 1) * 2)) +:+ " seconds").

Definition not_powered_on : level * string :=
  (WARNING, "Device may not have fully powered on after 30 seconds").

(** The state in which [handle_power_command] starts the burst, [h]
    being the state after the command has been sent. *)
Definition burst_started (h : hub) : hub :=
  (set_power_on_polling_active true
     (set_last_power_command_time (clock (snd h)) (fst h)),
   add_log (INFO, "Power-on command sent, starting enhanced polling") (snd h)).

(** ** The conversions in the words of the specification *)


(** [clamp(L)] for the normalized range [0, 1]. *)
Definition clamp_unit (x : Q) : Q :=
  if Qle_bool x 0 then 0 else if Qle_bool 1 x then 1 else x.

(** ** Binary64 as the standard library has it

    [SpecFloat] defines the operations of IEEE 754 on bit patterns;
    [Py.fl] is compared with it on given numbers. *)

(** The binary64 number [x] as a [spec_float]. *)
Definition to_spec (x : Q) : SpecFloat.spec_float :=
  SpecFloat.binary_normalize 53 1024 (Qnum x) (- Z.log2 (Z.pos (Qden x))) false.

Definition of_spec (f : SpecFloat.spec_float) : Py.float :=
  match f with
  | SpecFloat.S754_zero _ => Py.Fin 0
  | SpecFloat.S754_infinity s => if s then Py.NegInf else Py.PosInf
  | SpecFloat.S754_nan => Py.NaN
  | SpecFloat.S754_finite s m e =>
      Py.Fin ((if s then -1 else 1) * inject_Z (Z.pos m) * 2 ^ e)%Q
  end.

Definition same_float (a b : Py.float) : bool :=
  match a, b with
  | Py.Fin p, Py.Fin q => Qeq_bool p q
  | Py.PosInf, Py.PosInf | Py.NegInf, Py.NegInf | Py.NaN, Py.NaN => true
  | _, _ => false
  end.

(** The product, the sum, the difference and the quotient of the floats
    nearest to [x] and [y] are the same in both. *)
Definition fl_agrees (x y : Q) : bool :=
  let a := Py.nearest x in
  let b := Py.nearest y in
  same_float (Py.fl (a * b)) (of_spec (SpecFloat.SFmul 53 1024 (to_spec a) (to_spec b)))
  && same_float (Py.fl (a + b)) (of_spec (SpecFloat.SFadd 53 1024 (to_spec a) (to_spec b)))
  && same_float (Py.fl (a - b)) (of_spec (SpecFloat.SFsub 53 1024 (to_spec a) (to_spec b)))
  && same_float (Py.fl (a / b)) (of_spec (SpecFloat.SFdiv 53 1024 (to_spec a) (to_spec b))).

(** The snapshot a poll cycle has returned (empty when it has raised). *)
Definition snapshot {St} (r : outcome (gmap string value) * St) : gmap string value :=
  match fst r with
  | Ok d => d
  | Raised _ => ∅
  end.

(** ** Worlds for the examples *)

(** [bytes.decode] on a chunk of ASCII bytes, which is its own text;
    the worlds below send no other. *)
Definition decode_ascii (chunk : string) : option string :=
  if forallb (fun c => nat_of_ascii c <? 128) (list_ascii_of_string chunk)
  then Some chunk else None.

(** The line [text], terminated, reaching the reader at time [t]. *)
Definition line (t : Z) (text : string) : packet := Line t (text +:+ nl).

(** A session that is connected over [l], and one that is not, with the
    calls of [open_connection] to come; the clock is at 0. *)
Definition connected (l : link) : net := Net 0 [] (Some l) [] [].
Definition unconnected (ds : list dial) : net := Net 0 ds None [] [].

(** A connection on which nothing arrives. *)
Definition silent : link := Link [] [] true.

(** A volume reply, then two power replies. *)
Definition mixed_replies : link :=
  Link [line 10 "ssp.vol.[-42]"; line 50 "ssp.power.on"; line 60 "ssp.power.off"] [] true.

(** A first connection attempt that is refused; the second would open a
    connection on which the device answers the power query. *)
Definition refused_once : net :=
  unconnected [Refused 0; Accepted 0 (Link [line 300 "ssp.power.on"] [] true)].

(** Three status lines pushed at once when the connection opens, and the
    answer to a later query. *)
Definition prompt_burst : link :=
  Link [line 0 "ssp.power.off"; line 0 "ssp.vol.[-30]"; line 0 "ssp.mute.off";
        line 900 "ssp.power.on"] [] true.

(** A status line pushed 0.15 s after the connection has opened, and the
    answer to a query made later than that. *)
Definition slow_burst : net :=
  unconnected [Accepted 0 (Link [line 150 "ssp.power.off"; line 700 "ssp.power.on"] [] true)].

(** A device that initializes: it is on, its processor is not yet. *)
Definition initializing : net :=
  connected (Link [line 10 "ssp.power.on"; line 20 "ssp.procstate.[1]"] [] true).

(** The snapshot of a cycle made while the device was fully on. *)
Definition playing : gmap string value :=
  <["input_list" := VInputs builtin_inputs]>
    (<["input" := VInt 2]>
       (<["muted" := VBool false]>
          (<["volume" := VFloat (Py.Fin (-40 # 1))]> (basic_states (Some "on") (Some 2%Z))))).

(** A device whose selected input, number 7, is none of the three inputs
    of [_get_input_list]; it answers the five queries of a poll cycle. *)
Definition other_inputs : net :=
  connected (Link [line 10 "ssp.power.on"; line 20 "ssp.procstate.[2]";
                   line 30 "ssp.vol.[-35]"; line 40 "ssp.mute.off";
                   line 50 "ssp.input.[7]"] [] true).

(** A device that takes the power-on command and is fully on at the third
    poll of the burst. *)
Definition waking : net :=
  unconnected
    [Accepted 0
       (Link [line 2110 "ssp.power.on"; line 2120 "ssp.procstate.[1]";
              line 4130 "ssp.power.on"; line 4140 "ssp.procstate.[1]";
              line 6150 "ssp.power.on"; line 6160 "ssp.procstate.[2]";
              line 6170 "ssp.vol.[-40]"; line 6180 "ssp.mute.off";
              line 6190 "ssp.input.[2]"] [] true)].

(** A device that answers the volume query, and one that answers the
    power query. *)
Definition volume_reply : net :=
  connected (Link [line 10 "ssp.vol.[-42]"] [] true).
Definition power_reply : net :=
  connected (Link [line 10 "ssp.power.on"] [] true).

(** A device that tells that it is on and running, and sends nothing
    after that. *)
Definition falls_silent : net :=
  connected (Link [line 10 "ssp.power.on"; line 20 "ssp.procstate.[2]"] [] true).

(** A volume above the range of the device. *)
Definition loud_reply : net :=
  connected (Link [line 10 "ssp.vol.[12.5]"] [] true).

(** The peer closes the stream 50 ms from now; the connection breaks
    50 ms from now. *)
Definition hung_up : link := Link [Eof 50] [] true.
Definition broken : link := Link [Lost 50] [] true.

(** A device of the older protocol that is on, at -40 dB. *)
Definition older_on : net :=
  connected (Link [Line 10 ("POWER ON" +:+ CoordinatorPy.cr);
                   Line 20 ("VOLUME -40" +:+ CoordinatorPy.cr);
                   Line 30 ("MUTE OFF" +:+ CoordinatorPy.cr);
                   Line 40 ("INPUT 3" +:+ CoordinatorPy.cr);
                   Line 50 ("PRESET 1" +:+ CoordinatorPy.cr)] [] true).

(** An entry for the device, a [hass] that holds nothing yet and can
    reach the device, and a framework whose calls change nothing. *)
Definition living_room : Integration.config_entry :=
  Integration.ConfigEntry "living-room"
    (<["port" := VInt 23]> (<["host" := VStr "10.0.0.2"]> ∅)).
Definition fresh_hass : Integration.hass :=
  Integration.Hass ∅ (unconnected [Accepted 0 silent]).
Definition forward_nothing (entry : Integration.config_entry) (h : Integration.hass)
  : option Integration.failure * Integration.hass := (None, h).
Definition unload_nothing (entry : Integration.config_entry) (h : Integration.hass)
  : (Integration.failure + bool) * Integration.hass := (inr true, h).

(** ** Notions used in the proofs *)

(** A coroutine keeps the relation [R] between the state it starts in
    and the state it ends in. *)
Definition keeps {St A} (R : relation St) (m : M St A) : Prop :=
  forall s, R s (snd (m s)).

(** A relation on the [api] seen from the coordinator. *)
Definition on_net (R : relation net) : relation hub :=
  fun h h' => R (snd h) (snd h').

(** A field of the state stays as it is. *)
Definition same {X} (f : net -> X) : relation net :=
  fun s s' => f s' = f s.

(** Reading only takes packets from the front of the inbox. *)
Definition drains : relation net :=
  fun s s' =>
    forall l, sock s = Some l ->
      exists l', sock s' = Some l' /\ inbox l' `suffix_of` inbox l
                 /\ tx l' = tx l /\ shut l' = shut l.

Definition stays_closable : relation net :=
  fun s s' => closable s -> closable s'.

(** Nothing arrives in the next [timeout] milliseconds. *)
Definition quiet (timeout : Z) (s : net) (l : link) : Prop :=
  match inbox l with
  | [] => True
  | p :: _ => (clock s + timeout <= arrival p)%Z
  end.

(** The turns the loop of [send_query] can still take. *)
Definition query_turns_left (start_time : Z) (s : net) : nat :=
  pending s + Z.to_nat ((start_time + 3000 - clock s + 199) / 200).

(** The commands a poll cycle can write, in the order of the code. *)
Definition basic_queries : list string :=
  [CMD_POWER_QUERY +:+ nl; CMD_PROC_STATE +:+ nl].
Definition further_queries : list string :=
  [CMD_VOLUME_QUERY +:+ nl; CMD_MUTE_QUERY +:+ nl; CMD_INPUT_QUERY +:+ nl].

(** * Properties *)

(** ** Coroutines that keep a relation between the states *)

Section Keeps.
Context {St : Type} (R : relation St) `{!PreOrder R}.

Lemma keeps_ret {A} (a : A) : keeps R (ret a).
Proof. intros s. reflexivity. Qed.

Lemma keeps_raise {A} (e : exn) : keeps R (@raise St A e).
Proof. intros s. reflexivity. Qed.

Lemma keeps_gets {A} (f : St -> A) : keeps R (gets f).
Proof. intros s. reflexivity. Qed.

Lemma keeps_modify (f : St -> St) : (forall s, R s (f s)) -> keeps R (modify f).
Proof. intros H s. apply H. Qed.

Lemma keeps_bind {A B} (m : M St A) (k : A -> M St B) :
  keeps R m -> (forall a, keeps R (k a)) -> keeps R (bind m k).
Proof.
  intros Hm Hk s. unfold bind. specialize (Hm s).
  destruct (m s) as [[a|e] s1]; simpl in *; [|assumption].
  etransitivity; [exact Hm | apply Hk].
Qed.

Lemma keeps_try_except {A} (m : M St A) (h : exn -> M St A) :
  keeps R m -> (forall e, keeps R (h e)) -> keeps R (try_except m h).
Proof.
  intros Hm Hh s. unfold try_except. specialize (Hm s).
  destruct (m s) as [[a|e] s1]; simpl in *; [assumption|].
  etransitivity; [exact Hm | apply Hh].
Qed.

Lemma keeps_except_timeout {A} (m h : M St A) :
  keeps R m -> keeps R h -> keeps R (except_timeout m h).
Proof.
  intros Hm Hh. apply keeps_try_except; [assumption|].
  intros []; auto using keeps_raise.
Qed.

Lemma keeps_while {A} (fuel : nat) (cond : M St bool) (body : M St (turn A)) :
  keeps R cond -> keeps R body -> keeps R (while_ fuel cond body).
Proof.
  intros Hc Hb. induction fuel as [|n IH]; simpl.
  - apply keeps_ret.
  - apply keeps_bind; [assumption|]. intros [|]; [|apply keeps_ret].
    apply keeps_bind; [assumption|]. intros [| |a]; auto using keeps_ret.
Qed.

Lemma keeps_for_range {A} (count start : nat) (body : nat -> M St (turn A)) :
  (forall i, keeps R (body i)) -> keeps R (for_range count start body).
Proof.
  intros Hb. revert start. induction count as [|n IH]; intros start; simpl.
  - apply keeps_ret.
  - apply keeps_bind; [apply Hb|]. intros [| |a]; auto using keeps_ret.
Qed.
End Keeps.

#[local] Instance on_net_preorder (R : relation net) `{!PreOrder R} : PreOrder (on_net R).
Proof.
  split.
  - intros h. unfold on_net. reflexivity.
  - intros a b c. unfold on_net. intros. etransitivity; eauto.
Qed.

Lemma keeps_on_api (R : relation net) {A} (m : api A) :
  keeps R m -> keeps (on_net R) (on_api m).
Proof.
  intros H [c s]. unfold on_api, on_net. simpl. specialize (H s).
  destruct (m s) as [r s1]. exact H.
Qed.

Lemma keeps_self (R : relation net) `{!PreOrder R} {A} (f : coordinator -> A) :
  keeps (on_net R) (self f).
Proof. apply keeps_gets. apply _. Qed.

Lemma keeps_assign (R : relation net) `{!PreOrder R} (f : coordinator -> coordinator) :
  keeps (on_net R) (assign f).
Proof. intros [c s]. unfold on_net. simpl. reflexivity. Qed.

#[local] Instance same_preorder {X} (f : net -> X) : PreOrder (same f).
Proof.
  split.
  - intros s. reflexivity.
  - intros a b c H1 H2. unfold same in *. congruence.
Qed.

Ltac prim :=
  let s := fresh "s" in
  intros s; cbv [same logger sleep time modify gets open_connection readline
                 write_drain close_wait ret raise set_clock set_dials set_sock add_wire add_log];
  repeat case_match; simpl; try reflexivity; try lia.

Create HintDb keeps.

Ltac keeps_step :=
  match goal with
  | |- PreOrder _ => apply _
  | |- forall _, _ => intro
  | |- keeps _ (ret _) => apply keeps_ret
  | |- keeps _ (raise _) => apply keeps_raise
  | |- keeps _ (gets _) => apply keeps_gets
  | |- keeps _ (bind _ _) => apply keeps_bind
  | |- keeps _ (try_except _ _) => apply keeps_try_except
  | |- keeps _ (except_timeout _ _) => apply keeps_except_timeout
  | |- keeps _ (while_ _ _ _) => apply keeps_while
  | |- keeps _ (for_range _ _ _) => apply keeps_for_range
  | |- keeps _ (on_api _) => apply keeps_on_api
  | |- keeps _ (self _) => apply keeps_self
  | |- keeps _ (assign _) => apply keeps_assign
  | |- keeps _ (if ?b then _ else _) => destruct b
  | |- keeps _ (match ?x with _ => _ end) => destruct x
  | |- keeps _ _ => solve [eauto with keeps]
  end.

Ltac keeps_tac := repeat keeps_step.

Lemma wire_logger l m : keeps (same wire) (logger l m). Proof. prim. Qed.
Lemma wire_sleep t : keeps (same wire) (sleep t). Proof. prim. Qed.
Lemma wire_open t : keeps (same wire) (open_connection t). Proof. prim. Qed.
Lemma wire_readline t : keeps (same wire) (readline t). Proof. prim. Qed.
Lemma wire_close l : keeps (same wire) (close_wait l). Proof. prim. Qed.
Lemma wire_set_sock k : keeps (same wire) (modify (set_sock k)). Proof. prim. Qed.
#[local] Hint Resolve wire_logger wire_sleep wire_open wire_readline wire_close wire_set_sock : keeps.

Lemma wire_time : keeps (same wire) time. Proof. prim. Qed.
#[local] Hint Resolve wire_time : keeps.

Lemma wire_clear : keeps (same wire) _clear_initial_responses.
Proof. unfold _clear_initial_responses, clear_turn. keeps_tac. Qed.
#[local] Hint Resolve wire_clear : keeps.

Lemma wire_connect : keeps (same wire) connect.
Proof. unfold connect. keeps_tac. Qed.
#[local] Hint Resolve wire_connect : keeps.

Lemma wire_disconnect : keeps (same wire) disconnect.
Proof. unfold disconnect. keeps_tac. Qed.

Lemma wire_ensure : keeps (same wire) ensure_writer.
Proof. unfold ensure_writer. keeps_tac. Qed.

Lemma dials_logger l m : keeps (same dials) (logger l m). Proof. prim. Qed.
Lemma dials_sleep t : keeps (same dials) (sleep t). Proof. prim. Qed.
Lemma dials_readline t : keeps (same dials) (readline t). Proof. prim. Qed.
Lemma dials_close l : keeps (same dials) (close_wait l). Proof. prim. Qed.
Lemma dials_set_sock k : keeps (same dials) (modify (set_sock k)). Proof. prim. Qed.
Lemma dials_time : keeps (same dials) time. Proof. prim. Qed.
Lemma dials_write d : keeps (same dials) (write_drain d). Proof. prim. Qed.
#[local] Hint Resolve dials_logger dials_sleep dials_readline dials_close dials_set_sock
  dials_time dials_write : keeps.

Lemma wire_query_turn p : keeps (same wire) (query_turn p).
Proof. unfold query_turn. keeps_tac. Qed.
Lemma dials_query_turn p : keeps (same dials) (query_turn p).
Proof. unfold query_turn. keeps_tac. Qed.
Lemma dials_disconnect : keeps (same dials) disconnect.
Proof. unfold disconnect. keeps_tac. Qed.
#[local] Hint Resolve wire_query_turn dials_query_turn wire_disconnect dials_disconnect : keeps.

(** ** Running a coroutine step by step *)

Lemma bind_ok {St A B} (m : M St A) (k : A -> M St B) s a s1 :
  m s = (Ok a, s1) -> bind m k s = k a s1.
Proof. intros H. unfold bind. rewrite H. reflexivity. Qed.

Lemma bind_raised {St A B} (m : M St A) (k : A -> M St B) s e s1 :
  m s = (Raised e, s1) -> bind m k s = (Raised e, s1).
Proof. intros H. unfold bind. rewrite H. reflexivity. Qed.

Lemma try_bind {St A B} (m : M St A) (k : A -> M St B) h s a s1 :
  m s = (Ok a, s1) -> try_except (bind m k) h s = try_except (k a) h s1.
Proof. intros H. unfold try_except. rewrite (bind_ok _ _ _ _ _ H). reflexivity. Qed.

Lemma try_bind_raised {St A B} (m : M St A) (k : A -> M St B) h s e s1 :
  m s = (Raised e, s1) -> try_except (bind m k) h s = h e s1.
Proof. intros H. unfold try_except. rewrite (bind_raised _ _ _ _ _ H). reflexivity. Qed.

(** ** Writing *)

Lemma write_drain_ok d s s' :
  write_drain d s = (Ok tt, s') ->
  wire s' = wire s ++ [d] /\ clock s' = clock s /\
  exists l l', sock s = Some l /\ sock s' = Some l' /\ inbox l' = inbox l /\ shut l' = shut l.
Proof.
  unfold write_drain. destruct (sock s) as [l|] eqn:Hs; [|discriminate].
  destruct (tx l) as [|[|] x] eqn:Ht; intros H; inversion H; subst; clear H; simpl.
  - rewrite Hs. eauto 10.
  - split; [reflexivity|]. split; [reflexivity|]. exists l. eexists. eauto.
  Qed.

Lemma write_drain_raised d s e s' :
  write_drain d s = (Raised e, s') -> wire s' = wire s.
Proof.
  unfold write_drain. destruct (sock s) as [l|]; [|intros H; inversion H; reflexivity].
  destruct (tx l) as [|[|] x]; intros H; inversion H; reflexivity.
Qed.

Lemma write_drain_goes d s l :
  sock s = Some l -> hd true (tx l) = true -> exists s', write_drain d s = (Ok tt, s').
Proof.
  intros Hs Ht. unfold write_drain. rewrite Hs.
  destruct (tx l) as [|[|] x]; simpl in Ht; try discriminate; eauto.
Qed.

(** What [send_command] wrote when it reports success. *)
Lemma send_command_sent c s :
  fst (send_command c s) = Ok true ->
  wire (snd (send_command c s)) = wire s ++ [c +:+ nl].
Proof.
  unfold send_command.
  pose proof (wire_ensure s) as W.
  destruct (ensure_writer s) as [[[|]|e] s1] eqn:E; simpl in W.
  - rewrite (try_bind _ _ _ _ _ _ E). simpl negb. cbv iota.
    unfold try_except, bind, logger, modify.
    destruct (write_drain (c +:+ nl) (add_log (INFO, "Sending command: " +:+ c) s1))
      as [[[]|e] s2] eqn:Ew.
    + simpl. intros _.
      apply write_drain_ok in Ew. destruct Ew as (Hw & _). rewrite Hw. simpl.
      unfold same in W. rewrite W. reflexivity.
    + unfold disconnect, bind, gets, close_wait, ret, raise.
      simpl. destruct (sock s2) as [l|]; [destruct (shut l)|]; simpl; discriminate.
  - rewrite (try_bind _ _ _ _ _ _ E). simpl. discriminate.
  - rewrite (try_bind_raised _ _ _ _ _ _ E).
    unfold disconnect, bind, gets, close_wait, ret, raise, logger, modify.
    simpl. destruct (sock s1) as [l|]; [destruct (shut l)|]; simpl; discriminate.
Qed.

(** ** The loop of [send_query] *)

Lemma within_run start_time limit s :
  within start_time limit s = (Ok (clock s - start_time <? limit)%Z, s).
Proof. reflexivity. Qed.

Lemma readline_late timeout s l :
  sock s = Some l -> quiet timeout s l ->
  readline timeout s = (Raised TimeoutError, set_clock (clock s + timeout) s).
Proof.
  intros Hs Hq. unfold readline, quiet in *. rewrite Hs.
  destruct (inbox l) as [|[t raw|t|t] rest]; simpl in Hq; [reflexivity|..];
    (destruct (Z.ltb_spec t (clock s + timeout)); [lia|reflexivity]).
Qed.

Lemma readline_line timeout s l t raw rest :
  sock s = Some l -> inbox l = Line t raw :: rest -> (t < clock s + timeout)%Z ->
  readline timeout s
  = (Ok raw, set_sock (Some (set_inbox rest l)) (set_clock (Z.max (clock s) t) s)).
Proof.
  intros Hs Hi Ht. unfold readline. rewrite Hs, Hi.
  destruct (Z.ltb_spec t (clock s + timeout)); [reflexivity|lia].
Qed.

Lemma truthy_nonempty raw : raw <> EmptyString -> Py.truthy raw = true.
Proof. destruct raw; [congruence|reflexivity]. Qed.

Lemma query_turn_late p s l :
  sock s = Some l -> quiet 200 s l ->
  query_turn p s = (Ok Continue, set_clock (clock s + 200) s).
Proof.
  intros Hs Hq. unfold query_turn, except_timeout, try_except, bind.
  rewrite (readline_late _ _ _ Hs Hq). reflexivity.
Qed.

Lemma query_turn_line p s l t raw rest :
  sock s = Some l -> inbox l = Line t raw :: rest -> (t < clock s + 200)%Z ->
  raw <> EmptyString ->
  exists s1,
    query_turn p s
    = (Ok (if Py.startswith (Py.strip raw) p then Return (Py.strip raw) else Continue), s1)
    /\ sock s1 = Some (set_inbox rest l)
    /\ clock s1 = Z.max (clock s) t.
Proof.
  intros Hs Hi Ht Hraw. unfold query_turn, except_timeout, try_except, bind.
  rewrite (readline_line _ _ _ _ _ _ Hs Hi Ht).
  rewrite (truthy_nonempty _ Hraw). simpl negb. cbv iota.
  unfold logger, modify.
  destruct (Py.startswith (Py.strip raw) p); simpl; eexists; split; try reflexivity; simpl; auto.
Qed.

(** The first line that answers is returned, when it arrives less than
    3 s after the loop has started; the lines before it are taken out
    of the inbox. *)
Lemma query_loop_hit p start_time t raw post :
  raw <> EmptyString -> Py.startswith (Py.strip raw) p = true ->
  (t < start_time + 3000)%Z ->
  forall n s l pre,
    sock s = Some l -> inbox l = pre ++ Line t raw :: post ->
    Forall (fun q => is_line q /\ answers p q = false /\ (arrival q <= t)%Z) pre ->
    (start_time <= clock s <= Z.max start_time t)%Z ->
    (start_time + 3000 - clock s <= (Z.of_nat n - Z.of_nat (length (inbox l))) * 200)%Z ->
    exists s',
      while_ n (within start_time 3000) (query_turn p) s = (Ok (Some (Py.strip raw)), s')
      /\ sock s' = Some (set_inbox post l).
Proof.
  intros Hraw Hans Ht. induction n as [|n IH]; intros s l pre Hs Hi Hpre Hc Hn.
  - exfalso. lia.
  - cbn [while_]. rewrite (bind_ok _ _ _ _ _ (within_run start_time 3000 s)).
    destruct (Z.ltb_spec (clock s - start_time) 3000) as [_|Hge]; [|lia].
    destruct (inbox l) as [|q rest] eqn:Hl; [destruct pre; discriminate|].
    destruct (Z.le_gt_cases (clock s + 200) (arrival q)) as [Hlate|Hnow].
    + (* nothing yet: 0.2 s pass *)
      assert (quiet 200 s l) as Hq by (unfold quiet; rewrite Hl; exact Hlate).
      rewrite (bind_ok _ _ _ _ _ (query_turn_late p s l Hs Hq)).
      assert (arrival q <= t)%Z as Hqt.
      { destruct pre as [|q' pre']; simpl in Hi; inversion Hi; subst; simpl; [lia|].
        inversion Hpre; subst. tauto. }
      destruct (IH (set_clock (clock s + 200) s) l pre) as (s' & Hrun & Hsock);
        simpl; try assumption; try (rewrite Hl; simpl length in *; lia); try lia.
      * congruence.
      * exists s'. split; assumption.
    + destruct pre as [|q' pre']; simpl in Hi; inversion Hi; subst; clear Hi.
      * (* the answer is there *)
        destruct (query_turn_line p s l t raw post Hs Hl Hnow Hraw) as (s1 & Hturn & Hs1 & _).
        rewrite Hans in Hturn. rewrite (bind_ok _ _ _ _ _ Hturn).
        exists s1. split; [reflexivity|assumption].
      * (* another line: it is dropped *)
        inversion Hpre as [|? ? (Hline & Hno & Hle) Hpre']; subst.
        destruct q' as [t' raw'| |]; simpl in Hline; try contradiction.
        simpl in Hno, Hnow, Hle.
        destruct (query_turn_line p s l t' raw' _ Hs Hl Hnow Hline) as (s1 & Hturn & Hs1 & Hc1).
        rewrite Hno in Hturn. rewrite (bind_ok _ _ _ _ _ Hturn).
        destruct (IH s1 (set_inbox (pre' ++ Line t raw :: post) l) pre') as (s' & Hrun & Hsock);
          simpl; try assumption; try reflexivity; try lia.
        { simpl length in Hn. lia. }
        exists s'. split; assumption.
Qed.

(** No line that answers arrives in time: the loop ends without a
    result, the connection stays. *)
Lemma query_loop_miss p start_time :
  forall n s l,
    sock s = Some l ->
    Forall (fun q => is_line q /\ (answers p q = true -> start_time + 3200 <= arrival q)%Z)
      (inbox l) ->
    exists s' l',
      while_ n (within start_time 3000) (query_turn p) s = (Ok None, s')
      /\ sock s' = Some l'.
Proof.
  induction n as [|n IH]; intros s l Hs Hall.
  - exists s, l. split; [reflexivity|assumption].
  - cbn [while_]. rewrite (bind_ok _ _ _ _ _ (within_run start_time 3000 s)).
    destruct (Z.ltb_spec (clock s - start_time) 3000) as [Hlt|Hge];
      [|exists s, l; split; [reflexivity|assumption]].
    assert (quiet 200 s l \/ exists q rest, inbox l = q :: rest /\ (arrival q < clock s + 200)%Z)
      as [Hq|(q & rest & Hl & Hnow)].
    { unfold quiet. destruct (inbox l) as [|q rest]; [left; exact I|].
      destruct (Z.le_gt_cases (clock s + 200) (arrival q)); [left; assumption|].
      right. exists q, rest. split; [reflexivity|lia]. }
    + rewrite (bind_ok _ _ _ _ _ (query_turn_late p s l Hs Hq)).
      apply (IH (set_clock (clock s + 200) s) l); assumption.
    + rewrite Hl in Hall. inversion Hall as [|? ? (Hline & Hfar) Hrest]; subst.
      destruct q as [t raw| |]; simpl in Hline; try contradiction.
      simpl in Hnow, Hfar.
      destruct (query_turn_line p s l t raw rest Hs Hl Hnow Hline) as (s1 & Hturn & Hs1 & _).
      destruct (Py.startswith (Py.strip raw) p) eqn:Hans; [specialize (Hfar eq_refl); lia|].
      rewrite (bind_ok _ _ _ _ _ Hturn).
      apply (IH s1 (set_inbox rest l)); assumption.
Qed.

(** Whatever the loop returns is a line of the inbox that answers. *)
Lemma query_loop_result p start_time x :
  forall n s l,
    sock s = Some l ->
    fst (while_ n (within start_time 3000) (query_turn p) s) = Ok (Some x) ->
    exists t raw, In (Line t raw) (inbox l) /\ x = Py.strip raw
                  /\ Py.startswith x p = true.
Proof.
  induction n as [|n IH]; intros s l Hs H.
  - discriminate.
  - cbn [while_] in H. rewrite (bind_ok _ _ _ _ _ (within_run start_time 3000 s)) in H.
    destruct (clock s - start_time <? 3000)%Z; [|discriminate].
    unfold bind at 1 in H.
    unfold query_turn, except_timeout, try_except, bind at 1 in H.
    unfold readline in H. rewrite Hs in H.
    destruct (inbox l) as [|[t raw|t|t] rest] eqn:Hl.
    + simpl in H. apply (IH _ l) in H; [|assumption]. rewrite Hl in H.
      destruct H as (? & ? & [] & _).
    + destruct (t <? clock s + 200)%Z.
      * destruct raw as [|c raw]; [discriminate|].
        cbn [Py.truthy negb] in H. unfold logger, modify in H. cbn [bind] in H.
        destruct (Py.startswith (Py.strip (String c raw)) p) eqn:Hans; cbn in H.
        -- inversion H; subst. exists t, (String c raw). simpl. auto.
        -- apply (IH _ (set_inbox rest l)) in H; [|reflexivity].
           destruct H as (t' & raw' & Hin & Hx). exists t', raw'. simpl in *. auto.
      * simpl in H. apply (IH _ l) in H; [|assumption]. rewrite Hl in H. exact H.
    + destruct (t <? clock s + 200)%Z.
      * discriminate.
      * simpl in H. apply (IH _ l) in H; [|assumption]. rewrite Hl in H.
        destruct H as (t' & raw' & [Hin|Hin] & Hx); [discriminate|]. 
        exists t', raw'. simpl. auto.
    + destruct (t <? clock s + 200)%Z.
      * discriminate.
      * simpl in H. apply (IH _ l) in H; [|assumption]. rewrite Hl in H.
        destruct H as (t' & raw' & [Hin|Hin] & Hx); [discriminate|]. 
        exists t', raw'. simpl. auto.
Qed.

Lemma ensure_writer_up s l : sock s = Some l -> ensure_writer s = (Ok true, s).
Proof. intros H. unfold ensure_writer, bind, gets. rewrite H. reflexivity. Qed.

(** [send_query] on an open connection whose next write goes through:
    the state in which the loop starts. *)
Lemma send_query_started command s l :
  sock s = Some l -> hd true (tx l) = true ->
  exists s2 l2,
    sock s2 = Some l2 /\ inbox l2 = inbox l /\ clock s2 = clock s
    /\ wire s2 = wire s ++ [command +:+ nl] /\ dials s2 = dials s
    /\ send_query command s
       = try_except
           (found <- while_ (length (inbox l) + 16) (within (clock s) 3000)
                       (query_turn (_get_expected_response_prefix command)) ;;
            match found with
            | Some line => ret (Some line)
            | None =>
                logger WARNING ("No matching response found for " +:+ command) ;;
                ret None
            end)
           (fun e =>
              logger ERROR ("Query failed: " +:+ command) ;;
              disconnect ;;
              ret None) s2.
Proof.
  intros Hs Ht.
  set (s1 := add_log (DEBUG, "Sending query: " +:+ command) s).
  destruct (write_drain_goes (command +:+ nl) s1 l Hs Ht) as (s2 & Hw).
  pose proof (dials_write (command +:+ nl) s1) as Hd. rewrite Hw in Hd.
  destruct (write_drain_ok _ _ _ Hw) as (Hwire & Hclock & l1 & l2 & Hs1 & Hs2 & Hin & _).
  change (sock s1) with (sock s) in Hs1. rewrite Hs in Hs1. inversion Hs1; subst l1.
  exists s2, l2. repeat split; try assumption.
  unfold send_query.
  rewrite (try_bind _ _ _ _ _ _ (ensure_writer_up s l Hs)). simpl negb. cbv iota.
  rewrite (try_bind _ _ _ s tt s1) by reflexivity.
  rewrite (try_bind _ _ _ _ _ _ Hw).
  rewrite (try_bind _ _ _ s2 (clock s2) s2) by reflexivity.
  rewrite (try_bind _ _ _ s2 (query_fuel s2) s2) by reflexivity.
  unfold query_fuel, pending. rewrite Hs2, Hin, Hclock. reflexivity.
Qed.

(** C2.  On an open connection whose write goes through and on which
    lines arrive in the order of their times: the first line that,
    stripped, starts with the prefix expected for the command is what
    [send_query] returns when it arrives less than 3 s after the command
    was written; the lines before it are taken out of the inbox and
    dropped, no error is raised and the connection stays open.  When no
    line that starts with the prefix arrives less than 3.2 s after the
    command was written (3 s, and the 0.2 s of the read then under way),
    [send_query] returns none and the connection stays open. *)
Theorem send_query_correlates (command : string) (s : net) (l : link) :
  sock s = Some l -> hd true (tx l) = true -> Forall is_line (inbox l) ->
  let p := _get_expected_response_prefix command in
  (forall pre t raw post,
      inbox l = pre ++ Line t raw :: post ->
      Forall (fun q => answers p q = false /\ (arrival q <= t)%Z) pre ->
      answers p (Line t raw) = true ->
      (t < clock s + 3000)%Z ->
      exists s' l',
        send_query command s = (Ok (Some (Py.strip raw)), s')
        /\ sock s' = Some l' /\ inbox l' = post
        /\ wire s' = wire s ++ [command +:+ nl])
  /\ ((forall q, In q (inbox l) -> answers p q = true -> (clock s + 3200 <= arrival q)%Z) ->
      exists s' l',
        send_query command s = (Ok None, s') /\ sock s' = Some l').
Proof.
  intros Hs Ht Hlines p.
  destruct (send_query_started command s l Hs Ht)
    as (s2 & l2 & Hs2 & Hin & Hclock & Hwire & Hdials & Hrun).
  split.
  - intros pre t raw post Hl Hpre Hans Hwin.
    assert (raw <> EmptyString) as Hraw.
    { rewrite Hl in Hlines. apply Forall_app in Hlines. destruct Hlines as [_ H].
      inversion H; subst. assumption. }
    destruct (query_loop_hit p (clock s) t raw post Hraw Hans Hwin
                (length (inbox l) + 16) s2 l2 pre) as (s' & Hloop & Hs').
    + assumption.
    + congruence.
    + rewrite Hl in Hlines. apply Forall_app in Hlines. destruct Hlines as [Hlp _].
      rewrite List.Forall_forall in *. intros q Hq. specialize (Hpre q Hq). specialize (Hlp q Hq).
      tauto.
    + lia.
    + rewrite Hin. lia.
    + exists s', (set_inbox post l2). rewrite Hrun.
      rewrite (try_bind _ _ _ _ _ _ Hloop). split; [reflexivity|].
      split; [assumption|]. split; [reflexivity|].
      pose proof (keeps_while (same wire) (length (inbox l) + 16) (within (clock s) 3000)
                    (query_turn p)) as K.
      specialize (K ltac:(unfold within; keeps_tac) ltac:(keeps_tac) s2).
      rewrite Hloop in K. unfold same in K. simpl in K. congruence.
  - intros Hfar.
    destruct (query_loop_miss p (clock s) (length (inbox l) + 16) s2 l2 Hs2)
      as (s' & l' & Hloop & Hs').
    + rewrite Hin. rewrite List.Forall_forall in *. intros q Hq. split; [auto|].
      intros Hans. apply Hfar; assumption.
    + eexists. exists l'. rewrite Hrun. rewrite (try_bind _ _ _ _ _ _ Hloop).
      split; [reflexivity|]. exact Hs'.
Qed.

(** ** Connecting *)

#[local] Instance drains_preorder : PreOrder drains.
Proof.
  split.
  - intros s l Hs. exists l. repeat split; auto.
  - intros a b c Hab Hbc l Hs.
    destruct (Hab l Hs) as (l1 & Hs1 & Hx1 & Ht1 & Hh1).
    destruct (Hbc l1 Hs1) as (l2 & Hs2 & Hx2 & Ht2 & Hh2).
    exists l2. repeat split; try congruence. etransitivity; eassumption.
Qed.

Lemma drains_logger l m : keeps drains (logger l m).
Proof. intros s k Hs. exists k. simpl. repeat split; auto. Qed.
Lemma drains_time : keeps drains time.
Proof. intros s. reflexivity. Qed.
Lemma drains_readline t : keeps drains (readline t).
Proof.
  intros s l Hs. unfold readline. rewrite Hs.
  assert (exists l', Some l = Some l' /\ inbox l' `suffix_of` inbox l
                     /\ tx l' = tx l /\ shut l' = shut l) as Hsame
      by (exists l; repeat split; auto).
  rewrite <- Hs in Hsame.
  destruct (inbox l) as [|[t' raw|t'|t'] rest] eqn:Hl; simpl;
    try destruct (t' <? clock s + t)%Z; simpl; try exact Hsame.
  exists (set_inbox rest l). repeat split; auto. simpl. apply suffix_cons_r. reflexivity.
Qed.
#[local] Hint Resolve drains_logger drains_time drains_readline : keeps.

Lemma drains_clear_turn : keeps drains clear_turn.
Proof. unfold clear_turn. keeps_tac. Qed.
Lemma drains_query_turn p : keeps drains (query_turn p).
Proof. unfold query_turn. keeps_tac. Qed.
#[local] Hint Resolve drains_clear_turn drains_query_turn : keeps.

Lemma clear_turn_line s l t raw rest :
  sock s = Some l -> inbox l = Line t raw :: rest -> (t < clock s + 100)%Z ->
  raw <> EmptyString ->
  exists s1,
    clear_turn s = (Ok Continue, s1)
    /\ sock s1 = Some (set_inbox rest l) /\ clock s1 = Z.max (clock s) t.
Proof.
  intros Hs Hi Ht Hraw. unfold clear_turn, except_timeout, try_except, bind.
  rewrite (readline_line _ _ _ _ _ _ Hs Hi Ht).
  rewrite (truthy_nonempty _ Hraw). simpl. eexists. split; [reflexivity|]. simpl. auto.
Qed.

(** The loop of [_clear_initial_responses] reads a burst to its end. *)
Lemma clear_loop_burst start_time rest :
  forall us n s l,
    sock s = Some l -> inbox l = us ++ rest -> burst start_time (clock s) us ->
    exists s1,
      while_ (length us + n) (within start_time 2000) clear_turn s
      = while_ n (within start_time 2000) clear_turn s1
      /\ sock s1 = Some (set_inbox rest l).
Proof.
  induction us as [|u us IH]; intros n s l Hs Hi Hb.
  - exists s. split; [reflexivity|]. rewrite Hs. f_equal. destruct l. unfold set_inbox. simpl in *. subst. reflexivity.
  - destruct u as [t raw| |]; simpl in Hb; try contradiction.
    destruct Hb as (Hraw & Hwin & Ht & Hb).
    destruct (clear_turn_line s l t raw (us ++ rest) Hs Hi Ht Hraw) as (s1 & Hturn & Hs1 & Hc1).
    destruct (IH n s1 (set_inbox (us ++ rest) l) Hs1 eq_refl) as (s2 & Hrun & Hs2).
    { rewrite Hc1. exact Hb. }
    exists s2. split; [|exact Hs2].
    cbn [length Nat.add while_].
    rewrite (bind_ok _ _ s (clock s - start_time <? 2000)%Z s) by reflexivity.
    destruct (Z.ltb_spec (clock s - start_time) 2000); [|lia].
    rewrite (bind_ok _ _ _ _ _ Hturn). exact Hrun.
Qed.

Lemma clear_burst s l us rest :
  sock s = Some l -> inbox l = us ++ rest -> burst (clock s) (clock s) us ->
  exists s' l',
    _clear_initial_responses s = (Ok tt, s')
    /\ sock s' = Some l' /\ inbox l' `suffix_of` rest /\ tx l' = tx l /\ shut l' = shut l
    /\ wire s' = wire s /\ dials s' = dials s.
Proof.
  intros Hs Hi Hb.
  assert (exists s', _clear_initial_responses s = (Ok tt, s')) as (s' & Hrun).
  { unfold _clear_initial_responses, try_except.
    match goal with |- context [match ?m s with _ => _ end] => destruct (m s) as [[[]|e] s1] end;
      eexists; reflexivity. }
  exists s'.
  assert (exists l', sock s' = Some l' /\ inbox l' `suffix_of` rest
                     /\ tx l' = tx l /\ shut l' = shut l) as (l' & H).
  { revert Hrun. unfold _clear_initial_responses.
    unfold try_except.
    rewrite (bind_ok _ _ s (clock s) s) by reflexivity.
    rewrite (bind_ok _ _ s (pending s) s) by reflexivity.
    unfold pending. rewrite Hs, Hi. rewrite length_app.
    replace (S (length us + length rest)) with (length us + S (length rest)) by lia.
    destruct (clear_loop_burst (clock s) rest us (S (length rest)) s l Hs Hi Hb)
      as (s1 & Hloop & Hs1).
    unfold bind at 1. rewrite Hloop.
    pose proof (keeps_while drains (S (length rest)) (within (clock s) 2000) clear_turn
                  ltac:(unfold within; keeps_tac) ltac:(keeps_tac) s1 _ Hs1) as K.
    destruct (while_ (S (length rest)) (within (clock s) 2000) clear_turn s1) as [[a|e] s2];
      simpl in K; intros H; inversion H; subst; simpl; exact K. }
  exists l'. split; [assumption|].
  destruct H as (H1 & H2 & H3 & H4). repeat split; try assumption.
  - pose proof (wire_clear s) as K. rewrite Hrun in K. exact K.
  - assert (keeps (same dials) _clear_initial_responses) as K
        by (unfold _clear_initial_responses, clear_turn; keeps_tac).
    specialize (K s). rewrite Hrun in K. exact K.
Qed.

(** A connection that opens: [connect] returns once the burst that
    follows has been read. *)
Lemma connect_burst s dt l ds us rest :
  dials s = Accepted dt l :: ds -> (dt < 10000)%Z ->
  inbox l = us ++ rest -> burst (clock s + dt) (clock s + dt) us ->
  exists s' l',
    connect s = (Ok true, s')
    /\ sock s' = Some l' /\ inbox l' `suffix_of` rest /\ tx l' = tx l /\ shut l' = shut l
    /\ wire s' = wire s /\ dials s' = ds.
Proof.
  intros Hd Hdt Hi Hb.
  set (s0 := add_log (INFO, "Connecting to StormAudio") s).
  set (s1 := set_sock (Some l) (set_dials ds (set_clock (clock s0 + dt) s0))).
  destruct (clear_burst s1 l us rest eq_refl Hi Hb)
    as (s2 & l2 & Hrun & Hs2 & Hsuf & Htx & Hshut & Hwire & Hdials).
  exists (add_log (INFO, "Connected to StormAudio successfully") s2), l2.
  split; [|repeat split; assumption].
  unfold connect.
  rewrite (try_bind _ _ _ s tt s0) by reflexivity.
  assert (open_connection 10000 s0 = (Ok l, set_dials ds (set_clock (clock s0 + dt) s0))) as Ho.
  { unfold open_connection. change (dials s0) with (dials s). rewrite Hd.
    destruct (Z.ltb_spec dt 10000); [reflexivity|lia]. }
  rewrite (try_bind _ _ _ _ _ _ Ho).
  rewrite (try_bind _ _ _ _ tt s1) by reflexivity.
  rewrite (try_bind _ _ _ _ _ _ Hrun).
  reflexivity.
Qed.

Lemma connect_opens s dt l ds :
  dials s = Accepted dt l :: ds -> (dt < 10000)%Z ->
  exists s' l',
    connect s = (Ok true, s')
    /\ sock s' = Some l' /\ inbox l' `suffix_of` inbox l /\ tx l' = tx l /\ shut l' = shut l
    /\ wire s' = wire s /\ dials s' = ds.
Proof. intros Hd Hdt. apply (connect_burst s dt l ds [] (inbox l)); simpl; auto. Qed.

Lemma connect_fails s :
  match dials s with [] => True | d :: _ => dial_fails d end ->
  exists s',
    connect s = (Ok false, s')
    /\ sock s' = sock s /\ wire s' = wire s /\ dials s' = tl (dials s).
Proof.
  intros Hd. unfold connect.
  set (s0 := add_log (INFO, "Connecting to StormAudio") s).
  rewrite (try_bind _ _ _ s tt s0) by reflexivity.
  assert (exists e s1, open_connection 10000 s0 = (Raised e, s1) /\ sock s1 = sock s
                       /\ wire s1 = wire s /\ dials s1 = tl (dials s)) as (e & s1 & Ho & H).
  { unfold open_connection. change (dials s0) with (dials s).
    destruct (dials s) as [|[dt|dt l] ds] eqn:E; simpl in *.
    - do 2 eexists. split; [reflexivity|]. simpl. auto.
    - destruct (dt <? 10000)%Z; do 2 eexists; (split; [reflexivity|]); simpl; auto.
    - destruct (Z.ltb_spec dt 10000); [lia|].
      do 2 eexists. split; [reflexivity|]. simpl. auto. }
  rewrite (try_bind_raised _ _ _ _ _ _ Ho).
  eexists. split; [reflexivity|]. exact H.
Qed.

(** The handlers of [send_query] and [send_command] never give a
    result other than the one of failure. *)
Lemma failed_then {A} (a : A) msg s :
  let r := (logger ERROR msg ;; disconnect ;; ret a) s in
  (fst r = Ok a \/ exists e, fst r = Raised e)
  /\ wire (snd r) = wire s /\ dials (snd r) = dials s.
Proof.
  unfold disconnect, bind, gets, close_wait, ret, raise, logger, modify. simpl.
  destruct (sock s) as [l|]; [destruct (shut l)|]; simpl; eauto.
Qed.

(** [send_query] once there is a writer and the write goes through. *)
Lemma send_query_begun command s s1 l1 :
  ensure_writer s = (Ok true, s1) ->
  sock s1 = Some l1 -> hd true (tx l1) = true ->
  exists s2 l2,
    sock s2 = Some l2 /\ inbox l2 = inbox l1 /\ clock s2 = clock s1
    /\ wire s2 = wire s1 ++ [command +:+ nl] /\ dials s2 = dials s1
    /\ send_query command s
       = try_except
           (found <- while_ (length (inbox l1) + 16) (within (clock s1) 3000)
                       (query_turn (_get_expected_response_prefix command)) ;;
            match found with
            | Some line => ret (Some line)
            | None =>
                logger WARNING ("No matching response found for " +:+ command) ;;
                ret None
            end)
           (fun e =>
              logger ERROR ("Query failed: " +:+ command) ;;
              disconnect ;;
              ret None) s2.
Proof.
  intros He Hs Ht.
  set (s1' := add_log (DEBUG, "Sending query: " +:+ command) s1).
  destruct (write_drain_goes (command +:+ nl) s1' l1 Hs Ht) as (s2 & Hw).
  pose proof (dials_write (command +:+ nl) s1') as Hd. rewrite Hw in Hd.
  destruct (write_drain_ok _ _ _ Hw) as (Hwire & Hclock & l1' & l2 & Hs1 & Hs2 & Hin & _).
  change (sock s1') with (sock s1) in Hs1. rewrite Hs in Hs1. inversion Hs1; subst l1'.
  exists s2, l2. repeat split; try assumption.
  unfold send_query.
  rewrite (try_bind _ _ _ _ _ _ He). simpl negb. cbv iota.
  rewrite (try_bind _ _ _ s1 tt s1') by reflexivity.
  rewrite (try_bind _ _ _ _ _ _ Hw).
  rewrite (try_bind _ _ _ s2 (clock s2) s2) by reflexivity.
  rewrite (try_bind _ _ _ s2 (query_fuel s2) s2) by reflexivity.
  unfold query_fuel, pending. rewrite Hs2, Hin, Hclock. reflexivity.
Qed.

Lemma wire_query_rest command n start_time :
  keeps (same wire)
    (try_except
       (found <- while_ n (within start_time 3000)
                   (query_turn (_get_expected_response_prefix command)) ;;
        match found with
        | Some line => ret (Some line)
        | None =>
            logger WARNING ("No matching response found for " +:+ command) ;;
            ret None
        end)
       (fun e =>
          logger ERROR ("Query failed: " +:+ command) ;;
          disconnect ;;
          ret None)).
Proof. unfold within. keeps_tac. Qed.

Lemma dials_query_rest command n start_time :
  keeps (same dials)
    (try_except
       (found <- while_ n (within start_time 3000)
                   (query_turn (_get_expected_response_prefix command)) ;;
        match found with
        | Some line => ret (Some line)
        | None =>
            logger WARNING ("No matching response found for " +:+ command) ;;
            ret None
        end)
       (fun e =>
          logger ERROR ("Query failed: " +:+ command) ;;
          disconnect ;;
          ret None)).
Proof. unfold within. keeps_tac. Qed.

(** C6, amended.  Called while not connected, [send_query] opens the
    connection before it writes: when the attempt succeeds and the write
    goes through, the command is written and one attempt has been used.
    When the attempt fails, the call returns none at once: nothing is
    written, the session stays unconnected, and exactly one attempt has
    been made, there is no second one in the same call. *)
Theorem send_query_connects_once (command : string) (s : net) :
  sock s = None ->
  (forall dt l ds,
      dials s = Accepted dt l :: ds -> (dt < 10000)%Z -> hd true (tx l) = true ->
      wire (snd (send_query command s)) = wire s ++ [command +:+ nl]
      /\ dials (snd (send_query command s)) = ds)
  /\ (forall d ds,
        dials s = d :: ds -> dial_fails d ->
        fst (send_query command s) = Ok None
        /\ wire (snd (send_query command s)) = wire s
        /\ sock (snd (send_query command s)) = None
        /\ dials (snd (send_query command s)) = ds).
Proof.
  intros Hs. split.
  - intros dt l ds Hd Hdt Htx.
    destruct (connect_opens s dt l ds Hd Hdt)
      as (s1 & l1 & Hc & Hs1 & _ & Htx1 & _ & Hw1 & Hd1).
    assert (ensure_writer s = (Ok true, s1)) as He.
    { unfold ensure_writer, bind, gets. rewrite Hs. exact Hc. }
    rewrite <- Htx1 in Htx.
    destruct (send_query_begun command s s1 l1 He Hs1 Htx)
      as (s2 & l2 & _ & _ & _ & Hw2 & Hd2 & Hrun).
    rewrite Hrun. split.
    + rewrite (wire_query_rest command _ _ s2). congruence.
    + rewrite (dials_query_rest command _ _ s2). congruence.
  - intros d ds Hd Hf.
    destruct (connect_fails s) as (s1 & Hc & Hs1 & Hw1 & Hd1).
    { rewrite Hd. exact Hf. }
    assert (ensure_writer s = (Ok false, s1)) as He.
    { unfold ensure_writer, bind, gets. rewrite Hs. exact Hc. }
    unfold send_query. rewrite (try_bind _ _ _ _ _ _ He). simpl.
    rewrite Hd in Hd1. simpl in Hd1. repeat split; congruence.
Qed.

(** What [send_query] returns was read from the connection it wrote to. *)
Lemma send_query_result_origin command s s1 l1 x :
  ensure_writer s = (Ok true, s1) -> sock s1 = Some l1 ->
  fst (send_query command s) = Ok (Some x) ->
  exists t raw, In (Line t raw) (inbox l1) /\ x = Py.strip raw
                /\ Py.startswith x (_get_expected_response_prefix command) = true.
Proof.
  intros He Hs. unfold send_query.
  rewrite (try_bind _ _ _ _ _ _ He). simpl negb. cbv iota.
  set (s1' := add_log (DEBUG, "Sending query: " +:+ command) s1).
  rewrite (try_bind _ _ _ s1 tt s1') by reflexivity.
  destruct (write_drain (command +:+ nl) s1') as [[[]|e] s2] eqn:Hw.
  - destruct (write_drain_ok _ _ _ Hw) as (_ & _ & l1' & l2 & Hs1 & Hs2 & Hin & _).
    change (sock s1') with (sock s1) in Hs1. rewrite Hs in Hs1. inversion Hs1; subst l1'.
    rewrite (try_bind _ _ _ _ _ _ Hw).
    rewrite (try_bind _ _ _ s2 (clock s2) s2) by reflexivity.
    rewrite (try_bind _ _ _ s2 (query_fuel s2) s2) by reflexivity.
    pose proof (query_loop_result (_get_expected_response_prefix command) (clock s2) x
                  (query_fuel s2) s2 l2 Hs2) as Hres.
    
    destruct (while_ (query_fuel s2) _ _ s2) as [[[y|]|e] s3] eqn:Hloop.
    + rewrite (try_bind _ _ _ _ _ _ Hloop). simpl. intros H. inversion H; subst y.
      rewrite <- Hin. apply Hres. reflexivity.
    + rewrite (try_bind _ _ _ _ _ _ Hloop). simpl. discriminate.
    + rewrite (try_bind_raised _ _ _ _ _ _ Hloop). intros H.
      destruct (failed_then (@None string) ("Query failed: " +:+ command) s3) as ([H1|(e' & H1)] & _);
        rewrite H1 in H; discriminate.
  - rewrite (try_bind_raised _ _ _ _ _ _ Hw). intros H.
    destruct (failed_then (@None string) ("Query failed: " +:+ command) s2) as ([H1|(e' & H1)] & _);
      rewrite H1 in H; discriminate.
Qed.

(** When a connection opens, the lines of a burst, each
    arriving less than 0.1 s after the read before it has returned and
    read less than 2 s after the connection has opened, are read and
    dropped before [connect] returns: what is then unread is a suffix of
    what followed the burst.  A line of the burst is therefore never the
    result of the next query, whether the query is made on the session
    [connect] has returned or is the call that opened the connection. *)
Theorem connect_discards_burst (command : string) (s : net) dt l ds us rest :
  sock s = None -> dials s = Accepted dt l :: ds -> (dt < 10000)%Z ->
  inbox l = us ++ rest -> burst (clock s + dt) (clock s + dt) us ->
  exists s' l',
    connect s = (Ok true, s') /\ sock s' = Some l' /\ inbox l' `suffix_of` rest
    /\ (forall x, fst (send_query command s') = Ok (Some x) ->
                  exists t raw, In (Line t raw) rest /\ x = Py.strip raw)
    /\ (forall x, fst (send_query command s) = Ok (Some x) ->
                  exists t raw, In (Line t raw) rest /\ x = Py.strip raw).
Proof.
  intros Hs Hd Hdt Hi Hb.
  destruct (connect_burst s dt l ds us rest Hd Hdt Hi Hb)
    as (s' & l' & Hc & Hs' & Hsuf & _).
  exists s', l'. repeat split; try assumption.
  - intros x Hx.
    destruct (send_query_result_origin command s' s' l' x (ensure_writer_up s' l' Hs') Hs' Hx)
      as (t & raw & Hin & Hx' & _).
    exists t, raw. split; [|assumption].
    destruct Hsuf as (k & Hk). rewrite Hk. apply in_or_app. right. assumption.
  - intros x Hx.
    assert (ensure_writer s = (Ok true, s')) as He.
    { unfold ensure_writer, bind, gets. rewrite Hs. exact Hc. }
    destruct (send_query_result_origin command s s' l' x He Hs' Hx)
      as (t & raw & Hin & Hx' & _).
    exists t, raw. split; [|assumption].
    destruct Hsuf as (k & Hk). rewrite Hk. apply in_or_app. right. assumption.
Qed.

(** ** The loops have fuel enough *)

Lemma while_fuel_step {St A} (mu : St -> nat) (cond : M St bool) (body : M St (turn A)) :
  (forall s s0 s', cond s = (Ok true, s0) -> body s0 = (Ok Continue, s') -> mu s' < mu s) ->
  forall n s, mu s < n -> while_ (S n) cond body s = while_ n cond body s.
Proof.
  intros Hdec. induction n as [|n IH]; intros s Hlt; [lia|].
  change (while_ (S (S n)) cond body s) with
    (bind cond (fun c : bool => if c then
       bind body (fun t => match t with
                           | Continue => while_ (S n) cond body
                           | Break => ret None
                           | Return a => ret (Some a)
                           end)
     else ret None) s).
  change (while_ (S n) cond body s) with
    (bind cond (fun c : bool => if c then
       bind body (fun t => match t with
                           | Continue => while_ n cond body
                           | Break => ret None
                           | Return a => ret (Some a)
                           end)
     else ret None) s).
  unfold bind at 1 3. destruct (cond s) as [[[|]|e] s0] eqn:Hc; try reflexivity.
  unfold bind. destruct (body s0) as [[[| |a]|e] s'] eqn:Hb; try reflexivity.
  apply IH. specialize (Hdec s s0 s' Hc Hb). lia.
Qed.

Lemma while_fuel {St A} (mu : St -> nat) (cond : M St bool) (body : M St (turn A)) :
  (forall s s0 s', cond s = (Ok true, s0) -> body s0 = (Ok Continue, s') -> mu s' < mu s) ->
  forall n m s, mu s < n -> n <= m -> while_ m cond body s = while_ n cond body s.
Proof.
  intros Hdec n m s Hlt Hle. induction Hle as [|m Hle IH]; [reflexivity|].
  rewrite (while_fuel_step mu cond body Hdec m s) by lia. exact IH.
Qed.

Lemma query_turn_continue p s s' :
  query_turn p s = (Ok Continue, s') ->
  (pending s' = pending s /\ clock s' = (clock s + 200)%Z)
  \/ (S (pending s') = pending s /\ (clock s <= clock s')%Z).
Proof.
  unfold query_turn, except_timeout, try_except, bind, readline, pending.
  destruct (sock s) as [l|] eqn:Hs; [|discriminate].
  destruct (inbox l) as [|[t raw|t|t] rest] eqn:Hl; simpl.
  - intros H. inversion H; subst. simpl. rewrite Hs, Hl. auto.
  - destruct (t <? clock s + 200)%Z.
    + destruct raw as [|c raw]; [discriminate|]. cbn [Py.truthy negb].
      unfold logger, modify.
      match goal with |- context [Py.startswith ?a ?b] => destruct (Py.startswith a b) end;
        cbn; intros H; inversion H; subst; simpl.
      right. split; [reflexivity|lia].
    + simpl. intros H; inversion H; subst. simpl. rewrite Hs, Hl. auto.
  - destruct (t <? clock s + 200)%Z; simpl; [discriminate|].
    intros H; inversion H; subst. simpl. rewrite Hs, Hl. auto.
  - destruct (t <? clock s + 200)%Z; simpl; [discriminate|].
    intros H; inversion H; subst. simpl. rewrite Hs, Hl. auto.
Qed.

(** More turns than [query_fuel] change nothing: the fuel of
    [send_query] never runs out before the 3 s have passed. *)
Lemma query_fuel_enough p s n :
  query_fuel s <= n ->
  while_ n (within (clock s) 3000) (query_turn p) s
  = while_ (query_fuel s) (within (clock s) 3000) (query_turn p) s.
Proof.
  intros Hn.
  apply (while_fuel (query_turns_left (clock s))); [|unfold query_turns_left, query_fuel|exact Hn].
  - intros s1 s0 s' Hc Ht. rewrite within_run in Hc. inversion Hc; subst s0.
    destruct (Z.ltb_spec (clock s1 - clock s) 3000) as [Hlt|]; [|discriminate].
    unfold query_turns_left.
    destruct (query_turn_continue p s1 s' Ht) as [(Hp & Hk)|(Hp & Hk)].
    + rewrite Hp, Hk.
      replace (clock s + 3000 - (clock s1 + 200) + 199)%Z
        with (clock s + 3000 - clock s1 + 199 + (-1) * 200)%Z by lia.
      rewrite Z.div_add by lia.
      assert (1 <= (clock s + 3000 - clock s1 + 199) / 200)%Z
        by (apply Z.div_le_lower_bound; lia).
      lia.
    + rewrite <- Hp.
      assert ((clock s + 3000 - clock s' + 199) / 200 <= (clock s + 3000 - clock s1 + 199) / 200)%Z
        by (apply Z.div_le_mono; lia).
      lia.
  - replace (clock s + 3000 - clock s + 199)%Z with 3199%Z by lia.
    change (3199 / 200)%Z with 15%Z. simpl Z.to_nat. lia.
Qed.

Lemma clear_turn_continue s s' :
  clear_turn s = (Ok Continue, s') -> S (pending s') = pending s.
Proof.
  unfold clear_turn, except_timeout, try_except, bind, readline, pending.
  destruct (sock s) as [l|] eqn:Hs; [|discriminate].
  destruct (inbox l) as [|[t raw|t|t] rest] eqn:Hl; simpl; try discriminate;
    destruct (t <? clock s + 100)%Z; simpl; try discriminate.
  destruct raw as [|c raw]; [discriminate|]. cbn.
  intros H; inversion H; subst. simpl. reflexivity.
Qed.

(** Likewise for [_clear_initial_responses]: more turns than one per
    packet and one more change nothing, its loop ends by its own tests. *)
Lemma clear_fuel start_time s n :
  S (pending s) <= n ->
  while_ n (within start_time 2000) clear_turn s
  = while_ (S (pending s)) (within start_time 2000) clear_turn s.
Proof.
  intros Hn. apply (while_fuel pending); [|lia|exact Hn].
  intros s1 s0 s' Hc Ht. inversion Hc; subst s0.
  apply clear_turn_continue in Ht. lia.
Qed.

(** ** One poll cycle *)

(** [_async_update_data], step by step. *)
Lemma update_run c s :
  _async_update_data (c, s) =
  match get_power_state s with
  | (Raised _, s1) => update_failed c s1
  | (Ok p, s1) =>
      match get_processor_state s1 with
      | (Raised _, s2) => update_failed c s2
      | (Ok q, s2) =>
          let s2' := status_logged c s2 in
          if eq_int (of_option VInt q) 2 then
            match get_volume s2' with
            | (Raised _, s3) => update_failed c s3
            | (Ok v, s3) =>
                match get_mute_state s3 with
                | (Raised _, s4) => update_failed c s4
                | (Ok m, s4) =>
                    match get_input s4 with
                    | (Raised _, s5) => update_failed c s5
                    | (Ok i, s5) =>
                        (Ok (<["input_list" := VInputs (input_list_for c)]>
                               (<["input" := of_option VInt i]>
                                  (<["muted" := of_option VBool m]>
                                     (<["volume" := of_option VFloat v]>
                                        (basic_states p q))))),
                         (with_input_list c, s5))
                    end
                end
            end
          else
            (Ok (<["input_list" := VInputs (input_list_for c)]>
                   (<["input" := VNone]>
                      (<["muted" := VNone]>
                         (<["volume" := VNone]> (basic_states p q))))),
             (with_input_list c, s2'))
      end
  end.
Proof.
  unfold _async_update_data, try_except, bind, on_api, self, gets, assign, logger, modify,
    _get_input_list, ret, raise, update_failed, status_logged, input_list_for,
    with_input_list, basic_states.
  cbn [fst snd].
  destruct (get_power_state s) as [[p|e] s1]; [|reflexivity]. cbn [fst snd].
  destruct (get_processor_state s1) as [[q|e] s2]; [|reflexivity]. cbn [fst snd].
  unfold get. rewrite lookup_insert_eq.
  destruct (_power_on_polling_active c); cbn [fst snd];
    (destruct (eq_int (of_option VInt q) 2); cbn [fst snd];
     [ match goal with |- context [get_volume ?x] => destruct (get_volume x) as [[v|e] s3] end;
       [|reflexivity]; cbn [fst snd];
       destruct (get_mute_state s3) as [[m|e] s4]; [|reflexivity]; cbn [fst snd];
       destruct (get_input s4) as [[i|e] s5]; [|reflexivity]; cbn [fst snd]
     | ];
     destruct (_input_list_cached c); reflexivity).
Qed.

(** C4.  In the snapshot of a poll cycle whose processor state is not 2,
    volume, mute and input are [None], whatever the coordinator held
    before the cycle. *)
Theorem power_off_fields_reset (h h' : hub) (d : gmap string value) :
  _async_update_data h = (Ok d, h') ->
  eq_int (get d "processor_state") 2 = false ->
  d !! "volume" = Some VNone /\ d !! "muted" = Some VNone /\ d !! "input" = Some VNone.
Proof.
  destruct h as [c s]. rewrite update_run.
  destruct (get_power_state s) as [[p|e] s1]; [|discriminate].
  destruct (get_processor_state s1) as [[q|e] s2]; [|discriminate].
  cbv zeta. destruct (eq_int (of_option VInt q) 2) eqn:Hq.
  - destruct (get_volume _) as [[v|e] s3]; [|discriminate].
    destruct (get_mute_state s3) as [[m|e] s4]; [|discriminate].
    destruct (get_input s4) as [[i|e] s5]; [|discriminate].
    intros H; inversion H; subst; clear H.
    unfold get, basic_states. rewrite !lookup_insert_ne by discriminate.
    rewrite lookup_insert_eq. congruence.
  - intros H _; inversion H; subst; clear H.
    rewrite !lookup_insert_ne by discriminate. rewrite lookup_insert_eq.
    rewrite !lookup_insert_ne by discriminate. rewrite lookup_insert_eq.
    rewrite !lookup_insert_ne by discriminate. rewrite lookup_insert_eq.
    auto.
Qed.

(** ** What a poll cycle writes *)

(** [send_query] writes its command, once, or nothing. *)
Lemma send_query_wire command s :
  wire (snd (send_query command s)) = wire s
  \/ wire (snd (send_query command s)) = wire s ++ [command +:+ nl].
Proof.
  unfold send_query.
  pose proof (wire_ensure s) as W.
  destruct (ensure_writer s) as [[[|]|e] s1] eqn:E; unfold same in W; simpl in W.
  - rewrite (try_bind _ _ _ _ _ _ E). simpl negb. cbv iota.
    set (s1' := add_log (DEBUG, "Sending query: " +:+ command) s1).
    rewrite (try_bind _ _ _ s1 tt s1') by reflexivity.
    destruct (write_drain (command +:+ nl) s1') as [[[]|e] s2] eqn:Hw.
    + right. rewrite (try_bind _ _ _ _ _ _ Hw).
      rewrite (try_bind _ _ _ s2 (clock s2) s2) by reflexivity.
      rewrite (try_bind _ _ _ s2 (query_fuel s2) s2) by reflexivity.
      pose proof (wire_query_rest command (query_fuel s2) (clock s2) s2) as K.
      unfold same in K. etransitivity; [exact K|].
      apply write_drain_ok in Hw. destruct Hw as (Hw & _). rewrite Hw. simpl. congruence.
    + left. rewrite (try_bind_raised _ _ _ _ _ _ Hw).
      destruct (failed_then (@None string) ("Query failed: " +:+ command) s2) as (_ & Hf & _).
      simpl in Hf. rewrite Hf. apply write_drain_raised in Hw. rewrite Hw. simpl. exact W.
  - left. rewrite (try_bind _ _ _ _ _ _ E). simpl. exact W.
  - left. rewrite (try_bind_raised _ _ _ _ _ _ E).
    destruct (failed_then (@None string) ("Query failed: " +:+ command) s1) as (_ & Hf & _).
    simpl in Hf. rewrite Hf. exact W.
Qed.

(** The getters do nothing to the state after their query. *)
Ltac getter :=
  let s := fresh "s" in
  intros s;
  cbv [get_power_state get_volume get_mute_state get_input get_processor_state bind];
  destruct (send_query _ s) as [[[r|]|e] s1]; simpl; try reflexivity;
  repeat case_match; reflexivity.

Lemma get_power_state_state : forall s,
  snd (get_power_state s) = snd (send_query CMD_POWER_QUERY s).
Proof. getter. Qed.
Lemma get_processor_state_state : forall s,
  snd (get_processor_state s) = snd (send_query CMD_PROC_STATE s).
Proof. getter. Qed.
Lemma get_volume_state : forall s,
  snd (get_volume s) = snd (send_query CMD_VOLUME_QUERY s).
Proof. getter. Qed.
Lemma get_mute_state_state : forall s,
  snd (get_mute_state s) = snd (send_query CMD_MUTE_QUERY s).
Proof. getter. Qed.
Lemma get_input_state : forall s,
  snd (get_input s) = snd (send_query CMD_INPUT_QUERY s).
Proof. getter. Qed.

Lemma send_query_grows command s :
  exists w, wire (snd (send_query command s)) = wire s ++ w
            /\ w `sublist_of` [command +:+ nl].
Proof.
  destruct (send_query_wire command s) as [H|H]; rewrite H.
  - exists []. rewrite app_nil_r. split; [reflexivity|apply sublist_nil_l].
  - exists [command +:+ nl]. split; reflexivity.
Qed.

Ltac sublists :=
  repeat first
    [ assumption
    | apply sublist_nil_l
    | apply sublist_app
    | apply sublist_inserts_r ].

(** A poll cycle writes the power query, then the processor query, then,
    only when the processor state it has read is 2, the volume, mute and
    input queries; each at most once, and nothing else. *)
Lemma poll_cycle_queries c s :
  let r := _async_update_data (c, s) in
  exists ws,
    wire (snd (snd r)) = wire s ++ ws
    /\ ws `sublist_of` (basic_queries ++ further_queries)
    /\ (forall d, fst r = Ok d -> eq_int (get d "processor_state") 2 = false ->
                  ws `sublist_of` basic_queries).
Proof.
  cbv zeta. rewrite update_run.
  change (basic_queries ++ further_queries) with
    ([CMD_POWER_QUERY +:+ nl] ++ [CMD_PROC_STATE +:+ nl] ++ [CMD_VOLUME_QUERY +:+ nl]
       ++ [CMD_MUTE_QUERY +:+ nl] ++ [CMD_INPUT_QUERY +:+ nl]).
  change basic_queries with ([CMD_POWER_QUERY +:+ nl] ++ [CMD_PROC_STATE +:+ nl]).
  destruct (send_query_grows CMD_POWER_QUERY s) as (w1 & W1 & S1).
  rewrite <- get_power_state_state in W1.
  destruct (get_power_state s) as [[p|e] s1]; cbn [snd] in W1.
  2:{ exists w1. split; [exact W1|].
      split; [sublists|intros d Hd; discriminate Hd]. }
  destruct (send_query_grows CMD_PROC_STATE s1) as (w2 & W2 & S2).
  rewrite <- get_processor_state_state in W2.
  destruct (get_processor_state s1) as [[q|e] s2]; cbn [snd] in W2.
  2:{ exists (w1 ++ w2). rewrite app_assoc, <- W1. split; [exact W2|].
      split; [sublists|intros d Hd; discriminate Hd]. }
  cbv zeta.
  assert (wire (status_logged c s2) = wire s ++ w1 ++ w2) as WL.
  { rewrite app_assoc, <- W1, <- W2.
    unfold status_logged; destruct (_power_on_polling_active c); reflexivity. }
  destruct (eq_int (of_option VInt q) 2) eqn:Hq.
  - assert (forall d, eq_int (get d "processor_state") 2 = false ->
                      d !! "processor_state" = Some (of_option VInt q) -> False) as Hno.
    { intros d Hd Hl. unfold get in Hd. rewrite Hl in Hd. congruence. }
    destruct (send_query_grows CMD_VOLUME_QUERY (status_logged c s2)) as (w3 & W3 & S3).
    rewrite <- get_volume_state in W3. rewrite WL in W3.
    destruct (get_volume _) as [[v|e] s3]; cbn [snd] in W3.
    2:{ exists (w1 ++ w2 ++ w3).
        split; [change (wire s3 = wire s ++ w1 ++ w2 ++ w3);
                rewrite W3, <- !app_assoc; reflexivity|].
        split; [sublists|intros d Hd; discriminate Hd]. }
    destruct (send_query_grows CMD_MUTE_QUERY s3) as (w4 & W4 & S4).
    rewrite <- get_mute_state_state in W4. rewrite W3 in W4.
    destruct (get_mute_state s3) as [[m|e] s4]; cbn [snd] in W4.
    2:{ exists (w1 ++ w2 ++ w3 ++ w4).
        split; [change (wire s4 = wire s ++ w1 ++ w2 ++ w3 ++ w4);
                rewrite W4, <- !app_assoc; reflexivity|].
        split; [sublists|intros d Hd; discriminate Hd]. }
    destruct (send_query_grows CMD_INPUT_QUERY s4) as (w5 & W5 & S5).
    rewrite <- get_input_state in W5. rewrite W4 in W5.
    destruct (get_input s4) as [[i|e] s5]; cbn [snd] in W5.
    2:{ exists (w1 ++ w2 ++ w3 ++ w4 ++ w5).
        split; [change (wire s5 = wire s ++ w1 ++ w2 ++ w3 ++ w4 ++ w5);
                rewrite W5, <- !app_assoc; reflexivity|].
        split; [sublists|intros d Hd; discriminate Hd]. }
    exists (w1 ++ w2 ++ w3 ++ w4 ++ w5).
    split; [cbn [snd]; rewrite W5, <- !app_assoc; reflexivity|].
    split; [sublists|].
    intros d Hd Hf. exfalso. cbn [fst] in Hd. inversion Hd; subst d. apply (Hno _ Hf).
    unfold basic_states. rewrite !lookup_insert_ne by discriminate. apply lookup_insert_eq.
  - exists (w1 ++ w2). split; [exact WL|].
    split; [sublists|]. intros _ _ _. sublists.
Qed.

(** ** The input list *)

(** The first poll cycle stores the table of [_get_input_list], and every
    cycle hands out what is stored by then: no cycle after the first
    calls [_get_input_list]. *)
Lemma input_list_cached_once c s d c' s' :
  _async_update_data (c, s) = (Ok d, (c', s')) ->
  d !! "input_list" = Some (VInputs (input_list_for c))
  /\ _input_list_cached c' = Some (input_list_for c)
  /\ (forall l, _input_list_cached c = Some l -> input_list_for c = l /\ c' = c)
  /\ (_input_list_cached c = None -> input_list_for c = builtin_inputs).
Proof.
  rewrite update_run.
  assert (_input_list_cached (with_input_list c) = Some (input_list_for c)) as Hc.
  { unfold with_input_list, input_list_for. destruct (_input_list_cached c) eqn:E; [exact E|reflexivity]. }
  assert (forall l, _input_list_cached c = Some l -> input_list_for c = l /\ with_input_list c = c) as Hl.
  { intros l E. unfold with_input_list, input_list_for. rewrite E. auto. }
  assert (_input_list_cached c = None -> input_list_for c = builtin_inputs) as Hn.
  { intros E. unfold input_list_for. rewrite E. reflexivity. }
  destruct (get_power_state s) as [[p|e] s1]; [|discriminate].
  destruct (get_processor_state s1) as [[q|e] s2]; [|discriminate].
  cbv zeta. destruct (eq_int (of_option VInt q) 2).
  - destruct (get_volume _) as [[v|e] s3]; [|discriminate].
    destruct (get_mute_state s3) as [[m|e] s4]; [|discriminate].
    destruct (get_input s4) as [[i|e] s5]; [|discriminate].
    intros H; inversion H; subst; clear H. rewrite lookup_insert_eq. auto.
  - intros H; inversion H; subst; clear H. rewrite lookup_insert_eq. auto.
Qed.

(** ** Connections that close *)

#[local] Instance stays_closable_preorder : PreOrder stays_closable.
Proof. split; unfold stays_closable; [intros s; auto|intros a b c; auto]. Qed.

Lemma closable_logger l m : keeps stays_closable (logger l m).
Proof. intros s H. exact H. Qed.
Lemma closable_time : keeps stays_closable time.
Proof. intros s H. exact H. Qed.
Lemma closable_sleep t : keeps stays_closable (sleep t).
Proof. intros s H. exact H. Qed.
Lemma closable_readline t : keeps stays_closable (readline t).
Proof.
  intros s [Hs Hd]. pose proof (drains_readline t s) as K.
  pose proof (dials_readline t s) as D. unfold same in D.
  split; [|rewrite D; exact Hd].
  intros l' Hl'. destruct (sock s) as [l|] eqn:E.
  - destruct (K l E) as (l1 & H1 & _ & _ & H2). rewrite H1 in Hl'. inversion Hl'; subst.
    rewrite H2. auto.
  - unfold readline in Hl'. rewrite E in Hl'. simpl in Hl'. congruence.
Qed.
Lemma closable_write d : keeps stays_closable (write_drain d).
Proof.
  intros s Hc. pose proof Hc as [Hs Hd]. unfold write_drain.
  destruct (sock s) as [l|] eqn:E; [|exact Hc].
  pose proof (Hs l eq_refl) as Hl.
  destruct (tx l) as [|[|] x]; simpl; split; simpl; try exact Hd;
    intros l' H; try rewrite E in H; inversion H; subst; simpl; exact Hl.
Qed.
Lemma closable_disconnect : keeps stays_closable disconnect.
Proof.
  intros s Hc. pose proof Hc as [Hs Hd].
  unfold disconnect, bind, gets, close_wait, modify, ret, raise.
  destruct (sock s) as [l|] eqn:E; [destruct (shut l)|]; simpl; try exact Hc.
  split; simpl; [discriminate|exact Hd].
Qed.
Lemma closable_connect : keeps stays_closable connect.
Proof.
  intros s [Hs Hd].
  destruct (dials s) as [|[dt|dt l] ds] eqn:E.
  - destruct (connect_fails s) as (s' & Hc & H1 & _ & H2); [rewrite E; exact I|].
    rewrite Hc. simpl. split; [rewrite H1; exact Hs|]. rewrite H2, E. constructor.
  - destruct (connect_fails s) as (s' & Hc & H1 & _ & H2); [rewrite E; exact I|].
    rewrite Hc. simpl. split; [rewrite H1; exact Hs|]. rewrite H2, E. simpl.
    inversion Hd; assumption.
  - inversion Hd as [|? ? Hl Hds]; subst.
    destruct (Z.lt_ge_cases dt 10000) as [Hlt|Hge].
    + destruct (connect_opens s dt l ds E Hlt) as (s' & l' & Hc & H1 & _ & _ & H2 & _ & H3).
      rewrite Hc. simpl. split; [|rewrite H3; exact Hds].
      intros l0 H0. rewrite H1 in H0. inversion H0; subst. congruence.
    + destruct (connect_fails s) as (s' & Hc & H1 & _ & H2); [rewrite E; exact Hge|].
      rewrite Hc. simpl. split; [rewrite H1; exact Hs|]. rewrite H2, E. exact Hds.
Qed.
#[local] Hint Resolve closable_logger closable_time closable_sleep closable_readline
  closable_write closable_disconnect closable_connect : keeps.

Lemma closable_send_query command : keeps stays_closable (send_query command).
Proof. unfold send_query, ensure_writer, query_turn. keeps_tac. Qed.

Lemma disconnect_closable s : closable s -> fst (disconnect s) = Ok tt.
Proof.
  intros [Hs _]. unfold disconnect, bind, gets, close_wait, modify, ret, raise.
  destruct (sock s) as [l|] eqn:E; [|reflexivity].
  rewrite (Hs l eq_refl). reflexivity.
Qed.

(** With connections that close, [send_query] returns. *)
Lemma send_query_returns command s :
  closable s -> exists r, fst (send_query command s) = Ok r.
Proof.
  intros Hc. unfold send_query, try_except.
  match goal with |- context [match ?m s with _ => _ end] =>
    assert (keeps stays_closable m) as K by (unfold ensure_writer, query_turn; keeps_tac);
    specialize (K s Hc);
    destruct (m s) as [[r|e] s1] eqn:Hm end.
  - eauto.
  - simpl in K. unfold bind, logger, modify.
    pose proof (disconnect_closable (add_log (ERROR, "Query failed: " +:+ command) s1) K) as Hd.
    destruct (disconnect _) as [[[]|e'] s2]; simpl in Hd; [|discriminate]. simpl. eauto.
Qed.

Ltac getter_returns :=
  let s := fresh "s" in
  let Hc := fresh "Hc" in
  intros s Hc;
  cbv [get_power_state get_volume get_mute_state get_input get_processor_state bind];
  match goal with |- context [send_query ?c s] =>
    destruct (send_query_returns c s Hc) as (r & Hr);
    pose proof (closable_send_query c s Hc) as Hk;
    destruct (send_query c s) as [[r'|e] s1]; simpl in Hr; [|discriminate];
    simpl in Hk
  end;
  repeat case_match; simpl; eauto.

Lemma get_power_state_returns : forall s,
  closable s -> exists r s', get_power_state s = (Ok r, s') /\ closable s'.
Proof. getter_returns. Qed.
Lemma get_processor_state_returns : forall s,
  closable s -> exists r s', get_processor_state s = (Ok r, s') /\ closable s'.
Proof. getter_returns. Qed.
Lemma get_volume_returns : forall s,
  closable s -> exists r s', get_volume s = (Ok r, s') /\ closable s'.
Proof. getter_returns. Qed.
Lemma get_mute_state_returns : forall s,
  closable s -> exists r s', get_mute_state s = (Ok r, s') /\ closable s'.
Proof. getter_returns. Qed.
Lemma get_input_returns : forall s,
  closable s -> exists r s', get_input s = (Ok r, s') /\ closable s'.
Proof. getter_returns. Qed.

Lemma get_power_state_none s :
  fst (send_query CMD_POWER_QUERY s) = Ok None -> fst (get_power_state s) = Ok None.
Proof.
  unfold get_power_state, bind. destruct (send_query CMD_POWER_QUERY s) as [[[r|]|e] s1];
    simpl; intros H; inversion H. reflexivity.
Qed.

Lemma get_processor_state_none s :
  fst (send_query CMD_PROC_STATE s) = Ok None -> fst (get_processor_state s) = Ok None.
Proof.
  unfold get_processor_state, bind. destruct (send_query CMD_PROC_STATE s) as [[[r|]|e] s1];
    simpl; intros H; inversion H. reflexivity.
Qed.

Lemma refresh_run h :
  async_request_refresh h =
  match _async_update_data h with
  | (Ok d, (c', s')) => (Ok tt, (set_last_update_success true (set_data (Some d) c'), s'))
  | (Raised _, (c', s')) =>
      (Ok tt, (set_last_update_success false c',
               add_log (ERROR, "Error fetching stormaudio data") s'))
  end.
Proof.
  unfold async_request_refresh, try_except, bind, assign, on_api, logger, modify.
  destruct (_async_update_data h) as [[d|e] [c' s']]; reflexivity.
Qed.

Lemma get_volume_none s :
  fst (send_query CMD_VOLUME_QUERY s) = Ok None -> fst (get_volume s) = Ok None.
Proof.
  unfold get_volume, bind. destruct (send_query CMD_VOLUME_QUERY s) as [[[r|]|e] s1];
    simpl; intros H; inversion H. reflexivity.
Qed.

Lemma get_mute_state_none s :
  fst (send_query CMD_MUTE_QUERY s) = Ok None -> fst (get_mute_state s) = Ok None.
Proof.
  unfold get_mute_state, bind. destruct (send_query CMD_MUTE_QUERY s) as [[[r|]|e] s1];
    simpl; intros H; inversion H. reflexivity.
Qed.

Lemma get_input_none s :
  fst (send_query CMD_INPUT_QUERY s) = Ok None -> fst (get_input s) = Ok None.
Proof.
  unfold get_input, bind. destruct (send_query CMD_INPUT_QUERY s) as [[[r|]|e] s1];
    simpl; intros H; inversion H. reflexivity.
Qed.

(** C3, amended.  With connections that close normally, the data update
    returns a snapshot whatever the transport does, and the refresh
    records it as a success; the snapshot has no ["available"] entry.
    Every field whose query ends without a reply is [None]:
    [power_state] when the power query does; [processor_state] when the
    processor query does, and then volume, mute and input, which are not
    queried; and, when the processor state is 2, each of volume, mute
    and input when its own query does. *)
Theorem update_survives_transport_failure (c : coordinator) (s : net) :
  closable s ->
  let s1 := snd (send_query CMD_POWER_QUERY s) in
  let s2 := status_logged c (snd (send_query CMD_PROC_STATE s1)) in
  let s3 := snd (send_query CMD_VOLUME_QUERY s2) in
  let s4 := snd (send_query CMD_MUTE_QUERY s3) in
  exists d c' s',
    _async_update_data (c, s) = (Ok d, (c', s'))
    /\ async_request_refresh (c, s)
       = (Ok tt, (set_last_update_success true (set_data (Some d) c'), s'))
    /\ d !! "available" = None
    /\ (fst (send_query CMD_POWER_QUERY s) = Ok None -> d !! "power_state" = Some VNone)
    /\ (fst (send_query CMD_PROC_STATE s1) = Ok None ->
        d !! "processor_state" = Some VNone /\ d !! "volume" = Some VNone
        /\ d !! "muted" = Some VNone /\ d !! "input" = Some VNone)
    /\ (d !! "processor_state" = Some (VInt 2) ->
        (fst (send_query CMD_VOLUME_QUERY s2) = Ok None -> d !! "volume" = Some VNone)
        /\ (fst (send_query CMD_MUTE_QUERY s3) = Ok None -> d !! "muted" = Some VNone)
        /\ (fst (send_query CMD_INPUT_QUERY s4) = Ok None -> d !! "input" = Some VNone)).
Proof.
  intros Hc s1 s2 s3 s4.
  assert (exists d c' s',
    _async_update_data (c, s) = (Ok d, (c', s'))
    /\ d !! "available" = None
    /\ (fst (send_query CMD_POWER_QUERY s) = Ok None -> d !! "power_state" = Some VNone)
    /\ (fst (send_query CMD_PROC_STATE s1) = Ok None ->
        d !! "processor_state" = Some VNone /\ d !! "volume" = Some VNone
        /\ d !! "muted" = Some VNone /\ d !! "input" = Some VNone)
    /\ (d !! "processor_state" = Some (VInt 2) ->
        (fst (send_query CMD_VOLUME_QUERY s2) = Ok None -> d !! "volume" = Some VNone)
        /\ (fst (send_query CMD_MUTE_QUERY s3) = Ok None -> d !! "muted" = Some VNone)
        /\ (fst (send_query CMD_INPUT_QUERY s4) = Ok None -> d !! "input" = Some VNone)))
    as (d & c' & s' & H & Hrest).
  2:{ exists d, c', s'. split; [exact H|]. split; [|exact Hrest].
      rewrite refresh_run, H. reflexivity. }
  rewrite update_run.
  pose proof (get_power_state_none s) as N1.
  pose proof (get_power_state_state s) as T1. fold s1 in T1.
  destruct (get_power_state_returns s Hc) as (p & s1' & E1 & Hc1). rewrite E1 in *.
  simpl in N1, T1. subst s1'.
  pose proof (get_processor_state_none s1) as N2.
  pose proof (get_processor_state_state s1) as T2.
  destruct (get_processor_state_returns s1 Hc1) as (q & s2' & E2 & Hc2). rewrite E2 in *.
  simpl in N2, T2. subst s2'. cbv zeta. fold s2.
  assert (closable s2) as Hc2'.
  { unfold s2, status_logged. destruct (_power_on_polling_active c); exact Hc2. }
  destruct (eq_int (of_option VInt q) 2) eqn:Hq.
  - pose proof (get_volume_none s2) as N3.
    pose proof (get_volume_state s2) as T3. fold s3 in T3.
    destruct (get_volume_returns _ Hc2') as (v & s3' & E3 & Hc3). rewrite E3 in *.
    simpl in N3, T3. subst s3'.
    pose proof (get_mute_state_none s3) as N4.
    pose proof (get_mute_state_state s3) as T4. fold s4 in T4.
    destruct (get_mute_state_returns _ Hc3) as (m & s4' & E4 & Hc4). rewrite E4 in *.
    simpl in N4, T4. subst s4'.
    pose proof (get_input_none s4) as N5.
    destruct (get_input_returns _ Hc4) as (i & s5 & E5 & Hc5). rewrite E5 in *.
    simpl in N5.
    do 3 eexists. split; [reflexivity|].
    unfold basic_states. split; [reflexivity|]. split; [|split].
    + intros H. specialize (N1 H). inversion N1; subst p.
      rewrite !lookup_insert_ne by discriminate. apply lookup_insert_eq.
    + intros H. specialize (N2 H). inversion N2; subst q. discriminate.
    + intros _. split; [|split].
      * intros H. specialize (N3 H). inversion N3; subst v.
        rewrite !lookup_insert_ne by discriminate. apply lookup_insert_eq.
      * intros H. specialize (N4 H). inversion N4; subst m.
        rewrite !lookup_insert_ne by discriminate. apply lookup_insert_eq.
      * intros H. specialize (N5 H). inversion N5; subst i.
        rewrite !lookup_insert_ne by discriminate. apply lookup_insert_eq.
  - do 3 eexists. split; [reflexivity|].
    unfold basic_states. split; [reflexivity|]. split; [|split].
    + intros H. specialize (N1 H). inversion N1; subst p.
      rewrite !lookup_insert_ne by discriminate. apply lookup_insert_eq.
    + intros H. specialize (N2 H). inversion N2; subst q.
      repeat split;
        try (rewrite !lookup_insert_ne by discriminate; apply lookup_insert_eq).
    + rewrite !lookup_insert_ne by discriminate. rewrite lookup_insert_eq.
      intros H. inversion H as [H']. destruct q as [z|]; [|discriminate H'].
      simpl in H'. inversion H'; subst z. discriminate Hq.
Qed.

(** ** The burst *)

Lemma refresh_returns h : fst (async_request_refresh h) = Ok tt.
Proof. rewrite refresh_run. destruct (_async_update_data h) as [[d|e] [c' s']]; reflexivity. Qed.

Lemma sleep_run ms h :
  on_api (sleep ms) h = (Ok tt, (fst h, set_clock (clock (snd h) + ms) (snd h))).
Proof. reflexivity. Qed.


Section Burst.
Variable refresh : poller unit.
Hypothesis refresh_returns_ : forall h, fst (refresh h) = Ok tt.

Lemma polled_run h :
  refresh (fst h, set_clock (clock (snd h) + 2000) (snd h)) = (Ok tt, polled refresh h).
Proof.
  unfold polled, burst_poll. rewrite (bind_ok _ _ _ _ _ (sleep_run 2000 h)).
  pose proof (refresh_returns_ (fst h, set_clock (clock (snd h) + 2000) (snd h))) as H.
  destruct (refresh _) as [r h']. simpl in *. rewrite H. reflexivity.
Qed.

Lemma poll_turn_run attempt h :
  poll_turn refresh attempt h =
  if fully_on (data_or_empty (fst (polled refresh h)))
  then (Ok (Return tt), settled (powered_on_after attempt) (polled refresh h))
  else (Ok Continue, polled refresh h).
Proof.
  unfold poll_turn.
  rewrite (bind_ok _ _ _ _ _ (sleep_run 2000 h)).
  rewrite (bind_ok _ _ _ _ _ (polled_run h)).
  unfold bind, self, gets. cbn [fst snd].
  destruct (fully_on (data_or_empty (polled refresh h).1)); reflexivity.
Qed.

Lemma burst_loop_run count : forall start h,
  for_range count start (poll_turn refresh) h =
  match first_ready refresh count h with
  | Some n => (Ok (Some tt), settled (powered_on_after (start + n - 1)) (polls refresh n h))
  | None => (Ok None, polls refresh count h)
  end.
Proof.
  induction count as [|count IH]; intros start h; [reflexivity|].
  cbn [for_range first_ready polls]. unfold bind at 1. rewrite poll_turn_run.
  destruct (fully_on (data_or_empty (fst (polled refresh h)))).
  - replace (start + 1 - 1) with start by lia. reflexivity.
  - rewrite IH. destruct (first_ready refresh count (polled refresh h)) as [n|]; cbn [option_map];
      [|reflexivity].
    replace (S start + n - 1) with (start + S n - 1) by lia. reflexivity.
Qed.




Lemma burst_sequence_run h :
  _poll_power_on_sequence refresh h =
  match first_ready refresh 15 h with
  | Some n => (Ok tt, settled (powered_on_after (n - 1)) (polls refresh n h))
  | None => (Ok tt, settled not_powered_on (polls refresh 15 h))
  end.
Proof.
  unfold _poll_power_on_sequence, bind at 1. rewrite burst_loop_run.
  destruct (first_ready refresh 15 h) as [n|]; [reflexivity|].
  destruct (polls refresh 15 h) as [c s]. reflexivity.
Qed.


Lemma handle_power_command_returns power_on c s :
  (exists b, fst (set_power power_on s) = Ok b) ->
  fst (handle_power_command refresh power_on (c, s)) = Ok tt.
Proof.
  intros (b & Hb). unfold handle_power_command, bind at 1. unfold on_api at 1.
  cbn [snd fst]. destruct (set_power power_on s) as [r s1]. simpl in Hb. subst r.
  destruct b, power_on; cbn [andb]; cbv iota.
  - change (fst (_poll_power_on_sequence refresh (burst_started (c, s1))) = Ok tt).
    rewrite burst_sequence_run. destruct (first_ready refresh 15 _); reflexivity.
  - rewrite (bind_ok _ _ _ _ _ (sleep_run 1000 (c, s1))). apply refresh_returns_.
  - reflexivity.
  - reflexivity.
Qed.

End Burst.


(** ** Numbers *)

Lemma inject_Z_minus (a b : Z) : inject_Z (a - b) = (inject_Z a - inject_Z b)%Q.
Proof. unfold Z.sub, Qminus. rewrite inject_Z_plus, inject_Z_opp. reflexivity. Qed.

Ltac qz :=
  rewrite ?inject_Z_minus, ?inject_Z_plus in *;
  change (inject_Z 100) with 100%Q in *;
  change (inject_Z 1) with 1%Q in *;
  change (inject_Z 0) with 0%Q in *.

Local Open Scope Q_scope.

(** *** Rounding to binary64 *)

Lemma round_close (q : Q) : Qabs (inject_Z (Py.round q) - q) <= 1 # 2.
Proof.
  unfold Py.round.
  pose proof (Qfloor_le q) as Hl. pose proof (Qlt_floor q) as Hu.
  rewrite inject_Z_plus in Hu. change (inject_Z 1) with 1 in Hu.
  apply Qabs_Qle_condition.
  destruct (Qcompare_spec (q - inject_Z (Qfloor q)) (1 # 2)) as [E|E|E].
  - destruct (Z.even (Qfloor q)).
    + split; lra.
    + rewrite inject_Z_plus. change (inject_Z 1) with 1. split; lra.
  - split; lra.
  - rewrite inject_Z_plus. change (inject_Z 1) with 1. split; lra.
Qed.

Lemma round_comp (p q : Q) : p == q -> Py.round p = Py.round q.
Proof.
  intros E. unfold Py.round. rewrite (Qfloor_comp p q E).
  assert (p - inject_Z (Qfloor q) == q - inject_Z (Qfloor q)) as E' by (rewrite E; reflexivity).
  rewrite (Qcompare_comp _ _ E' (1 # 2) (1 # 2) (Qeq_refl _)). reflexivity.
Qed.

Lemma round_inject (z : Z) : Py.round (inject_Z z) = z.
Proof.
  unfold Py.round. rewrite Qfloor_Z.
  assert (inject_Z z - inject_Z z == 0) as E by ring.
  rewrite (Qcompare_comp _ _ E (1 # 2) (1 # 2) (Qeq_refl _)). reflexivity.
Qed.

Lemma two_pow_pos (k : Z) : 0 < 2 ^ k.
Proof. apply Qpower_0_lt. reflexivity. Qed.

(** [ilog2 x] is at most the binary logarithm of [x]. *)
Lemma ilog2_le (x : Q) : 0 < x -> 2 ^ Py.ilog2 x <= x.
Proof.
  intros Hx. unfold Py.ilog2.
  set (k := (Z.log2 (Qnum x) - Z.log2 (Z.pos (Qden x)))%Z).
  destruct (Qle_bool (2 ^ k) x) eqn:E; [apply Qle_bool_iff; exact E|].
  destruct x as [n d]. cbn [Qnum Qden] in k.
  assert (0 < n)%Z as Hn by (unfold Qlt in Hx; simpl in Hx; lia).
  pose proof (Z.log2_spec n Hn) as [Ha _].
  pose proof (Z.log2_spec (Z.pos d) (Pos2Z.is_pos d)) as [_ Hb].
  pose proof (Z.log2_nonneg n) as Hna. pose proof (Z.log2_nonneg (Z.pos d)) as Hnb.
  set (a := Z.log2 n) in *. set (b := Z.log2 (Z.pos d)) in *.
  replace (k - 1)%Z with (a - Z.succ b)%Z by (unfold k; lia).
  rewrite Qpower_minus by discriminate.
  change 2 with (inject_Z 2).
  rewrite <- !Zpower_Qpower by lia.
  apply Qle_shift_div_r.
  - change 0 with (inject_Z 0). rewrite <- Zlt_Qlt. lia.
  - unfold Qle, Qmult, inject_Z. cbn [Qnum Qden].
    assert (0 < 2 ^ a)%Z by (apply Z.pow_pos_nonneg; lia).
    nia.
Qed.

Lemma Qabs_pos_lt (x : Q) : ~ x == 0 -> 0 < Qabs x.
Proof.
  intros H. destruct (Qlt_le_dec 0 (Qabs x)) as [L|L]; [exact L|].
  exfalso. apply H. pose proof (Qabs_nonneg x) as N.
  assert (Qabs x <= 0) as L' by exact L.
  apply Qabs_Qle_condition in L'. lra.
Qed.

(** The step between the binary64 numbers around [x] is at most
    [|x| * 2^-52], or the step [2^-1074] of the smallest ones. *)
Lemma last_place_le (x : Q) :
  ~ x == 0 -> 2 ^ Py.last_place x <= Qabs x * 2 ^ (-52) + 2 ^ (-1074).
Proof.
  intros Hx. unfold Py.last_place.
  pose proof (ilog2_le (Qabs x) (Qabs_pos_lt x Hx)) as Hk.
  pose proof (two_pow_pos (-52)) as H52. pose proof (two_pow_pos (-1074)) as H1074.
  pose proof (Qabs_nonneg x) as Hn.
  destruct (Z.max_spec (-1074) (Py.ilog2 (Qabs x) - 52)) as [[_ E]|[_ E]]; rewrite E.
  - replace (Py.ilog2 (Qabs x) - 52)%Z with (Py.ilog2 (Qabs x) + -52)%Z by lia.
    rewrite Qpower_plus by discriminate.
    assert (2 ^ Py.ilog2 (Qabs x) * 2 ^ (-52) <= Qabs x * 2 ^ (-52)) as Hm
      by (apply Qmult_le_compat_r; [exact Hk|apply Qlt_le_weak; exact H52]).
    lra.
  - assert (0 <= Qabs x * 2 ^ (-52)) as Hm
      by (apply Qmult_le_0_compat; [exact Hn|apply Qlt_le_weak; exact H52]).
    lra.
Qed.

(** Rounding to the nearest binary64 number moves a number by at most
    half a step. *)
Lemma nearest_half_step (x : Q) :
  ~ x == 0 -> Qabs (Py.nearest x - x) <= (1 # 2) * 2 ^ Py.last_place x.
Proof.
  intros Hx. unfold Py.nearest.
  destruct (Qeq_bool x 0) eqn:E; [apply Qeq_bool_iff in E; contradiction|].
  cbv zeta. set (e := Py.last_place x).
  pose proof (two_pow_pos e) as He.
  pose proof (round_close (x / 2 ^ e)) as Hr.
  assert (inject_Z (Py.round (x / 2 ^ e)) * 2 ^ e - x
          == (inject_Z (Py.round (x / 2 ^ e)) - x / 2 ^ e) * 2 ^ e) as Eq
    by (field; lra).
  rewrite Eq, Qabs_Qmult, (Qabs_pos (2 ^ e)) by lra.
  apply Qmult_le_compat_r; lra.
Qed.

Lemma nearest_close (x : Q) :
  Qabs (Py.nearest x - x) <= Qabs x * 2 ^ (-53) + 2 ^ (-1075).
Proof.
  destruct (Qeq_dec x 0) as [E|Hx].
  - unfold Py.nearest. rewrite (proj2 (Qeq_bool_iff x 0) E).
    pose proof (two_pow_pos (-53)). pose proof (two_pow_pos (-1075)).
    assert (Qabs (0 - x) == 0) as Ez by (rewrite E; reflexivity).
    assert (Qabs x == 0) as Ex by (rewrite E; reflexivity).
    rewrite Ez, Ex. lra.
  - pose proof (nearest_half_step x Hx) as Hh. pose proof (last_place_le x Hx) as Hl.
    assert (2 ^ (-53) == (1 # 2) * 2 ^ (-52)) as E53
      by (change (-53)%Z with (-1 + -52)%Z; rewrite Qpower_plus by discriminate; reflexivity).
    assert (2 ^ (-1075) == (1 # 2) * 2 ^ (-1074)) as E1075
      by (change (-1075)%Z with (-1 + -1074)%Z; rewrite Qpower_plus by discriminate; reflexivity).
    rewrite E53, E1075.
    assert (Qabs x * ((1 # 2) * 2 ^ (-52)) == (1 # 2) * (Qabs x * 2 ^ (-52))) as Er by ring.
    rewrite Er.
    set (n := Qabs x * 2 ^ (-52)) in *. set (b := 2 ^ (-1074)) in *.
    set (c := 2 ^ Py.last_place x) in *. lra.
Qed.

(** The same bound with numerals: [2^-53] and, for the smallest
    numbers, less than [2^-60]. *)
Lemma nearest_near (x : Q) :
  Qabs (Py.nearest x - x)
  <= Qabs x * (1 # 9007199254740992) + (1 # 1152921504606846976).
Proof.
  pose proof (nearest_close x) as H.
  assert (2 ^ (-1075) <= 2 ^ (-60)) as Hs by (apply Qpower_le_compat_l; [lia|lra]).
  assert (2 ^ (-60) == 1 # 1152921504606846976) as E60 by reflexivity.
  assert (2 ^ (-53) == 1 # 9007199254740992) as E53 by reflexivity.
  rewrite E53 in H. rewrite E60 in Hs. lra.
Qed.

Lemma fl_fin (x : Q) : Qabs x <= 2 ^ 1022 -> Py.fl x = Py.Fin (Py.nearest x).
Proof.
  intros Hx. unfold Py.fl. cbv zeta.
  destruct (Qle_bool (2 ^ 1024) (Qabs (Py.nearest x))) eqn:E; [|reflexivity].
  exfalso. apply Qle_bool_iff in E.
  pose proof (nearest_near x) as Hn.
  assert (2 ^ 1024 == 4 * 2 ^ 1022) as E4
    by (change 1024%Z with (2 + 1022)%Z; rewrite Qpower_plus by discriminate; reflexivity).
  assert (1 <= 2 ^ 1022) as H1
    by (change 1 with (2 ^ 0) at 1; apply Qpower_le_compat_l; [lia|lra]).
  rewrite E4 in E. set (T := 2 ^ 1022) in *.
  pose proof (Qabs_nonneg x) as Hx0.
  assert (Qabs (Py.nearest x) <= Qabs (Py.nearest x - x) + Qabs x) as Ht.
  { assert (Py.nearest x == (Py.nearest x - x) + x) as Es by ring.
    rewrite Es at 1. apply Qabs_triangle. }
  lra.
Qed.

(** An integer below [2^53] is a binary64 number. *)
Lemma nearest_int (x : Q) (z : Z) :
  x == inject_Z z -> (Z.abs z < 2 ^ 53)%Z -> Py.nearest x == inject_Z z.
Proof.
  intros Ex Hz. unfold Py.nearest.
  destruct (Qeq_bool x 0) eqn:E0.
  - apply Qeq_bool_iff in E0. rewrite <- Ex, E0. reflexivity.
  - apply Qeq_bool_neq in E0. cbv zeta.
    assert (Py.last_place x <= 0)%Z as He.
    { unfold Py.last_place.
      pose proof (ilog2_le (Qabs x) (Qabs_pos_lt x E0)) as Hk.
      assert (Qabs x < 2 ^ 53) as Hlt.
      { rewrite Ex. change 2 with (inject_Z 2). rewrite <- Zpower_Qpower by lia.
        apply Qabs_Qlt_condition. rewrite <- inject_Z_opp, <- !Zlt_Qlt. lia. }
      assert (Py.ilog2 (Qabs x) < 53)%Z
        by (apply (Qpower_lt_compat_l_inv 2); [lra|reflexivity]).
      lia. }
    set (e := Py.last_place x) in *.
    assert (2 ^ e == / inject_Z (2 ^ (- e))) as Ee.
    { rewrite Zpower_Qpower by lia. rewrite <- Qpower_opp. rewrite Z.opp_involutive. reflexivity. }
    assert (0 < inject_Z (2 ^ (- e))) as Hp.
    { change 0 with (inject_Z 0). rewrite <- Zlt_Qlt. apply Z.pow_pos_nonneg; lia. }
    assert (x / 2 ^ e == inject_Z (z * 2 ^ (- e))) as Ey.
    { rewrite Ee, Ex, inject_Z_mult. field. lra. }
    rewrite (round_comp _ _ Ey), round_inject, Ee, inject_Z_mult. field. lra.
Qed.

(** An integer below [2^53] is rounded to itself. *)
Lemma fl_int (x : Q) (z : Z) :
  x == inject_Z z -> (Z.abs z < 2 ^ 53)%Z ->
  exists q, Py.fl x = Py.Fin q /\ q == inject_Z z.
Proof.
  intros Ex Hz. exists (Py.nearest x). split; [|apply nearest_int; assumption].
  apply fl_fin. rewrite Ex.
  assert (2 ^ 53 <= 2 ^ 1022) as Hp by (apply Qpower_le_compat_l; [lia|lra]).
  assert (Qabs (inject_Z z) < 2 ^ 53) as Hlt.
  { change 2 with (inject_Z 2). rewrite <- Zpower_Qpower by lia.
    apply Qabs_Qlt_condition. rewrite <- inject_Z_opp, <- !Zlt_Qlt. lia. }
  lra.
Qed.

(** The rounding is that of IEEE 754 on the numbers of the examples,
    on numbers that overflow and on numbers below the smallest float. *)
Example fl_as_SpecFloat :
  forallb (fun p => fl_agrees (fst p) (snd p))
    [(7 # 100, 100); (55 # 100, 100); (1 # 256, 100); (1 # 91, 91); (-44, 100); (56, 100);
     (1 # 3, 3); (2 ^ 1000, 2 ^ 100); (2 ^ (-1000), 2 ^ (-80)); (- (1 # 10), 3 # 10);
     (12345678901234567 # 10, 7)]
  = true.
Proof. vm_compute. reflexivity. Qed.

(** *** The volume conversions *)

(** A number of magnitude at most [b], itself at most [2^1022], rounds
    to a finite float, [b * 2^-53 + 2^-60] away at most. *)
Lemma fl_near (x b : Q) :
  - b <= x -> x <= b -> b <= 2 ^ 1022 ->
  exists y, Py.fl x = Py.Fin y
            /\ x - (b * (1 # 9007199254740992) + (1 # 1152921504606846976)) <= y
            /\ y <= x + (b * (1 # 9007199254740992) + (1 # 1152921504606846976)).
Proof.
  intros Hlo Hhi Hb.
  assert (Qabs x <= b) as Ha by (apply Qabs_Qle_condition; split; assumption).
  exists (Py.nearest x). split; [apply fl_fin; lra|].
  pose proof (nearest_near x) as Hn. apply Qabs_Qle_condition in Hn. lra.
Qed.

Lemma small_le_huge (b : Q) : b <= 1024 -> b <= 2 ^ 1022.
Proof.
  intros H. assert (2 ^ 10 <= 2 ^ 1022) as Hp by (apply Qpower_le_compat_l; [lia|lra]).
  assert (2 ^ 10 == 1024) as E by reflexivity. rewrite E in Hp. lra.
Qed.

(** Dropping the fraction of a number that is not positive rounds it up. *)
Lemma trunc_nonpos (x : Q) : (x <= 0)%Q -> Py.trunc x = Qceiling x.
Proof.
  intros Hx. destruct x as [n d]. unfold Py.trunc, Qceiling, Qfloor, Qopp; simpl.
  assert (n <= 0)%Z as Hn by (unfold Qle in Hx; simpl in Hx; lia).
  replace n with (- - n)%Z at 1 by lia.
  rewrite Z.quot_opp_l by lia.
  rewrite Z.quot_div_nonneg by lia. reflexivity.
Qed.

Lemma trunc_nonneg (x : Q) : (0 <= x)%Q -> Py.trunc x = Qfloor x.
Proof.
  intros Hx. destruct x as [n d]. unfold Py.trunc, Qfloor. cbn [Qnum Qden].
  assert (0 <= n)%Z as Hn by (unfold Qle in Hx; simpl in Hx; lia).
  apply Z.quot_div_nonneg; lia.
Qed.

(** Dropping the fraction moves a number towards zero, by less than 1. *)
Lemma trunc_towards_zero (x : Q) :
  (x <= 0 -> x <= inject_Z (Py.trunc x) /\ inject_Z (Py.trunc x) < x + 1)
  /\ (0 <= x -> 0 <= inject_Z (Py.trunc x) /\ inject_Z (Py.trunc x) <= x
                /\ x - 1 < inject_Z (Py.trunc x)).
Proof.
  split; intros H.
  - rewrite trunc_nonpos by exact H.
    pose proof (Qle_ceiling x). pose proof (Qceiling_lt x) as Hc.
    rewrite inject_Z_minus in Hc. change (inject_Z 1) with 1 in Hc. split; lra.
  - rewrite trunc_nonneg by exact H.
    pose proof (Qfloor_le x). pose proof (Qlt_floor x) as Hc.
    rewrite inject_Z_plus in Hc. change (inject_Z 1) with 1 in Hc.
    pose proof (Qfloor_resp_le 0 x H) as Hf. change (Qfloor 0) with 0%Z in Hf.
    rewrite Zle_Qle in Hf. change (inject_Z 0) with 0 in Hf.
    repeat split; lra.
Qed.

(** The value sent for a level between 0 and 1: the level in hundredths
    less 100, its fraction dropped, the two roundings of the product and
    of the difference moving it by less than [3/10^14]. *)
Lemma storm_volume_near (level : Q) :
  0 <= level -> level <= 1 ->
  exists v, storm_volume level = Some v
            /\ (-100 <= v <= 0)%Z
            /\ level * 100 - 100 - (3 # 100000000000000) <= inject_Z v
            /\ inject_Z v < level * 100 - 100 + 1 + (3 # 100000000000000).
Proof.
  intros H0 H1. unfold storm_volume, Py.with_int.
  change (inject_Z 100) with 100.
  destruct (fl_near (level * 100) 100) as (P & -> & HP1 & HP2);
    [lra|lra|apply small_le_huge; lra|].
  destruct (fl_near (P - 100) 101) as (D & -> & HD1 & HD2);
    [lra|lra|apply small_le_huge; lra|].
  exists (Py.trunc D). split; [reflexivity|].
  destruct (trunc_towards_zero D) as [Hneg Hpos].
  assert (-101 < inject_Z (Py.trunc D) /\ inject_Z (Py.trunc D) < 1
          /\ level * 100 - 100 - (3 # 100000000000000) <= inject_Z (Py.trunc D)
          /\ inject_Z (Py.trunc D) < level * 100 - 100 + 1 + (3 # 100000000000000))
    as (Ha & Hb & Hc & Hd).
  { destruct (Qlt_le_dec 0 D) as [Hd|Hd].
    - destruct (Hpos (Qlt_le_weak _ _ Hd)) as (Hz & Hu & Hl). repeat split; lra.
    - destruct (Hneg Hd) as [Hl Hu]. repeat split; lra. }
  split; [|split; assumption].
  change (-101) with (inject_Z (-101)) in Ha. change 1 with (inject_Z 1) in Hb.
  rewrite <- Zlt_Qlt in Ha, Hb. lia.
Qed.

(** Clamping to [0, 1] brings a number no farther from a level of that
    range. *)
Lemma unit_clamp_near (f : Py.float) (L : Q) :
  0 <= L -> L <= 1 ->
  exists p, max_0 (min_1 f) = Py.Fin p /\ 0 <= p /\ p <= 1
            /\ forall y, f = Py.Fin y -> Qabs (p - L) <= Qabs (y - L).
Proof.
  intros H0 H1. unfold max_0, min_1, Py.lt_int, Py.gt_int.
  change (inject_Z 1) with 1. change (inject_Z 0) with 0.
  destruct f as [y| | |];
    [|exists 1; split; [reflexivity|]; split; [lra|]; split; [lra|]; intros y Hy; discriminate Hy
     |exists 0; split; [reflexivity|]; split; [lra|]; split; [lra|]; intros y Hy; discriminate Hy
     |exists 1; split; [reflexivity|]; split; [lra|]; split; [lra|]; intros y Hy; discriminate Hy].
  destruct (Qcompare_spec y 1) as [E|E|E].
  - exists 1. split; [reflexivity|]. split; [lra|]. split; [lra|].
    intros y' Hy. inversion Hy; subst y'. rewrite E. lra.
  - destruct (Qcompare_spec y 0) as [E'|E'|E'].
    + exists 0. split; [reflexivity|]. split; [lra|]. split; [lra|].
      intros y' Hy. inversion Hy; subst y'. rewrite E'. lra.
    + exists 0. split; [reflexivity|]. split; [lra|]. split; [lra|].
      intros y' Hy. inversion Hy; subst y'.
      rewrite (Qabs_neg (0 - L)), (Qabs_neg (y - L)) by lra. lra.
    + exists y. split; [reflexivity|]. split; [lra|]. split; [lra|].
      intros y' Hy. inversion Hy; subst y'. lra.
  - exists 1. split; [reflexivity|]. split; [lra|]. split; [lra|].
    intros y' Hy. inversion Hy; subst y'.
    rewrite (Qabs_pos (1 - L)), (Qabs_pos (y - L)) by lra. lra.
Qed.

(** [max(0.0, min(1.0, x))] is a number between 0 and 1, whatever the
    float [x]. *)
Lemma unit_clamp (f : Py.float) :
  exists p, max_0 (min_1 f) = Py.Fin p /\ 0 <= p /\ p <= 1.
Proof.
  destruct (unit_clamp_near f 0) as (p & Hp & H0 & H1 & _); [lra|lra|]. eauto.
Qed.

(** [(volume + 100) / 100] for a whole volume between -100 and 0. *)
Lemma plus_100_over_100_near (q : Q) (v : Z) :
  q == inject_Z v -> (-100 <= v <= 0)%Z ->
  exists y, plus_100_over_100 (Py.Fin q) = Py.Fin y
            /\ Qabs (y - (inject_Z v + 100) / 100) <= 2 # 10000000000000000.
Proof.
  intros Hq Hv. unfold plus_100_over_100, Py.with_int.
  change (inject_Z 100) with 100.
  assert (q + 100 == inject_Z (v + 100)) as En
    by (rewrite Hq, inject_Z_plus; reflexivity).
  pose proof (nearest_int (q + 100) (v + 100) En ltac:(lia)) as Hn.
  assert (0 <= inject_Z (v + 100) /\ inject_Z (v + 100) <= 100) as [Hn0 Hn1].
  { change 0 with (inject_Z 0). change 100 with (inject_Z 100).
    rewrite <- !Zle_Qle. lia. }
  rewrite fl_fin by (apply small_le_huge; rewrite En;
                     rewrite Qabs_pos by exact Hn0; lra).
  set (n := Py.nearest (q + 100)) in *.
  assert (0 <= n / 100 /\ n / 100 <= 1) as [Hy0 Hy1].
  { split; [apply Qle_shift_div_l|apply Qle_shift_div_r]; lra. }
  destruct (fl_near (n / 100) 1) as (y & -> & Hy2 & Hy3);
    [lra|lra|apply small_le_huge; lra|].
  exists y. split; [reflexivity|].
  assert ((inject_Z v + 100) / 100 == n / 100) as E
    by (rewrite Hn, inject_Z_plus; reflexivity).
  rewrite E. apply Qabs_Qle_condition. split; lra.
Qed.


(** A level of magnitude up to [10^300] has a volume: neither the
    product nor the difference is an infinity. *)
Lemma storm_volume_total (level : Q) :
  Qabs level <= 10 ^ 300 -> exists v, storm_volume level = Some v.
Proof.
  intros H. apply Qabs_Qle_condition in H.
  assert (1 <= 10 ^ 300) as H1
    by (change 1 with (10 ^ 0) at 1; apply Qpower_le_compat_l; [lia|lra]).
  assert (300 * 10 ^ 300 <= 2 ^ 1022) as H2
    by (apply Qle_bool_iff; vm_compute; reflexivity).
  set (B := 10 ^ 300) in *. set (T := 2 ^ 1022) in *.
  unfold storm_volume, Py.with_int. change (inject_Z 100) with 100.
  destruct (fl_near (level * 100) (100 * B)) as (P & -> & HP1 & HP2); [lra|lra|fold T; lra|].
  destruct (fl_near (P - 100) (300 * B)) as (D & -> & _); [lra|lra|fold T; lra|].
  eauto.
Qed.

Lemma volume_shown_near (level q : Q) (v : Z) :
  0 <= level -> level <= 1 ->
  storm_volume level = Some v -> q == inject_Z v ->
  exists p, volume_percent (Py.Fin q) = Py.Fin p
            /\ Qabs (p - level) < (1 # 100) + (1 # 1000000000000000).
Proof.
  intros H0 H1 Hv Hq.
  destruct (storm_volume_near level H0 H1) as (v' & Hv' & Hr & Hlo & Hhi).
  rewrite Hv in Hv'. inversion Hv'; subst v'. clear Hv'.
  destruct (plus_100_over_100_near q v Hq Hr) as (y & Hy & Hn).
  unfold volume_percent. rewrite Hy.
  destruct (unit_clamp_near (Py.Fin y) level H0 H1) as (p & Hp & _ & _ & Hc).
  exists p. split; [exact Hp|].
  specialize (Hc y eq_refl).
  apply Qle_lt_trans with (1 := Hc).
  assert ((inject_Z v + 100) / 100 == inject_Z v * (1 # 100) + 1) as E by field.
  rewrite E in Hn. apply Qabs_Qle_condition in Hn.
  apply Qabs_Qlt_condition. split; lra.
Qed.

Local Close Scope Q_scope.


Lemma clamp_unit_id (x : Q) : (0 <= x)%Q -> (x <= 1)%Q -> (clamp_unit x == x)%Q.
Proof.
  intros H0 H1. unfold clamp_unit.
  destruct (Qle_bool x 0) eqn:E0.
  - apply Qle_bool_iff in E0. lra.
  - destruct (Qle_bool 1 x) eqn:E1; [|reflexivity].
    apply Qle_bool_iff in E1. lra.
Qed.

(** C9, amended.  For every level [L] in [0,1], the volume sent for [L],
    read back as a normalized level, is within 1/100 of [clamp(L)] up to
    the rounding of the float operations: less than [1/100 + 10^-15]
    away. *)
Theorem volume_round_trip (L : Q) :
  (0 <= L)%Q -> (L <= 1)%Q ->
  exists v p,
    storm_volume L = Some v
    /\ volume_percent (Py.Fin (inject_Z v)) = Py.Fin p
    /\ (Qabs (p - clamp_unit L) < (1 # 100) + (1 # 1000000000000000))%Q.
Proof.
  intros H0 H1.
  destruct (storm_volume_near L H0 H1) as (v & Hv & _).
  destruct (volume_shown_near L (inject_Z v) v H0 H1 Hv (Qeq_refl _)) as (p & Hp & Hq).
  exists v, p. split; [exact Hv|]. split; [exact Hp|].
  rewrite (clamp_unit_id L H0 H1). exact Hq.
Qed.

(** C10.  On every snapshot whose processor state is neither 1 nor 2,
    be it [None] or absent, [state] is [OFF]. *)
Theorem state_off_unless_running (d : gmap string value) :
  eq_int (get d "processor_state") 1 = false ->
  eq_int (get d "processor_state") 2 = false ->
  state d = OFF.
Proof.
  intros H1 H2. unfold state. rewrite H1, H2.
  destruct (eq_str (get d "power_state") STATE_OFF); reflexivity.
Qed.

(** ** The claims on given worlds *)


(** The values sent for the floats nearest to 0.07 and to 0.55, whose
    hundredfold is rounded to just above 7 and 55, and the value of the
    first revision for the float nearest to 1/91. *)
Example storm_volume_on_floats :
  storm_volume (Py.nearest (7 # 100)) = Some (-93)%Z
  /\ storm_volume (Py.nearest (55 # 100)) = Some (-44)%Z
  /\ Legacy.db_volume (Py.nearest (1 # 91)) = Some (-78)%Z.
Proof. repeat split; vm_compute; reflexivity. Qed.


(** C2 on [mixed_replies]: the volume line is dropped, the first power
    line is returned, the second stays unread. *)
Lemma send_query_correlates_mixed :
  exists s' l',
    send_query CMD_POWER_QUERY (connected mixed_replies)
    = (Ok (Some (Py.strip ("ssp.power.on" +:+ nl))), s')
    /\ sock s' = Some l' /\ inbox l' = [line 60 "ssp.power.off"]
    /\ wire s' = wire (connected mixed_replies) ++ [CMD_POWER_QUERY +:+ nl].
Proof.
  assert (Forall is_line (inbox mixed_replies)) as Hlines
      by (repeat constructor; discriminate).
  destruct (send_query_correlates CMD_POWER_QUERY (connected mixed_replies) mixed_replies
              eq_refl eq_refl Hlines) as [Hit _].
  apply (Hit [line 10 "ssp.vol.[-42]"] 50%Z ("ssp.power.on" +:+ nl) [line 60 "ssp.power.off"]).
  - reflexivity.
  - repeat constructor. simpl. lia.
  - reflexivity.
  - simpl. lia.
Defined.

(** C3 on a device that tells that it is on and running, and then
    falls silent: volume, mute and input are unknown. *)
Lemma update_survives_silence :
  let c := new_coordinator in
  let s := falls_silent in
  let s1 := snd (send_query CMD_POWER_QUERY s) in
  let s2 := status_logged c (snd (send_query CMD_PROC_STATE s1)) in
  let s3 := snd (send_query CMD_VOLUME_QUERY s2) in
  let s4 := snd (send_query CMD_MUTE_QUERY s3) in
  exists d c' s',
    _async_update_data (c, s) = (Ok d, (c', s'))
    /\ async_request_refresh (c, s)
       = (Ok tt, (set_last_update_success true (set_data (Some d) c'), s'))
    /\ d !! "available" = None
    /\ (fst (send_query CMD_POWER_QUERY s) = Ok None -> d !! "power_state" = Some VNone)
    /\ (fst (send_query CMD_PROC_STATE s1) = Ok None ->
        d !! "processor_state" = Some VNone /\ d !! "volume" = Some VNone
        /\ d !! "muted" = Some VNone /\ d !! "input" = Some VNone)
    /\ (d !! "processor_state" = Some (VInt 2) ->
        (fst (send_query CMD_VOLUME_QUERY s2) = Ok None -> d !! "volume" = Some VNone)
        /\ (fst (send_query CMD_MUTE_QUERY s3) = Ok None -> d !! "muted" = Some VNone)
        /\ (fst (send_query CMD_INPUT_QUERY s4) = Ok None -> d !! "input" = Some VNone)).
Proof.
  apply (update_survives_transport_failure new_coordinator falls_silent).
  split; [intros l H; inversion H; reflexivity|constructor].
Defined.

(** The snapshot of that cycle, and the one of a device that nobody
    reaches. *)
Example snapshot_after_silence :
  snapshot (_async_update_data (new_coordinator, falls_silent))
  = <["input_list" := VInputs builtin_inputs]>
      (<["input" := VNone]>
         (<["muted" := VNone]>
            (<["volume" := VNone]> (basic_states (Some STATE_ON) (Some 2%Z)))))
  /\ snapshot (_async_update_data (new_coordinator, unconnected []))
     = <["input_list" := VInputs builtin_inputs]>
         (<["input" := VNone]>
            (<["muted" := VNone]>
               (<["volume" := VNone]> (basic_states None None)))).
Proof. split; vm_compute; reflexivity. Qed.

(** C3 fails as stated: with nobody to reach, the snapshot has no
    ["available"] entry, and the refresh counts as a success. *)
Lemma update_marks_nothing :
  let r := _async_update_data (new_coordinator, unconnected []) in
  let d := snapshot r in
  fst r = Ok d
  /\ d !! "available" = None
  /\ d !! "available" <> Some (VBool false)
  /\ d !! "power_state" = Some VNone
  /\ d !! "processor_state" = Some VNone
  /\ last_update_success
       (fst (snd (async_request_refresh (new_coordinator, unconnected [])))) = true.
Proof.
  cbv zeta.
  split; [vm_compute; reflexivity|].
  split; [vm_compute; reflexivity|].
  split; [intros H; vm_compute in H; discriminate H|].
  split; [vm_compute; reflexivity|].
  split; vm_compute; reflexivity.
Qed.

(** C4 on a device that initializes after it has played: nothing is
    left of the earlier snapshot. *)
Lemma power_off_fields_reset_initializing :
  let d := snapshot (_async_update_data (set_data (Some playing) new_coordinator, initializing)) in
  d !! "volume" = Some VNone /\ d !! "muted" = Some VNone /\ d !! "input" = Some VNone.
Proof.
  apply (power_off_fields_reset (set_data (Some playing) new_coordinator, initializing)
           (snd (_async_update_data (set_data (Some playing) new_coordinator, initializing)))).
  - vm_compute. reflexivity.
  - vm_compute. reflexivity.
Defined.


Example waking_third_attempt :
  let h2 := burst_started (snd (on_api (set_power true) (new_coordinator, waking))) in
  fst (handle_power_command async_request_refresh true (new_coordinator, waking)) = Ok tt
  /\ snd (handle_power_command async_request_refresh true (new_coordinator, waking))
     = settled (powered_on_after 2) (polls async_request_refresh 3 h2)
  /\ clock (snd (polls async_request_refresh 3 h2)) = 6190%Z.
Proof. vm_compute. auto. Qed.

(** C6 on [refused_once]: the refused attempt ends the call. *)
Lemma send_query_gives_up_refused_once :
  fst (send_query CMD_POWER_QUERY refused_once) = Ok None
  /\ wire (snd (send_query CMD_POWER_QUERY refused_once)) = wire refused_once
  /\ sock (snd (send_query CMD_POWER_QUERY refused_once)) = None
  /\ dials (snd (send_query CMD_POWER_QUERY refused_once))
     = [Accepted 0 (Link [line 300 "ssp.power.on"] [] true)].
Proof.
  destruct (send_query_connects_once CMD_POWER_QUERY refused_once eq_refl) as [_ H].
  apply (H (Refused 0)).
  - reflexivity.
  - exact I.
Defined.

(** C6 fails as stated: the call makes one attempt and returns none,
    though the attempt it leaves to the next call would have opened a
    connection and brought the answer. *)
Lemma send_query_no_retry :
  fst (send_query CMD_POWER_QUERY refused_once) = Ok None
  /\ dials (snd (send_query CMD_POWER_QUERY refused_once))
     = [Accepted 0 (Link [line 300 "ssp.power.on"] [] true)]
  /\ fst (send_query CMD_POWER_QUERY (snd (send_query CMD_POWER_QUERY refused_once)))
     = Ok (Some "ssp.power.on").
Proof.
  split; [vm_compute; reflexivity|].
  split; vm_compute; reflexivity.
Qed.

(** On [prompt_burst]: the three lines are gone when [connect]
    returns. *)
Lemma connect_discards_prompt_burst :
  exists s' l',
    connect (unconnected [Accepted 0 prompt_burst]) = (Ok true, s')
    /\ sock s' = Some l' /\ inbox l' `suffix_of` [line 900 "ssp.power.on"]
    /\ (forall x, fst (send_query CMD_POWER_QUERY s') = Ok (Some x) ->
                  exists t raw, In (Line t raw) [line 900 "ssp.power.on"] /\ x = Py.strip raw)
    /\ (forall x, fst (send_query CMD_POWER_QUERY (unconnected [Accepted 0 prompt_burst]))
                  = Ok (Some x) ->
                  exists t raw, In (Line t raw) [line 900 "ssp.power.on"] /\ x = Py.strip raw).
Proof.
  apply (connect_discards_burst CMD_POWER_QUERY (unconnected [Accepted 0 prompt_burst]) 0%Z
           prompt_burst []
           [line 0 "ssp.power.off"; line 0 "ssp.vol.[-30]"; line 0 "ssp.mute.off"]
           [line 900 "ssp.power.on"]).
  - reflexivity.
  - reflexivity.
  - lia.
  - reflexivity.
  - simpl. repeat split; try discriminate; lia.
Defined.

(** C7 does not hold of the code.  [_clear_initial_responses] is to
    read for 2 seconds, as its comment says, but leaves its loop at the
    first read that times out after 0.1 s, where the loop of
    [send_query] goes on.  So a status line pushed 0.15 s after the
    connection has opened is still unread when [connect] returns, 0.1 s
    after it has opened; a command is sent, and the query made 0.5 s
    later returns that line, which arrived before the query was
    written. *)
Theorem connect_leaves_slow_burst :
  fst (connect slow_burst) = Ok true
  /\ clock (snd (connect slow_burst)) = 100%Z
  /\ sock (snd (connect slow_burst))
     = Some (Link [line 150 "ssp.power.off"; line 700 "ssp.power.on"] [] true)
  /\ (let s2 := snd ((volume_up ;; sleep 500) slow_burst) in
      clock s2 = 600%Z
      /\ wire s2 = [CMD_VOLUME_UP +:+ nl]
      /\ fst (send_query CMD_POWER_QUERY s2) = Ok (Some "ssp.power.off")
      /\ fst (get_power_state s2) = Ok (Some STATE_OFF)).
Proof.
  split; [vm_compute; reflexivity|].
  split; [vm_compute; reflexivity|].
  split; [vm_compute; reflexivity|].
  cbv zeta.
  split; [vm_compute; reflexivity|].
  split; [vm_compute; reflexivity|].
  split; vm_compute; reflexivity.
Qed.

(** C8 does not hold of the code.  On a device whose selected input is
    number 7, the first poll cycle writes the five queries and never the
    query for the inputs; the list it hands out is the one written in
    [_get_input_list], in which input 7 has no name. *)
Theorem input_list_not_from_device :
  let r := _async_update_data (new_coordinator, other_inputs) in
  let d := snapshot r in
  fst r = Ok d
  /\ wire (snd (snd r)) = basic_queries ++ further_queries
  /\ ~ In (CMD_INPUT_LIST +:+ nl) (wire (snd (snd r)))
  /\ d !! "input" = Some (VInt 7)
  /\ d !! "input_list" = Some (VInputs builtin_inputs)
  /\ source d = None.
Proof.
  cbv zeta.
  split; [vm_compute; reflexivity|].
  split; [vm_compute; reflexivity|].
  split.
  { vm_compute. intros H. repeat (destruct H as [H|H]; [discriminate H|]). exact H. }
  split; [vm_compute; reflexivity|].
  split; vm_compute; reflexivity.
Qed.

(** C9 at level 0.58. *)
Lemma volume_round_trip_058 :
  exists v p,
    storm_volume (58 # 100) = Some v
    /\ volume_percent (Py.Fin (inject_Z v)) = Py.Fin p
    /\ (Qabs (p - clamp_unit (58 # 100)) < (1 # 100) + (1 # 1000000000000000))%Q.
Proof.
  apply (volume_round_trip (58 # 100)).
  - unfold Qle. simpl. lia.
  - unfold Qle. simpl. lia.
Defined.

(** C9 fails as stated: for the float 0.55 the code sends -44, which
    reads back as the float 0.56, more than 1/100 away. *)
Lemma volume_round_trip_over_step :
  let L := Py.nearest (55 # 100) in
  (0 <= L)%Q /\ (L <= 1)%Q
  /\ storm_volume L = Some (-44)%Z
  /\ exists p, volume_percent (Py.Fin (inject_Z (-44))) = Py.Fin p
               /\ (1 # 100 < Qabs (p - clamp_unit L))%Q.
Proof.
  cbv zeta.
  split; [vm_compute; discriminate|]. split; [vm_compute; discriminate|].
  split; [vm_compute; reflexivity|].
  eexists. split; [vm_compute; reflexivity|]. vm_compute. reflexivity.
Qed.

(** C10 on a snapshot in which both states are unknown. *)
Lemma state_off_unknown : state (basic_states None None) = OFF.
Proof.
  apply (state_off_unless_running (basic_states None None)).
  - reflexivity.
  - reflexivity.
Defined.

(** * Further properties *)

(** ** The time a query takes *)

Lemma query_turn_clock p s :
  (clock s <= clock (snd (query_turn p s)) <= clock s + 200)%Z.
Proof.
  unfold query_turn, except_timeout, try_except, bind, readline.
  destruct (sock s) as [l|]; [|simpl; lia].
  destruct (inbox l) as [|[t raw|t|t] rest]; simpl; try lia;
    destruct (Z.ltb_spec t (clock s + 200)); simpl; try lia.
  destruct raw as [|c raw]; simpl; [lia|].
  unfold logger, modify.
  match goal with |- context [Py.startswith ?a ?b] => destruct (Py.startswith a b) end;
    simpl; lia.
Qed.

Lemma query_loop_clock p start_time : forall n s,
  (clock s < start_time + 3200)%Z ->
  (clock s <= clock (snd (while_ n (within start_time 3000) (query_turn p) s))
   < start_time + 3200)%Z.
Proof.
  induction n as [|n IH]; intros s Hs; [simpl; lia|].
  cbn [while_]. rewrite (bind_ok _ _ _ _ _ (within_run start_time 3000 s)).
  destruct (Z.ltb_spec (clock s - start_time) 3000) as [Hlt|Hge]; [|simpl; lia].
  pose proof (query_turn_clock p s) as Hc.
  unfold bind. destruct (query_turn p s) as [[[| |x]|e] s1]; simpl in *; try lia.
  specialize (IH s1 ltac:(lia)). lia.
Qed.

Lemma failed_then_clock {A} (a : A) msg s :
  clock (snd ((logger ERROR msg ;; disconnect ;; ret a) s)) = clock s.
Proof.
  unfold disconnect, bind, gets, close_wait, ret, raise, logger, modify. simpl.
  destruct (sock s) as [l|]; [destruct (shut l)|]; reflexivity.
Qed.

Lemma write_drain_clock d s : clock (snd (write_drain d s)) = clock s.
Proof.
  unfold write_drain. destruct (sock s) as [l|]; [|reflexivity].
  destruct (tx l) as [|[|] x]; reflexivity.
Qed.

(** A query on an open connection ends less than 3.2 s after it has
    begun: the 3 s of the loop and the 0.2 s of the read then under way. *)
Theorem send_query_deadline (command : string) (s : net) (l : link) :
  sock s = Some l ->
  (clock s <= clock (snd (send_query command s)) < clock s + 3200)%Z.
Proof.
  intros Hs. unfold send_query.
  rewrite (try_bind _ _ _ _ _ _ (ensure_writer_up s l Hs)). simpl negb. cbv iota.
  set (s1 := add_log (DEBUG, "Sending query: " +:+ command) s).
  rewrite (try_bind _ _ _ s tt s1) by reflexivity.
  pose proof (write_drain_clock (command +:+ nl) s1) as Hw.
  change (clock s1) with (clock s) in Hw.
  destruct (write_drain (command +:+ nl) s1) as [[[]|e] s2] eqn:Ew; simpl in Hw.
  - rewrite (try_bind _ _ _ _ _ _ Ew).
    rewrite (try_bind _ _ _ s2 (clock s2) s2) by reflexivity.
    rewrite (try_bind _ _ _ s2 (query_fuel s2) s2) by reflexivity.
    pose proof (query_loop_clock (_get_expected_response_prefix command) (clock s2)
                  (query_fuel s2) s2 ltac:(lia)) as Hl.
    destruct (while_ (query_fuel s2) _ _ s2) as [[[x|]|e] s3] eqn:El; simpl in Hl.
    + rewrite (try_bind _ _ _ _ _ _ El). simpl. lia.
    + rewrite (try_bind _ _ _ _ _ _ El). simpl. lia.
    + rewrite (try_bind_raised _ _ _ _ _ _ El). rewrite failed_then_clock. lia.
  - rewrite (try_bind_raised _ _ _ _ _ _ Ew). rewrite failed_then_clock. lia.
Qed.

Lemma send_query_deadline_mixed :
  (clock (connected mixed_replies)
   <= clock (snd (send_query CMD_POWER_QUERY (connected mixed_replies)))
   < clock (connected mixed_replies) + 3200)%Z.
Proof. apply (send_query_deadline CMD_POWER_QUERY (connected mixed_replies) mixed_replies eq_refl). Defined.

(** ** coordinator.py *)

(** Without an answer to the power query, the older coordinator raises
    [UpdateFailed]: no snapshot is made. *)
Theorem older_update_needs_power (TIMEOUT : Z) (decode : string -> option string) (s : net) :
  (forall r, fst (CoordinatorPy.send_command TIMEOUT decode "POWER?" s) = Ok r ->
             CoordinatorPy.answered r = false) ->
  fst (CoordinatorPy._async_update_data TIMEOUT decode s) = Raised UpdateFailed.
Proof.
  intros H. unfold CoordinatorPy._async_update_data, try_except, bind.
  destruct (CoordinatorPy.send_command TIMEOUT decode "POWER?" s) as [[[r|]|e] s1];
    simpl in *; try reflexivity.
  specialize (H (Some r) eq_refl). simpl in H. rewrite H. reflexivity.
Qed.

Lemma older_update_unreachable :
  fst (CoordinatorPy._async_update_data 5000 decode_ascii (unconnected [])) = Raised UpdateFailed.
Proof.
  apply (older_update_needs_power 5000 decode_ascii (unconnected [])).
  intros r H. vm_compute in H. inversion H. reflexivity.
Defined.

(** Whatever the older coordinator raises is an [UpdateFailed], and a
    snapshot it returns says that the device is available. *)
Theorem older_update_outcome (TIMEOUT : Z) (decode : string -> option string) (s : net) :
  match fst (CoordinatorPy._async_update_data TIMEOUT decode s) with
  | Ok d => d !! "available" = Some (VBool true)
  | Raised e => e = UpdateFailed
  end.
Proof.
  unfold CoordinatorPy._async_update_data, try_except.
  match goal with |- context [match ?m s with _ => _ end] =>
    assert (forall d, fst (m s) = Ok d -> d !! "available" = Some (VBool true)) as H;
    [|destruct (m s) as [[d|e] s1]; simpl; [apply H; reflexivity|reflexivity]] end.
  intros d. unfold bind.
  destruct (CoordinatorPy.send_command TIMEOUT decode "POWER?" s) as [[[r|]|e] s1]; simpl;
    try discriminate.
  destruct (Py.truthy r); [|discriminate].
  destruct (Py.contains "ON" (Py.uppercase r)).
  - destruct (CoordinatorPy.send_command TIMEOUT decode "VOLUME?" s1) as [[v|e] s2]; simpl;
      [|discriminate].
    destruct (CoordinatorPy.send_command TIMEOUT decode "MUTE?" s2) as [[m|e] s3]; simpl;
      [|discriminate].
    destruct (CoordinatorPy.send_command TIMEOUT decode "INPUT?" s3) as [[i|e] s4]; simpl;
      [|discriminate].
    destruct (CoordinatorPy.send_command TIMEOUT decode "PRESET?" s4) as [[p|e] s5]; simpl;
      [|discriminate].
    intros H; inversion H; subst d; clear H.
    repeat case_match; rewrite ?lookup_insert_ne by discriminate; apply lookup_insert_eq.
  - intros H; inversion H; subst d; clear H.
    rewrite !lookup_insert_ne by discriminate. apply lookup_insert_eq.
Qed.

(** ** The time a connection attempt takes *)

Lemma clear_turn_clock s : (clock (snd (clear_turn s)) <= clock s + 100)%Z.
Proof.
  unfold clear_turn, except_timeout, try_except, bind, readline.
  destruct (sock s) as [l|]; [|simpl; lia].
  destruct (inbox l) as [|[t raw|t|t] rest]; simpl; try lia;
    destruct (Z.ltb_spec t (clock s + 100)); simpl; try lia.
  destruct raw as [|c raw]; simpl; lia.
Qed.

Lemma clear_loop_clock start_time : forall n s,
  (clock s < start_time + 2100)%Z ->
  (clock (snd (while_ n (within start_time 2000) clear_turn s)) < start_time + 2100)%Z.
Proof.
  induction n as [|n IH]; intros s Hs; [simpl; lia|].
  cbn [while_]. rewrite (bind_ok _ _ _ _ _ (within_run start_time 2000 s)).
  destruct (Z.ltb_spec (clock s - start_time) 2000) as [Hlt|Hge]; [|simpl; lia].
  pose proof (clear_turn_clock s) as Hc.
  unfold bind. destruct (clear_turn s) as [[[| |x]|e] s1]; simpl in *; try lia.
  apply IH. lia.
Qed.

Lemma clear_clock s : (clock (snd (_clear_initial_responses s)) < clock s + 2100)%Z.
Proof.
  unfold _clear_initial_responses, try_except.
  rewrite (bind_ok _ _ s (clock s) s) by reflexivity.
  rewrite (bind_ok _ _ s (pending s) s) by reflexivity.
  pose proof (clear_loop_clock (clock s) (S (pending s)) s ltac:(lia)) as Hl.
  unfold bind. destruct (while_ _ _ _ s) as [[r|e] s1]; simpl in *; lia.
Qed.

Lemma open_connection_clock timeout s :
  (0 <= timeout)%Z ->
  (clock (snd (open_connection timeout s)) <= clock s + timeout)%Z.
Proof.
  intros Ht. unfold open_connection.
  destruct (dials s) as [|[dt|dt l] ds]; simpl; [lia| |];
    destruct (Z.ltb_spec dt timeout); simpl; lia.
Qed.

(** [connect] ends less than 12.1 s after it has begun: the 10 s of the
    connection attempt, the 2 s of the loop that reads the first lines
    and the 0.1 s of the read then under way. *)
Theorem connect_deadline (s : net) :
  (clock (snd (connect s)) < clock s + 12100)%Z.
Proof.
  unfold connect.
  set (s0 := add_log (INFO, "Connecting to StormAudio") s).
  rewrite (try_bind _ _ _ s tt s0) by reflexivity.
  pose proof (open_connection_clock 10000 s0 ltac:(lia)) as Ho.
  change (clock s0) with (clock s) in Ho.
  destruct (open_connection 10000 s0) as [[l|e] s1] eqn:Eo; simpl in Ho.
  - rewrite (try_bind _ _ _ _ _ _ Eo).
    rewrite (try_bind _ _ _ s1 tt (set_sock (Some l) s1)) by reflexivity.
    pose proof (clear_clock (set_sock (Some l) s1)) as Hc.
    change (clock (set_sock (Some l) s1)) with (clock s1) in Hc.
    unfold try_except, bind, logger, modify.
    destruct (_clear_initial_responses (set_sock (Some l) s1)) as [[[]|e] s2];
      simpl in *; lia.
  - rewrite (try_bind_raised _ _ _ _ _ _ Eo). simpl. lia.
Qed.

(** ** Commands *)

(** A command for a device that cannot be reached: one connection
    attempt is made, nothing is written, the result is [False]. *)
Theorem send_command_unreachable (command : string) (s : net) :
  sock s = None ->
  match dials s with [] => True | d :: _ => dial_fails d end ->
  fst (send_command command s) = Ok false
  /\ wire (snd (send_command command s)) = wire s
  /\ sock (snd (send_command command s)) = None
  /\ dials (snd (send_command command s)) = tl (dials s).
Proof.
  intros Hs Hd. destruct (connect_fails s Hd) as (s' & Hc & Hs' & Hw & Hdl).
  assert (ensure_writer s = (Ok false, s')) as He
      by (unfold ensure_writer, bind, gets; rewrite Hs; exact Hc).
  unfold send_command. rewrite (try_bind _ _ _ _ _ _ He). simpl.
  rewrite Hs', Hs. auto.
Qed.

Lemma send_command_unreachable_refused :
  fst (send_command CMD_MUTE_ON refused_once) = Ok false
  /\ wire (snd (send_command CMD_MUTE_ON refused_once)) = wire refused_once
  /\ sock (snd (send_command CMD_MUTE_ON refused_once)) = None
  /\ dials (snd (send_command CMD_MUTE_ON refused_once)) = tl (dials refused_once).
Proof.
  apply (send_command_unreachable CMD_MUTE_ON refused_once).
  - reflexivity.
  - exact I.
Defined.

(** ** Closing *)

(** [disconnect] that returns has released the socket; called again, it
    does nothing. *)
Theorem disconnect_idempotent (s : net) :
  fst (disconnect s) = Ok tt ->
  sock (snd (disconnect s)) = None
  /\ disconnect (snd (disconnect s)) = (Ok tt, snd (disconnect s)).
Proof.
  unfold disconnect, bind, gets, close_wait, modify, ret, raise.
  destruct (sock s) as [l|] eqn:E; simpl.
  - destruct (shut l); simpl; [|discriminate]. intros _. auto.
  - rewrite E. auto.
Qed.

Lemma disconnect_idempotent_silent :
  sock (snd (disconnect (connected silent))) = None
  /\ disconnect (snd (disconnect (connected silent)))
     = (Ok tt, snd (disconnect (connected silent))).
Proof. apply (disconnect_idempotent (connected silent)). reflexivity. Defined.

Lemma query_turn_eof p s l t rest :
  sock s = Some l -> inbox l = Eof t :: rest -> (t < clock s + 200)%Z ->
  query_turn p s = (Ok Break, set_clock (Z.max (clock s) t) s).
Proof.
  intros Hs Hl Ht. unfold query_turn, except_timeout, try_except, bind, readline.
  rewrite Hs, Hl. destruct (Z.ltb_spec t (clock s + 200)); [reflexivity|lia].
Qed.

Lemma query_turn_lost p s l t rest :
  sock s = Some l -> inbox l = Lost t :: rest -> (t < clock s + 200)%Z ->
  query_turn p s = (Raised ConnectionError, set_clock (Z.max (clock s) t) s).
Proof.
  intros Hs Hl Ht. unfold query_turn, except_timeout, try_except, bind, readline.
  rewrite Hs, Hl. destruct (Z.ltb_spec t (clock s + 200)); [reflexivity|lia].
Qed.

(** When the peer has closed the stream, [readline] returns the empty
    bytes: the query ends at once without a result, no error is raised,
    and the socket is kept. *)
Theorem send_query_after_peer_close (command : string) (s : net) (l : link) t rest :
  sock s = Some l -> hd true (tx l) = true ->
  inbox l = Eof t :: rest -> (t < clock s + 200)%Z ->
  exists l',
    fst (send_query command s) = Ok None
    /\ sock (snd (send_query command s)) = Some l'
    /\ inbox l' = inbox l
    /\ wire (snd (send_query command s)) = wire s ++ [command +:+ nl].
Proof.
  intros Hs Ht Hl Hnow.
  destruct (send_query_started command s l Hs Ht)
    as (s2 & l2 & Hs2 & Hin & Hclock & Hwire & Hdials & Hrun).
  assert (while_ (length (inbox l) + 16) (within (clock s) 3000)
            (query_turn (_get_expected_response_prefix command)) s2
          = (Ok None, set_clock (Z.max (clock s2) t) s2)) as Hloop.
  { rewrite Hl. cbn [length Nat.add while_].
    rewrite (bind_ok _ _ _ _ _ (within_run (clock s) 3000 s2)).
    destruct (Z.ltb_spec (clock s2 - clock s) 3000); [|lia].
    rewrite Hl in Hin.
    rewrite (bind_ok _ _ _ _ _ (query_turn_eof _ s2 l2 t rest Hs2 Hin ltac:(lia))).
    reflexivity. }
  rewrite Hrun. unfold try_except. rewrite (bind_ok _ _ _ _ _ Hloop).
  exists l2. simpl. auto.
Qed.

Lemma send_query_after_peer_close_hung_up :
  exists l',
    fst (send_query CMD_POWER_QUERY (connected hung_up)) = Ok None
    /\ sock (snd (send_query CMD_POWER_QUERY (connected hung_up))) = Some l'
    /\ inbox l' = inbox hung_up
    /\ wire (snd (send_query CMD_POWER_QUERY (connected hung_up)))
       = wire (connected hung_up) ++ [CMD_POWER_QUERY +:+ nl].
Proof.
  apply (send_query_after_peer_close CMD_POWER_QUERY (connected hung_up) hung_up 50%Z []).
  - reflexivity.
  - reflexivity.
  - reflexivity.
  - simpl. lia.
Defined.

(** When the connection breaks while a query waits, the query returns
    no result and the socket is released: the next call connects anew. *)
Theorem send_query_releases_broken_connection
    (command : string) (s : net) (l : link) t rest :
  sock s = Some l -> hd true (tx l) = true -> shut l = true ->
  inbox l = Lost t :: rest -> (t < clock s + 200)%Z ->
  fst (send_query command s) = Ok None
  /\ sock (snd (send_query command s)) = None
  /\ wire (snd (send_query command s)) = wire s ++ [command +:+ nl].
Proof.
  intros Hs Ht Hsh Hl Hnow. unfold send_query.
  rewrite (try_bind _ _ _ _ _ _ (ensure_writer_up s l Hs)). simpl negb. cbv iota.
  set (s1 := add_log (DEBUG, "Sending query: " +:+ command) s).
  rewrite (try_bind _ _ _ s tt s1) by reflexivity.
  assert (exists l2, write_drain (command +:+ nl) s1
                     = (Ok tt, add_wire (command +:+ nl) (set_sock (Some l2) s1))
                     /\ inbox l2 = inbox l /\ shut l2 = shut l) as (l2 & Hw & Hi2 & Hsh2).
  { unfold write_drain. change (sock s1) with (sock s). rewrite Hs.
    destruct (tx l) as [|[|] x] eqn:Etx; simpl in Ht; try discriminate.
    - exists l. split; [|auto]. unfold add_wire, set_sock. simpl. rewrite Hs.
      destruct s; reflexivity.
    - exists (set_tx x l). auto. }
  rewrite (try_bind _ _ _ _ _ _ Hw).
  set (s2 := add_wire (command +:+ nl) (set_sock (Some l2) s1)) in *.
  rewrite (try_bind _ _ _ s2 (clock s2) s2) by reflexivity.
  rewrite (try_bind _ _ _ s2 (query_fuel s2) s2) by reflexivity.
  assert (while_ (query_fuel s2) (within (clock s2) 3000)
            (query_turn (_get_expected_response_prefix command)) s2
          = (Raised ConnectionError, set_clock (Z.max (clock s2) t) s2)) as Hloop.
  { unfold query_fuel. change (pending s2) with (length (inbox l2)). rewrite Hi2, Hl.
    cbn [length Nat.add while_].
    rewrite (bind_ok _ _ _ _ _ (within_run (clock s2) 3000 s2)).
    destruct (Z.ltb_spec (clock s2 - clock s2) 3000); [|lia].
    rewrite Hl in Hi2.
    rewrite (bind_raised _ _ _ _ _
               (query_turn_lost _ s2 l2 t rest eq_refl Hi2 ltac:(change (clock s2) with (clock s); lia))).
    reflexivity. }
  rewrite (try_bind_raised _ _ _ _ _ _ Hloop).
  unfold disconnect, bind, gets, close_wait, ret, raise, logger, modify. simpl.
  rewrite Hsh2, Hsh. simpl. auto.
Qed.

Lemma send_query_releases_broken :
  fst (send_query CMD_POWER_QUERY (connected broken)) = Ok None
  /\ sock (snd (send_query CMD_POWER_QUERY (connected broken))) = None
  /\ wire (snd (send_query CMD_POWER_QUERY (connected broken)))
     = wire (connected broken) ++ [CMD_POWER_QUERY +:+ nl].
Proof.
  apply (send_query_releases_broken_connection CMD_POWER_QUERY (connected broken) broken 50%Z []).
  - reflexivity.
  - reflexivity.
  - reflexivity.
  - reflexivity.
  - simpl. lia.
Defined.

(** ** Decoding *)

Lemma max_min_range (x : Py.float) :
  exists q, max_100 (min_0 x) = Py.Fin q /\ (-100 <= q)%Q /\ (q <= 0)%Q.
Proof.
  unfold max_100, min_0, Py.lt_int, Py.gt_int.
  destruct x as [q| | |]; simpl.
  - destruct (Qcompare_spec q (inject_Z 0)) as [He|Hlt|Hgt].
    + simpl. exists 0%Q. split; [reflexivity|]. split; lra.
    + destruct (Qcompare_spec q (inject_Z (-100))) as [He'|Hlt'|Hgt'].
      * exists (-100 # 1)%Q. split; [reflexivity|]. split; lra.
      * exists (-100 # 1)%Q. split; [reflexivity|]. split; lra.
      * exists q. split; [reflexivity|]. unfold inject_Z in *. split; lra.
    + simpl. exists 0%Q. split; [reflexivity|]. split; lra.
  - exists 0%Q. split; [reflexivity|]. split; lra.
  - exists (-100 # 1)%Q. split; [reflexivity|]. split; lra.
  - exists 0%Q. split; [reflexivity|]. split; lra.
Qed.

(** Whatever the device answers, a volume that [get_volume] returns is
    a number between -100 and 0. *)
Theorem get_volume_in_range (s : net) (x : Py.float) :
  fst (get_volume s) = Ok (Some x) ->
  exists q, x = Py.Fin q /\ (-100 <= q)%Q /\ (q <= 0)%Q.
Proof.
  unfold get_volume, bind.
  destruct (send_query CMD_VOLUME_QUERY s) as [[[r|]|e] s1]; simpl; try discriminate.
  destruct (Py.truthy r && Py.contains "ssp.vol." r); [|discriminate].
  destruct (bracketed r) as [volume_str|]; [|discriminate].
  destruct (Py.float_of volume_str) as [volume|]; [|discriminate].
  simpl. intros H. inversion H.
  destruct (max_min_range volume) as (q & Hq & Hr). eauto.
Qed.

Lemma get_volume_in_range_loud :
  exists q, Py.Fin 0 = Py.Fin q /\ (-100 <= q)%Q /\ (q <= 0)%Q.
Proof. apply (get_volume_in_range loud_reply (Py.Fin 0)). vm_compute. reflexivity. Defined.

(** The volume the media player shows lies between 0 and 1. *)
Theorem volume_level_unit (data : gmap string value) (x : Py.float) :
  volume_level data = Some (Some x) ->
  exists p, x = Py.Fin p /\ (0 <= p)%Q /\ (p <= 1)%Q.
Proof.
  assert (forall y, exists p, volume_percent y = Py.Fin p /\ (0 <= p)%Q /\ (p <= 1)%Q) as Hv
      by (intros y; apply unit_clamp).
  unfold volume_level.
  destruct (get data "volume") as [|v|z|y|b|l]; simpl; try discriminate;
    intros H; inversion H; apply Hv.
Qed.

(** On [playing], at -40 dB: the float 0.6. *)
Lemma volume_level_unit_playing :
  exists p, Py.Fin (5404319552844595 # 9007199254740992) = Py.Fin p
            /\ (0 <= p)%Q /\ (p <= 1)%Q.
Proof.
  apply (volume_level_unit playing (Py.Fin (5404319552844595 # 9007199254740992))).
  vm_compute. reflexivity.
Defined.

Lemma source_in_found input_list v name :
  source_in input_list v = Some name ->
  exists info, In info input_list /\ input_name info = name
               /\ eq_int v (input_id info) = true.
Proof.
  induction input_list as [|info rest IH]; simpl; [discriminate|].
  destruct (eq_int v (input_id info)) eqn:E.
  - intros H; inversion H. exists info. auto.
  - intros H. destruct (IH H) as (i & Hi & Hn & He). exists i. auto.
Qed.

(** The source the media player shows is the name of an entry of the
    input list whose id is the selected input. *)
Theorem source_names_selected_input (data : gmap string value) (name : string) :
  source data = Some name ->
  exists info, In info (input_list_of data) /\ input_name info = name
               /\ eq_int (get data "input") (input_id info) = true.
Proof.
  unfold source. destruct (get data "input") eqn:E; try discriminate;
    apply source_in_found.
Qed.

Lemma source_names_selected_input_playing :
  exists info, In info (input_list_of playing) /\ input_name info = "Video Game"
               /\ eq_int (get playing "input") (input_id info) = true.
Proof. apply (source_names_selected_input playing "Video Game"). vm_compute. reflexivity. Defined.

(** ** The fuel of the loops, on a given world *)

Lemma query_fuel_enough_mixed :
  while_ 100 (within (clock (connected mixed_replies)) 3000) (query_turn "ssp.power.")
    (connected mixed_replies)
  = while_ (query_fuel (connected mixed_replies))
      (within (clock (connected mixed_replies)) 3000) (query_turn "ssp.power.")
      (connected mixed_replies).
Proof.
  apply (query_fuel_enough "ssp.power." (connected mixed_replies) 100).
  vm_compute. lia.
Defined.

Lemma clear_fuel_prompt_burst :
  while_ 50 (within 0 2000) clear_turn (connected prompt_burst)
  = while_ (S (pending (connected prompt_burst))) (within 0 2000) clear_turn
      (connected prompt_burst).
Proof. apply (clear_fuel 0%Z (connected prompt_burst) 50). vm_compute. lia. Defined.

Lemma input_list_cached_once_other_inputs :
  let r := _async_update_data (new_coordinator, other_inputs) in
  let d := snapshot r in
  d !! "input_list" = Some (VInputs (input_list_for new_coordinator))
  /\ _input_list_cached (fst (snd r)) = Some (input_list_for new_coordinator)
  /\ (forall l, _input_list_cached new_coordinator = Some l ->
                input_list_for new_coordinator = l /\ fst (snd r) = new_coordinator)
  /\ (_input_list_cached new_coordinator = None ->
      input_list_for new_coordinator = builtin_inputs).
Proof.
  apply (input_list_cached_once new_coordinator other_inputs
           (snapshot (_async_update_data (new_coordinator, other_inputs)))
           (fst (snd (_async_update_data (new_coordinator, other_inputs))))
           (snd (snd (_async_update_data (new_coordinator, other_inputs))))).
  vm_compute. reflexivity.
Defined.

(** ** Numbers as text *)

Lemma append_assoc (a b c : string) : (a +:+ b) +:+ c = a +:+ (b +:+ c).
Proof.
  induction a as [|x a IH]; [reflexivity|].
  change (String x ((a +:+ b) +:+ c) = String x (a +:+ b +:+ c)). rewrite IH. reflexivity.
Qed.

(** The digits of a number hold no whitespace. *)
Lemma lstrip_digits d : Py.lstrip (NilEmpty.string_of_uint d) = NilEmpty.string_of_uint d.
Proof. destruct d; reflexivity. Qed.

Lemma rstrip_digits d : Py.rstrip (NilEmpty.string_of_uint d) = NilEmpty.string_of_uint d.
Proof.
  induction d; simpl; [reflexivity|..]; rewrite IHd;
    destruct (NilEmpty.string_of_uint d); reflexivity.
Qed.

Lemma strip_str z : Py.strip (Py.str z) = Py.str z.
Proof.
  unfold Py.strip, Py.str.
  destruct z as [|p|p]; [reflexivity| |]; simpl.
  - rewrite lstrip_digits. apply rstrip_digits.
  - rewrite rstrip_digits. destruct (NilEmpty.string_of_uint (Pos.to_uint p)); reflexivity.
Qed.

Lemma lstrip_num_digits d :
  Py.lstrip_num (NilEmpty.string_of_uint d) = NilEmpty.string_of_uint d.
Proof. destruct d; reflexivity. Qed.

Lemma rstrip_num_digits d :
  Py.rstrip_num (NilEmpty.string_of_uint d) = NilEmpty.string_of_uint d.
Proof.
  induction d; simpl; [reflexivity|..]; rewrite IHd;
    destruct (NilEmpty.string_of_uint d); reflexivity.
Qed.

Lemma strip_num_str z : Py.strip_num (Py.str z) = Py.str z.
Proof.
  unfold Py.strip_num, Py.str.
  destruct z as [|p|p]; [reflexivity| |]; simpl.
  - rewrite lstrip_num_digits. apply rstrip_num_digits.
  - rewrite rstrip_num_digits. destruct (NilEmpty.string_of_uint (Pos.to_uint p)); reflexivity.
Qed.

(** Reading digits after a value that is positive. *)
Lemma digitpart_acc d : forall acc len,
  exists n, Py.digitpart (NilEmpty.string_of_uint d) (Z.pos acc) len true
            = Some (Z.pos (Pos.of_uint_acc d acc), n).
Proof.
  induction d; intros acc len; [simpl; eauto|..];
    cbn [NilEmpty.string_of_uint Py.digitpart Pos.of_uint_acc];
    match goal with
    | |- context [Py.digit ?c] =>
        let v := eval vm_compute in (Py.digit c) in change (Py.digit c) with v
    end; cbv iota;
    match goal with
    | |- context [Py.digitpart _ ?a _ _] =>
        match goal with
        | |- context [Z.pos (Pos.of_uint_acc _ ?b)] =>
            replace a with (Z.pos b) by lia
        end
    end; apply IHd.
Qed.

(** Reading the digits of [d] from nothing gives the number [d] writes. *)
Lemma digitpart_uint d : forall len seen,
  d <> Decimal.Nil \/ seen = true ->
  exists n, Py.digitpart (NilEmpty.string_of_uint d) 0 len seen
            = Some (Z.of_N (Pos.of_uint d), n).
Proof.
  induction d; intros len seen Hd.
  - destruct Hd as [Hd| ->]; [congruence|]. simpl. eauto.
  - cbn [NilEmpty.string_of_uint Py.digitpart Pos.of_uint].
    change (Py.digit "0") with (Some 0%Z). cbv iota.
    change (10 * 0 + 0)%Z with 0%Z. apply IHd. auto.
  - cbn [NilEmpty.string_of_uint Py.digitpart Pos.of_uint].
    change (Py.digit "1") with (Some 1%Z). cbv iota. apply (digitpart_acc d 1).
  - cbn [NilEmpty.string_of_uint Py.digitpart Pos.of_uint].
    change (Py.digit "2") with (Some 2%Z). cbv iota. apply (digitpart_acc d 2).
  - cbn [NilEmpty.string_of_uint Py.digitpart Pos.of_uint].
    change (Py.digit "3") with (Some 3%Z). cbv iota. apply (digitpart_acc d 3).
  - cbn [NilEmpty.string_of_uint Py.digitpart Pos.of_uint].
    change (Py.digit "4") with (Some 4%Z). cbv iota. apply (digitpart_acc d 4).
  - cbn [NilEmpty.string_of_uint Py.digitpart Pos.of_uint].
    change (Py.digit "5") with (Some 5%Z). cbv iota. apply (digitpart_acc d 5).
  - cbn [NilEmpty.string_of_uint Py.digitpart Pos.of_uint].
    change (Py.digit "6") with (Some 6%Z). cbv iota. apply (digitpart_acc d 6).
  - cbn [NilEmpty.string_of_uint Py.digitpart Pos.of_uint].
    change (Py.digit "7") with (Some 7%Z). cbv iota. apply (digitpart_acc d 7).
  - cbn [NilEmpty.string_of_uint Py.digitpart Pos.of_uint].
    change (Py.digit "8") with (Some 8%Z). cbv iota. apply (digitpart_acc d 8).
  - cbn [NilEmpty.string_of_uint Py.digitpart Pos.of_uint].
    change (Py.digit "9") with (Some 9%Z). cbv iota. apply (digitpart_acc d 9).
Qed.

Lemma digitpart_pos p :
  exists n, Py.digitpart (NilEmpty.string_of_uint (Pos.to_uint p)) 0 0 false = Some (Z.pos p, n).
Proof.
  destruct (digitpart_uint (Pos.to_uint p) 0 false) as (n & Hn).
  - left. apply DecimalPos.Unsigned.to_uint_nonnil.
  - rewrite DecimalPos.Unsigned.of_to in Hn. eauto.
Qed.

Lemma signed_digits d :
  d <> Decimal.Nil ->
  Py.signed (NilEmpty.string_of_uint d) = (false, NilEmpty.string_of_uint d).
Proof. destruct d; [congruence|..]; reflexivity. Qed.

(** [int(str(z)) == z] *)
Lemma int_str z : Py.int (Py.str z) = Some z.
Proof.
  unfold Py.int. rewrite strip_num_str. unfold Py.str.
  destruct z as [|p|p]; [reflexivity| |]; simpl.
  - rewrite (signed_digits _ (DecimalPos.Unsigned.to_uint_nonnil p)).
    destruct (digitpart_pos p) as (n & ->). reflexivity.
  - destruct (digitpart_pos p) as (n & ->). reflexivity.
Qed.

(** ** Bracketed payloads *)

Lemma append_cons c (a b : string) : String c a +:+ b = String c (a +:+ b).
Proof. reflexivity. Qed.

Lemma length_append (a b : string) : String.length (a +:+ b) = String.length a + String.length b.
Proof.
  induction a as [|x a IH]; [reflexivity|].
  rewrite append_cons. simpl. rewrite IH. reflexivity.
Qed.

(** The first occurrence of a character that [a] does not hold. *)
Lemma index_char c (t : string) : forall a : string,
  ~ In c (list_ascii_of_string a) ->
  String.index 0 (String c EmptyString) (a +:+ String c t) = Some (String.length a).
Proof.
  induction a as [|x a IH]; intros Hc.
  - change (EmptyString +:+ String c t) with (String c t). simpl.
    destruct (ascii_dec c c) as [_|N]; [|congruence]. destruct t; reflexivity.
  - rewrite append_cons. simpl in Hc.
    assert (c <> x) as Hx by (intros ->; apply Hc; left; reflexivity).
    cbn [String.index String.prefix].
    destruct (ascii_dec c x) as [E|_]; [congruence|].
    rewrite IH by (intros H; apply Hc; right; exact H). reflexivity.
Qed.

Lemma substring_append (b t : string) : forall a : string,
  String.substring (String.length a) (String.length b) (a +:+ b +:+ t) = b.
Proof.
  induction a as [|x a IH].
  - change (EmptyString +:+ b +:+ t) with (b +:+ t). simpl String.length.
    induction b as [|y b IHb]; [destruct t; reflexivity|].
    rewrite append_cons. simpl. rewrite IHb. reflexivity.
  - rewrite append_cons. simpl. exact IH.
Qed.

Lemma in_append c (a b : string) :
  In c (list_ascii_of_string (a +:+ b))
  <-> In c (list_ascii_of_string a) \/ In c (list_ascii_of_string b).
Proof.
  induction a as [|x a IH].
  - change (EmptyString +:+ b) with b. simpl. tauto.
  - rewrite append_cons. simpl. rewrite IH. tauto.
Qed.

(** The payload between the first [[] and the first []]. *)
Lemma bracketed_payload (pre b : string) :
  ~ In "["%char (list_ascii_of_string pre) ->
  ~ In "]"%char (list_ascii_of_string pre) ->
  ~ In "]"%char (list_ascii_of_string b) ->
  bracketed (pre +:+ "[" +:+ b +:+ "]") = Some b.
Proof.
  intros Hpre Hpre' Hb. unfold bracketed, Py.find.
  change ("[" +:+ b +:+ "]") with (String "[" (b +:+ "]")).
  rewrite (index_char "[" (b +:+ "]") pre Hpre).
  assert (pre +:+ String "[" (b +:+ "]") = (pre +:+ String "[" b) +:+ "]") as E1.
  { rewrite append_assoc. reflexivity. }
  assert (pre +:+ String "[" (b +:+ "]") = (pre +:+ "[") +:+ b +:+ "]") as E2.
  { rewrite append_assoc. reflexivity. }
  rewrite E1 at 1.
  rewrite (index_char "]" EmptyString (pre +:+ String "[" b)).
  - unfold Py.slice. rewrite length_append. simpl String.length.
    replace (String.length pre + S (String.length b) - (String.length pre + 1))
      with (String.length b) by lia.
    replace (String.length pre + 1) with (String.length (pre +:+ "["))
      by (rewrite length_append; reflexivity).
    rewrite E2, substring_append. reflexivity.
  - rewrite in_append. simpl. intros [H|[H|H]]; [tauto|discriminate H|tauto].
Qed.

(** A line that ends with something else than whitespace, then the line
    feed: [strip] takes the line feed away, and nothing else when the
    line does not begin with whitespace. *)
Lemma rstrip_line c : Py.isspace c = false ->
  forall a : string, Py.rstrip ((a +:+ String c EmptyString) +:+ nl) = a +:+ String c EmptyString.
Proof.
  intros Hc. induction a as [|x a IH].
  - change ((EmptyString +:+ String c EmptyString) +:+ nl) with (String c nl).
    change (EmptyString +:+ String c EmptyString) with (String c EmptyString).
    simpl. rewrite Hc. reflexivity.
  - rewrite !append_cons. cbn [Py.rstrip]. rewrite IH.
    destruct a; reflexivity.
Qed.

Lemma strip_line x c (a : string) :
  Py.isspace x = false -> Py.isspace c = false ->
  Py.strip ((String x a +:+ String c EmptyString) +:+ nl) = String x a +:+ String c EmptyString.
Proof.
  intros Hx Hc. unfold Py.strip.
  rewrite !append_cons. cbn [Py.lstrip]. rewrite Hx.
  rewrite <- !append_cons. apply (rstrip_line c Hc).
Qed.

Lemma prefix_append (p x : string) : String.prefix p (p +:+ x) = true.
Proof.
  induction p as [|c p IH]; [destruct x; reflexivity|].
  rewrite append_cons. simpl. destruct (ascii_dec c c); [exact IH|congruence].
Qed.

Lemma contains_prefix c (p x : string) : Py.contains (String c p) (String c p +:+ x) = true.
Proof.
  unfold Py.contains, Py.find. rewrite append_cons. cbn [String.index].
  rewrite <- append_cons. rewrite prefix_append. reflexivity.
Qed.

Lemma digits_no_bracket d : ~ In "]"%char (list_ascii_of_string (NilEmpty.string_of_uint d)).
Proof. induction d; simpl; [tauto|..]; (intros [H|H]; [discriminate H|auto]). Qed.

Lemma str_no_bracket z : ~ In "]"%char (list_ascii_of_string (Py.str z)).
Proof.
  unfold Py.str. destruct z as [|p|p]; simpl.
  - apply (digits_no_bracket (Decimal.D0 Decimal.Nil)).
  - apply digits_no_bracket.
  - intros [H|H]; [discriminate H|]. revert H. apply digits_no_bracket.
Qed.

(** ** A reply read by [send_query] *)

Lemma send_query_first_line command s l t raw rest :
  sock s = Some l -> hd true (tx l) = true ->
  inbox l = Line t raw :: rest -> raw <> EmptyString ->
  Py.startswith (Py.strip raw) (_get_expected_response_prefix command) = true ->
  (t < clock s + 3000)%Z ->
  exists s', send_query command s = (Ok (Some (Py.strip raw)), s').
Proof.
  intros Hs Ht Hl Hraw Hans Hwin.
  destruct (send_query_started command s l Hs Ht)
    as (s2 & l2 & Hs2 & Hin & Hclock & Hwire & Hdials & Hrun).
  destruct (query_loop_hit (_get_expected_response_prefix command) (clock s) t raw rest
              Hraw Hans Hwin (length (inbox l) + 16) s2 l2 []) as (s' & Hloop & Hs').
  - assumption.
  - rewrite Hin, Hl. reflexivity.
  - constructor.
  - lia.
  - rewrite Hin. lia.
  - exists s'. rewrite Hrun. rewrite (try_bind _ _ _ _ _ _ Hloop). reflexivity.
Qed.

Lemma strip_command x (pre b : string) :
  Py.isspace x = false ->
  Py.strip ((String x pre +:+ "[" +:+ b +:+ "]") +:+ nl) = String x pre +:+ "[" +:+ b +:+ "]".
Proof.
  intros Hx.
  assert (String x pre +:+ "[" +:+ b +:+ "]" = String x (pre +:+ "[" +:+ b) +:+ "]") as E.
  { rewrite append_cons. rewrite <- (append_assoc pre "[" (b +:+ "]")).
    rewrite <- (append_assoc (pre +:+ "[") b "]").
    rewrite (append_assoc pre "[" b). reflexivity. }
  rewrite E. apply strip_line; [exact Hx|reflexivity].
Qed.

Lemma line_nonempty (a : string) : a +:+ nl <> EmptyString.
Proof.
  intros H. apply (f_equal String.length) in H. rewrite length_append in H.
  simpl in H. lia.
Qed.

(** ** What a setter writes, read back *)

(** The line that [set_input] writes for the input [input_id], when the
    device sends it back in answer to the input query, is decoded by
    [get_input] to [input_id]. *)
Theorem set_input_read_back (input_id : Z) (s0 s : net) (l : link) (t : Z) (rest : list packet) :
  fst (set_input input_id s0) = Ok true ->
  sock s = Some l -> hd true (tx l) = true ->
  inbox l = Line t (List.last (wire (snd (set_input input_id s0))) EmptyString) :: rest ->
  (t < clock s + 3000)%Z ->
  fst (get_input s) = Ok (Some input_id).
Proof.
  intros Hsent Hs Ht Hl Hwin.
  unfold set_input in Hsent, Hl. rewrite (send_command_sent _ _ Hsent), last_last in Hl.
  set (b := Py.str input_id) in *.
  change (CMD_INPUT_SET +:+ "[" +:+ b +:+ "]")
    with (String "s" "sp.input." +:+ "[" +:+ b +:+ "]") in Hl.
  destruct (send_query_first_line CMD_INPUT_QUERY s l t _ rest Hs Ht Hl) as (s' & Hq).
  - apply line_nonempty.
  - rewrite strip_command by reflexivity. apply (prefix_append "ssp.input.").
  - exact Hwin.
  - rewrite strip_command in Hq by reflexivity.
    unfold get_input. rewrite (bind_ok _ _ _ _ _ Hq). cbv beta iota.
    rewrite (contains_prefix "s" "sp.input.").
    change (Py.truthy (String "s" "sp.input." +:+ "[" +:+ b +:+ "]")) with true.
    cbn [andb].
    rewrite bracketed_payload.
    + unfold b. rewrite int_str. reflexivity.
    + simpl. intuition discriminate.
    + simpl. intuition discriminate.
    + apply str_no_bracket.
Qed.

Lemma set_input_read_back_3 :
  fst (get_input
         (connected (Link [Line 10 (List.last (wire (snd (set_input 3 (connected silent))))
                                      EmptyString)] [] true)))
  = Ok (Some 3%Z).
Proof.
  apply (set_input_read_back 3 (connected silent)
           (connected (Link [Line 10 (List.last (wire (snd (set_input 3 (connected silent))))
                                        EmptyString)] [] true))
           (Link [Line 10 (List.last (wire (snd (set_input 3 (connected silent))))
                            EmptyString)] [] true) 10%Z []).
  - reflexivity.
  - reflexivity.
  - reflexivity.
  - reflexivity.
  - simpl. lia.
Defined.

(** ** Numbers with a point *)

Lemma cut_digits (p : ascii -> bool) :
  Forall (fun c => p c = false)
    ["0"; "1"; "2"; "3"; "4"; "5"; "6"; "7"; "8"; "9"]%char ->
  forall d, Py.cut p (NilEmpty.string_of_uint d) = (NilEmpty.string_of_uint d, None).
Proof.
  intros H.
  repeat match goal with
         | H : Forall _ (_ :: _) |- _ => inversion_clear H
         end.
  induction d; [reflexivity|..];
    cbn [NilEmpty.string_of_uint Py.cut];
    match goal with H : p ?c = false |- context [p ?c] => rewrite H end;
    rewrite IHd; reflexivity.
Qed.

Lemma floatnumber_digits d :
  d <> Decimal.Nil ->
  exists q, Py.floatnumber (NilEmpty.string_of_uint d) = Some q
            /\ (q == inject_Z (Z.of_N (Pos.of_uint d)))%Q.
Proof.
  intros Hd. destruct (digitpart_uint d 0 false (or_introl Hd)) as (n & Hn).
  unfold Py.floatnumber. rewrite cut_digits by (repeat constructor).
  unfold Py.number. rewrite cut_digits by (repeat constructor).
  rewrite Hn. eexists. split; [reflexivity|].
  change (Py.pow10 (- Z.of_nat 0)) with 1%Q. ring.
Qed.

Lemma not_a_word d :
  d <> Decimal.Nil ->
  String.eqb (Py.lowercase (NilEmpty.string_of_uint d)) "inf"
  || String.eqb (Py.lowercase (NilEmpty.string_of_uint d)) "infinity" = false
  /\ String.eqb (Py.lowercase (NilEmpty.string_of_uint d)) "nan" = false.
Proof. destruct d; [congruence|..]; intros _; split; reflexivity. Qed.

(** [float(str(z)) == z], for the integers that are floats. *)
Lemma float_of_str z :
  (Z.abs z < 2 ^ 53)%Z ->
  exists q, Py.float_of (Py.str z) = Some (Py.Fin q) /\ (q == inject_Z z)%Q.
Proof.
  intros Hz. unfold Py.float_of. rewrite strip_num_str. unfold Py.str.
  destruct z as [|p|p].
  - eexists. split; [vm_compute; reflexivity|reflexivity].
  - simpl Z.to_int. simpl NilEmpty.string_of_int.
    pose proof (Unsigned.to_uint_nonnil p) as Hd.
    rewrite (signed_digits _ Hd).
    destruct (not_a_word _ Hd) as [-> ->].
    destruct (floatnumber_digits _ Hd) as (q & -> & Hq).
    rewrite Unsigned.of_to in Hq.
    destruct (fl_int q (Z.pos p) Hq Hz) as (q' & -> & Hq'). eauto.
  - simpl Z.to_int. simpl NilEmpty.string_of_int.
    pose proof (Unsigned.to_uint_nonnil p) as Hd.
    cbn [Py.signed].
    destruct (not_a_word _ Hd) as [-> ->].
    destruct (floatnumber_digits _ Hd) as (q & -> & Hq).
    rewrite Unsigned.of_to in Hq.
    destruct (fl_int (- q) (Z.neg p)) as (q' & -> & Hq'); [|exact Hz|eauto].
    rewrite Hq. reflexivity.
Qed.

Lemma clamp_in_range (q : Q) (z : Z) :
  (q == inject_Z z)%Q -> (-100 <= z <= 0)%Z ->
  exists q', max_100 (min_0 (Py.Fin q)) = Py.Fin q' /\ (q' == inject_Z z)%Q.
Proof.
  intros Hq [Hlo Hhi]. rewrite Zle_Qle in Hlo, Hhi.
  unfold max_100, min_0, Py.lt_int, Py.gt_int.
  destruct (Qcompare_spec q (inject_Z 0)) as [He|Hlt|Hgt].
  - simpl. exists 0%Q. split; [reflexivity|]. rewrite <- Hq, He. reflexivity.
  - destruct (Qcompare_spec q (inject_Z (-100))) as [He'|Hlt'|Hgt'].
    + exists (-100 # 1)%Q. split; [reflexivity|]. rewrite <- Hq, He'. reflexivity.
    + rewrite Hq in Hlt'. unfold inject_Z in *. lra.
    + exists q. split; [reflexivity|exact Hq].
  - rewrite Hq in Hgt. unfold inject_Z in *. lra.
Qed.

(** The line that [set_volume_level] writes for a level between 0 and 1,
    when the device sends it back in answer to the volume query, is
    decoded by [get_volume] to the volume that was sent, which the media
    player shows as a level within 1/100 of the one that was set, up to
    the rounding of the float operations (less than [1/100 + 10^-15]
    away). *)
Theorem set_volume_level_read_back
    (level : Q) (s0 s : net) (l : link) (t : Z) (rest : list packet) :
  (0 <= level)%Q -> (level <= 1)%Q ->
  fst (set_volume_level level s0) = Ok true ->
  sock s = Some l -> hd true (tx l) = true ->
  inbox l = Line t (List.last (wire (snd (set_volume_level level s0))) EmptyString) :: rest ->
  (t < clock s + 3000)%Z ->
  exists v q p,
    storm_volume level = Some v
    /\ fst (get_volume s) = Ok (Some (Py.Fin q))
    /\ (q == inject_Z v)%Q
    /\ volume_percent (Py.Fin q) = Py.Fin p
    /\ (Qabs (p - level) < (1 # 100) + (1 # 1000000000000000))%Q.
Proof.
  intros H0 H1 Hsent Hs Ht Hl Hwin.
  destruct (storm_volume_near level H0 H1) as (v & Hv & Hr & _).
  unfold set_volume_level in Hsent, Hl. rewrite Hv in Hsent, Hl.
  rewrite (send_command_sent _ _ Hsent), last_last in Hl.
  change (CMD_VOLUME_SET +:+ "[" +:+ Py.str v +:+ "]")
    with (String "s" "sp.vol." +:+ "[" +:+ Py.str v +:+ "]") in Hl.
  destruct (send_query_first_line CMD_VOLUME_QUERY s l t _ rest Hs Ht Hl) as (s' & Hq).
  - apply line_nonempty.
  - rewrite strip_command by reflexivity. apply (prefix_append "ssp.vol.").
  - exact Hwin.
  - destruct (float_of_str v) as (q0 & Hf & Hq0); [lia|].
    destruct (clamp_in_range q0 v Hq0 Hr) as (q & Hclamp & Hqv).
    destruct (volume_shown_near level q v H0 H1 Hv Hqv) as (p & Hp & Hpq).
    exists v, q, p. split; [exact Hv|]. split; [|split; [exact Hqv|split; [exact Hp|exact Hpq]]].
    rewrite strip_command in Hq by reflexivity.
    unfold get_volume. rewrite (bind_ok _ _ _ _ _ Hq). cbv beta iota.
    rewrite (contains_prefix "s" "sp.vol.").
    change (Py.truthy (String "s" "sp.vol." +:+ "[" +:+ Py.str v +:+ "]")) with true.
    cbn [andb].
    rewrite bracketed_payload.
    + rewrite Hf. simpl. rewrite Hclamp. reflexivity.
    + simpl. intuition discriminate.
    + simpl. intuition discriminate.
    + apply str_no_bracket.
Qed.

Lemma set_volume_level_read_back_half :
  exists v q p,
    storm_volume (1 # 2) = Some v
    /\ fst (get_volume
              (connected (Link [Line 10 (List.last (wire (snd (set_volume_level (1 # 2)
                                                                 (connected silent))))
                                           EmptyString)] [] true)))
       = Ok (Some (Py.Fin q))
    /\ (q == inject_Z v)%Q
    /\ volume_percent (Py.Fin q) = Py.Fin p
    /\ (Qabs (p - (1 # 2)) < (1 # 100) + (1 # 1000000000000000))%Q.
Proof.
  apply (set_volume_level_read_back (1 # 2) (connected silent)
           (connected (Link [Line 10 (List.last (wire (snd (set_volume_level (1 # 2)
                                                              (connected silent))))
                                        EmptyString)] [] true))
           (Link [Line 10 (List.last (wire (snd (set_volume_level (1 # 2) (connected silent))))
                            EmptyString)] [] true) 10%Z []).
  - unfold Qle. simpl. lia.
  - unfold Qle. simpl. lia.
  - vm_compute. reflexivity.
  - reflexivity.
  - reflexivity.
  - reflexivity.
  - vm_compute. reflexivity.
Defined.

(** The line that [set_power] or [set_mute] writes, when the device
    sends it back in answer to the query of the same kind, is decoded to
    the state that was set. *)
Theorem switches_read_back (on : bool) (s0 s : net) (l : link) (t : Z) (rest : list packet) :
  sock s = Some l -> hd true (tx l) = true -> (t < clock s + 3000)%Z ->
  (fst (set_power on s0) = Ok true ->
   inbox l = Line t (List.last (wire (snd (set_power on s0))) EmptyString) :: rest ->
   fst (get_power_state s) = Ok (Some (if on then STATE_ON else STATE_OFF)))
  /\ (fst (set_mute on s0) = Ok true ->
      inbox l = Line t (List.last (wire (snd (set_mute on s0))) EmptyString) :: rest ->
      fst (get_mute_state s) = Ok (Some on)).
Proof.
  intros Hs Ht Hwin. split; intros Hsent Hl.
  - unfold set_power in Hsent, Hl. rewrite (send_command_sent _ _ Hsent), last_last in Hl.
    destruct (send_query_first_line CMD_POWER_QUERY s l t _ rest Hs Ht Hl) as (s' & Hq);
      [apply line_nonempty|destruct on; reflexivity|exact Hwin|].
    unfold get_power_state. rewrite (bind_ok _ _ _ _ _ Hq). destruct on; reflexivity.
  - unfold set_mute in Hsent, Hl. rewrite (send_command_sent _ _ Hsent), last_last in Hl.
    destruct (send_query_first_line CMD_MUTE_QUERY s l t _ rest Hs Ht Hl) as (s' & Hq);
      [apply line_nonempty|destruct on; reflexivity|exact Hwin|].
    unfold get_mute_state. rewrite (bind_ok _ _ _ _ _ Hq). destruct on; reflexivity.
Qed.

Lemma switches_read_back_off :
  fst (get_power_state
         (connected (Link [Line 10 (List.last (wire (snd (set_power false (connected silent))))
                                      EmptyString)] [] true)))
  = Ok (Some STATE_OFF).
Proof.
  apply (proj1 (switches_read_back false (connected silent)
                  (connected (Link [Line 10 (List.last (wire (snd (set_power false
                                                                     (connected silent))))
                                               EmptyString)] [] true))
                  (Link [Line 10 (List.last (wire (snd (set_power false (connected silent))))
                                   EmptyString)] [] true) 10%Z []
                  eq_refl eq_refl ltac:(simpl; lia))).
  - reflexivity.
  - reflexivity.
Defined.

(** ** The actions of the entity *)

(** With connections that close, [send_command] returns. *)
Lemma send_command_returns command s :
  closable s -> exists b, fst (send_command command s) = Ok b.
Proof.
  intros Hc. unfold send_command, try_except.
  match goal with |- context [match ?m s with _ => _ end] =>
    assert (keeps stays_closable m) as K by (unfold ensure_writer; keeps_tac);
    specialize (K s Hc);
    destruct (m s) as [[r|e] s1] eqn:Hm end.
  - eauto.
  - simpl in K. unfold bind, logger, modify.
    pose proof (disconnect_closable (add_log (ERROR, "Command failed: " +:+ command) s1) K) as Hd.
    destruct (disconnect _) as [[[]|e'] s2]; simpl in Hd; [|discriminate]. simpl. eauto.
Qed.

Lemma command_then_refresh (m : api bool) c s :
  (exists b, fst (m s) = Ok b) ->
  fst ((on_api m ;; on_api (sleep 500) ;; async_request_refresh) (c, s)) = Ok tt.
Proof.
  intros (b & Hb). unfold bind at 1. unfold on_api at 1.
  cbn [snd fst]. destruct (m s) as [r s1]. simpl in Hb. subst r.
  rewrite (bind_ok _ _ _ _ _ (sleep_run 500 (c, s1))). apply refresh_returns.
Qed.

Lemma select_in_returns source c s : forall input_list,
  closable s -> fst (select_in input_list source (c, s)) = Ok tt.
Proof.
  intros input_list Hc. induction input_list as [|info rest IH]; [reflexivity|].
  cbn [select_in]. destruct (String.eqb (input_name info) source); [|exact IH].
  apply command_then_refresh. apply send_command_returns. exact Hc.
Qed.

(** With connections that close normally, no action of the entity
    raises, whatever the device does; for [async_set_volume_level] this
    holds of the volumes whose hundredfold is no infinity, here those of
    magnitude up to [10^300]. *)
Theorem entity_actions_return (c : coordinator) (s : net) :
  closable s ->
  fst (async_turn_on (c, s)) = Ok tt
  /\ fst (async_turn_off (c, s)) = Ok tt
  /\ fst (async_volume_up (c, s)) = Ok tt
  /\ fst (async_volume_down (c, s)) = Ok tt
  /\ (forall volume, (Qabs volume <= 10 ^ 300)%Q ->
                     fst (async_set_volume_level volume (c, s)) = Ok tt)
  /\ (forall mute, fst (async_mute_volume mute (c, s)) = Ok tt)
  /\ (forall source, data c <> None -> fst (async_select_source source (c, s)) = Ok tt).
Proof.
  intros Hc.
  split; [apply (handle_power_command_returns _ refresh_returns), send_command_returns, Hc|].
  split; [apply (handle_power_command_returns _ refresh_returns), send_command_returns, Hc|].
  split; [apply command_then_refresh, send_command_returns, Hc|].
  split; [apply command_then_refresh, send_command_returns, Hc|].
  split.
  { intros v Hv. apply command_then_refresh. unfold set_volume_level.
    destruct (storm_volume_total v Hv) as (z & ->). apply send_command_returns, Hc. }
  split; [intros m; apply command_then_refresh, send_command_returns, Hc|].
  intros source Hd. unfold async_select_source, bind, self, gets. cbn [fst].
  destruct (data c) as [d|]; [|congruence]. apply select_in_returns, Hc.
Qed.

(** A volume whose hundredfold is an infinity: [int] raises
    [OverflowError] before anything is sent. *)
Example set_volume_level_overflow :
  async_set_volume_level (2 ^ 1020) (new_coordinator, connected silent)
  = (Raised OverflowError, (new_coordinator, connected silent)).
Proof. vm_compute. reflexivity. Qed.

Lemma closable_connected_silent : closable (connected silent).
Proof. split; [intros l H; inversion H; reflexivity|constructor]. Qed.

Lemma entity_actions_return_silent :
  let h := (new_coordinator, connected silent) in
  fst (async_turn_on h) = Ok tt
  /\ fst (async_turn_off h) = Ok tt
  /\ fst (async_volume_up h) = Ok tt
  /\ fst (async_volume_down h) = Ok tt
  /\ (forall volume, (Qabs volume <= 10 ^ 300)%Q ->
                     fst (async_set_volume_level volume h) = Ok tt)
  /\ (forall mute, fst (async_mute_volume mute h) = Ok tt)
  /\ (forall source, data new_coordinator <> None -> fst (async_select_source source h) = Ok tt).
Proof.
  apply (entity_actions_return new_coordinator (connected silent)).
  exact closable_connected_silent.
Defined.

(** When the write fails and closing the connection fails too,
    [send_command] raises to its caller and keeps the writer: the next
    call writes to the same connection. *)
Theorem send_command_raises_when_close_fails (command : string) (s : net) (l : link) x :
  sock s = Some l -> tx l = false :: x -> shut l = false ->
  fst (send_command command s) = Raised ConnectionError
  /\ sock (snd (send_command command s)) = Some (set_tx x l)
  /\ wire (snd (send_command command s)) = wire s.
Proof.
  intros Hs Hx Hsh. unfold send_command.
  rewrite (try_bind _ _ _ _ _ _ (ensure_writer_up s l Hs)). cbn [negb]. cbv iota.
  set (s1 := add_log (INFO, "Sending command: " +:+ command) s).
  rewrite (try_bind _ _ _ s tt s1) by reflexivity.
  assert (write_drain (command +:+ nl) s1
          = (Raised ConnectionError, set_sock (Some (set_tx x l)) s1)) as Hw.
  { unfold write_drain. change (sock s1) with (sock s). rewrite Hs, Hx. reflexivity. }
  rewrite (try_bind_raised _ _ _ _ _ _ Hw).
  unfold disconnect, bind, gets, close_wait, ret, raise, logger, modify. simpl.
  rewrite Hsh. simpl. auto.
Qed.

Lemma send_command_raises_when_close_fails_stuck :
  fst (send_command CMD_MUTE_ON (connected (Link [] [false] false))) = Raised ConnectionError
  /\ sock (snd (send_command CMD_MUTE_ON (connected (Link [] [false] false))))
     = Some (set_tx [] (Link [] [false] false))
  /\ wire (snd (send_command CMD_MUTE_ON (connected (Link [] [false] false))))
     = wire (connected (Link [] [false] false)).
Proof.
  apply (send_command_raises_when_close_fails CMD_MUTE_ON
           (connected (Link [] [false] false)) (Link [] [false] false) []).
  - reflexivity.
  - reflexivity.
  - reflexivity.
Defined.

(** ** Selecting a source *)

Lemma select_in_unknown source : forall input_list h,
  ~ In source (map input_name input_list) ->
  select_in input_list source h
  = (Ok tt, (fst h, add_log (ERROR, "Input source not found in available inputs") (snd h))).
Proof.
  induction input_list as [|info rest IH]; intros h Hn; [reflexivity|].
  cbn [select_in]. simpl in Hn.
  destruct (String.eqb_spec (input_name info) source) as [E|_]; [tauto|].
  apply IH. tauto.
Qed.

(** A source that is not in the input list: nothing is sent, no refresh
    is made, an error is logged. *)
Theorem select_unknown_source (source : string) (c : coordinator) (s : net) d :
  data c = Some d -> ~ In source (source_list d) ->
  async_select_source source (c, s)
  = (Ok tt, (c, add_log (ERROR, "Input source not found in available inputs") s)).
Proof.
  intros Hd Hn. unfold async_select_source, bind, self, gets. cbn [fst]. rewrite Hd.
  apply (select_in_unknown source (input_list_of d) (c, s) Hn).
Qed.

Lemma select_unknown_source_tuner :
  async_select_source "Tuner" (set_data (Some playing) new_coordinator, connected silent)
  = (Ok tt, (set_data (Some playing) new_coordinator,
             add_log (ERROR, "Input source not found in available inputs") (connected silent))).
Proof.
  apply (select_unknown_source "Tuner" (set_data (Some playing) new_coordinator)
           (connected silent) playing).
  - reflexivity.
  - vm_compute. intuition discriminate.
Defined.

Lemma select_in_source input_list name (z : Z) h :
  source_in input_list (VInt z) = Some name ->
  List.NoDup (map input_name input_list) ->
  select_in input_list name h
  = (on_api (set_input z) ;; on_api (sleep 500) ;; async_request_refresh) h.
Proof.
  induction input_list as [|info rest IH]; intros Hs Hn; [discriminate|].
  cbn [source_in select_in] in *. cbn [eq_int] in Hs.
  inversion Hn as [|? ? Hnotin Hrest]; subst.
  destruct (Z.eqb_spec z (input_id info)) as [E|E].
  - inversion Hs; subst. rewrite String.eqb_refl. reflexivity.
  - destruct (source_in_found rest (VInt z) name Hs) as (i & Hi & Hname & _).
    destruct (String.eqb_spec (input_name info) name) as [E'|_].
    + exfalso. apply Hnotin. rewrite E', <- Hname. apply in_map. exact Hi.
    + apply IH; assumption.
Qed.

(** Selecting the source that the entity shows sends the input that is
    selected already, when no two entries of the input list have the
    same name: [source] and [async_select_source] are inverse to each
    other on such a list. *)
Theorem select_shown_source (c : coordinator) (s : net) d (z : Z) (name : string) :
  data c = Some d -> d !! "input" = Some (VInt z) ->
  source d = Some name -> List.NoDup (source_list d) ->
  async_select_source name (c, s)
  = (on_api (set_input z) ;; on_api (sleep 500) ;; async_request_refresh) (c, s).
Proof.
  intros Hd Hi Hs Hn. unfold async_select_source, bind at 1, self, gets. cbn [fst]. rewrite Hd.
  unfold source, get in Hs. rewrite Hi in Hs.
  apply select_in_source; assumption.
Qed.

Lemma select_shown_source_playing :
  async_select_source "Video Game" (set_data (Some playing) new_coordinator, connected silent)
  = (on_api (set_input 2) ;; on_api (sleep 500) ;; async_request_refresh)
      (set_data (Some playing) new_coordinator, connected silent).
Proof.
  apply (select_shown_source (set_data (Some playing) new_coordinator) (connected silent)
           playing 2 "Video Game").
  - reflexivity.
  - vm_compute. reflexivity.
  - vm_compute. reflexivity.
  - vm_compute. repeat constructor; simpl; intuition discriminate.
Defined.

(** ** The connection test of the configuration flow *)

(** The connection test never raises.  It says yes exactly when the
    connection opens in less than 5 s, the write goes through, a line
    that is not empty, whatever it says, arrives less than 5 s later,
    and the connection closes normally. *)
Theorem test_connection_verdict (s : net) :
  (exists b, fst (ConfigFlow._test_connection s) = Ok b)
  /\ (fst (ConfigFlow._test_connection s) = Ok true <->
      exists dt l ds t raw rest,
        dials s = Accepted dt l :: ds /\ (dt < 5000)%Z
        /\ hd true (tx l) = true
        /\ inbox l = Line t raw :: rest /\ raw <> EmptyString
        /\ (t < clock s + dt + 5000)%Z
        /\ shut l = true).
Proof.
  unfold ConfigFlow._test_connection, try_except, bind, open_connection, modify, write_drain,
    readline, close_wait, logger, ret, raise.
  destruct (dials s) as [|[dt|dt l] ds] eqn:Ed; simpl.
  - split; [eauto|]. split; [discriminate|]. intros (dt & l & ds & t & raw & rest & H & _).
    discriminate H.
  - destruct (dt <? 5000)%Z; simpl; (split; [eauto|]); (split; [discriminate|]);
      intros (dt' & l & ds' & t & raw & rest & H & _); discriminate H.
  - destruct (Z.ltb_spec dt 5000) as [Hdt|Hdt]; simpl.
    2:{ split; [eauto|]. split; [discriminate|].
        intros (dt' & l' & ds' & t & raw & rest & H & Hlt & _). inversion H; subst. lia. }
    destruct (tx l) as [|[|] x] eqn:Ex; simpl.
    + destruct (inbox l) as [|[t raw|t|t] rest] eqn:Ei; simpl.
      * split; [eauto|]. split; [discriminate|].
        intros (dt' & l' & ds' & t & raw & rest & H & _ & _ & Hi & _).
        inversion H; subst. congruence.
      * destruct (Z.ltb_spec t (clock s + dt + 5000)) as [Ht|Ht]; simpl.
        -- destruct (shut l) eqn:Esh; simpl.
           ++ split; [eauto|]. destruct raw as [|c raw]; simpl.
              ** split; [discriminate|].
                 intros (dt' & l' & ds' & t' & raw' & rest' & H & _ & _ & Hi & Hr & _).
                 inversion H; subst. rewrite Ei in Hi. inversion Hi; subst. congruence.
              ** split; [|reflexivity]. intros _.
                 exists dt, l, ds, t, (String c raw), rest. rewrite Ex, Esh.
                 repeat split; auto; discriminate.
           ++ split; [eauto|]. split; [discriminate|].
              intros (dt' & l' & ds' & t' & raw' & rest' & H & _ & _ & _ & _ & _ & Hs).
              inversion H; subst. congruence.
        -- split; [eauto|]. split; [discriminate|].
           intros (dt' & l' & ds' & t' & raw' & rest' & H & _ & _ & Hi & _ & Hlt & _).
           inversion H; subst. rewrite Ei in Hi. inversion Hi; subst. lia.
      * destruct (t <? clock s + dt + 5000)%Z; simpl.
        -- destruct (shut l); simpl; (split; [eauto|]); (split; [discriminate|]);
             intros (dt' & l' & ds' & t' & raw' & rest' & H & _ & _ & Hi & _);
             inversion H; subst; congruence.
        -- split; [eauto|]. split; [discriminate|].
           intros (dt' & l' & ds' & t' & raw' & rest' & H & _ & _ & Hi & _).
           inversion H; subst. congruence.
      * destruct (t <? clock s + dt + 5000)%Z; simpl; (split; [eauto|]);
          (split; [discriminate|]);
          intros (dt' & l' & ds' & t' & raw' & rest' & H & _ & _ & Hi & _);
          inversion H; subst; congruence.
    + destruct (inbox l) as [|[t raw|t|t] rest] eqn:Ei; simpl.
      * split; [eauto|]. split; [discriminate|].
        intros (dt' & l' & ds' & t & raw & rest & H & _ & _ & Hi & _).
        inversion H; subst. congruence.
      * destruct (Z.ltb_spec t (clock s + dt + 5000)) as [Ht|Ht]; simpl.
        -- destruct (shut l) eqn:Esh; simpl.
           ++ split; [eauto|]. destruct raw as [|c raw]; simpl.
              ** split; [discriminate|].
                 intros (dt' & l' & ds' & t' & raw' & rest' & H & _ & _ & Hi & Hr & _).
                 inversion H; subst. rewrite Ei in Hi. inversion Hi; subst. congruence.
              ** split; [|reflexivity]. intros _.
                 exists dt, l, ds, t, (String c raw), rest. rewrite Ex, Esh.
                 repeat split; auto; discriminate.
           ++ split; [eauto|]. split; [discriminate|].
              intros (dt' & l' & ds' & t' & raw' & rest' & H & _ & _ & _ & _ & _ & Hs).
              inversion H; subst. congruence.
        -- split; [eauto|]. split; [discriminate|].
           intros (dt' & l' & ds' & t' & raw' & rest' & H & _ & _ & Hi & _ & Hlt & _).
           inversion H; subst. rewrite Ei in Hi. inversion Hi; subst. lia.
      * destruct (t <? clock s + dt + 5000)%Z; simpl.
        -- destruct (shut l); simpl; (split; [eauto|]); (split; [discriminate|]);
             intros (dt' & l' & ds' & t' & raw' & rest' & H & _ & _ & Hi & _);
             inversion H; subst; congruence.
        -- split; [eauto|]. split; [discriminate|].
           intros (dt' & l' & ds' & t' & raw' & rest' & H & _ & _ & Hi & _).
           inversion H; subst. congruence.
      * destruct (t <? clock s + dt + 5000)%Z; simpl; (split; [eauto|]);
          (split; [discriminate|]);
          intros (dt' & l' & ds' & t' & raw' & rest' & H & _ & _ & Hi & _);
          inversion H; subst; congruence.
    + split; [eauto|]. split; [discriminate|].
      intros (dt' & l' & ds' & t' & raw' & rest' & H & _ & Hx & _).
      inversion H; subst. rewrite Ex in Hx. discriminate Hx.
Qed.

(** ** coordinator.py: the volume of the snapshot *)

Lemma unit_clamp_80 (y : Py.float) :
  exists p, max_0 (min_1 (CoordinatorPy.plus_80_over_80 y)) = Py.Fin p
            /\ (0 <= p)%Q /\ (p <= 1)%Q.
Proof. apply unit_clamp. Qed.

(** Whatever the device answers, a volume level in a snapshot of the
    older coordinator is a number between 0 and 1.  The snapshot of a
    device that is on has no volume level at all when the answer to
    [VOLUME?] is missing or is a single word. *)
Theorem older_volume_level_unit (TIMEOUT : Z) (decode : string -> option string) (s : net) (d : gmap string value) (v : value) :
  fst (CoordinatorPy._async_update_data TIMEOUT decode s) = Ok d ->
  d !! "volume_level" = Some v ->
  exists p, v = VFloat (Py.Fin p) /\ (0 <= p)%Q /\ (p <= 1)%Q.
Proof.
  unfold CoordinatorPy._async_update_data, try_except.
  match goal with |- context [match ?m s with _ => _ end] =>
    assert (forall d, fst (m s) = Ok d -> d !! "volume_level" = Some v ->
              exists p, v = VFloat (Py.Fin p) /\ (0 <= p)%Q /\ (p <= 1)%Q) as H;
    [|destruct (m s) as [[d'|e] s1]; simpl;
      [intros E; inversion E; subst; apply H; reflexivity|discriminate]] end.
  clear d. intros d. unfold bind.
  destruct (CoordinatorPy.send_command TIMEOUT decode "POWER?" s) as [[[r|]|e] s1]; simpl;
    try discriminate.
  destruct (Py.truthy r); [|discriminate].
  destruct (Py.contains "ON" (Py.uppercase r)).
  - destruct (CoordinatorPy.send_command TIMEOUT decode "VOLUME?" s1) as [[vr|e] s2]; simpl;
      [|discriminate].
    destruct (CoordinatorPy.send_command TIMEOUT decode "MUTE?" s2) as [[m|e] s3]; simpl;
      [|discriminate].
    destruct (CoordinatorPy.send_command TIMEOUT decode "INPUT?" s3) as [[i|e] s4]; simpl;
      [|discriminate].
    destruct (CoordinatorPy.send_command TIMEOUT decode "PRESET?" s4) as [[p|e] s5]; simpl;
      [|discriminate].
    intros H; inversion H; subst d; clear H.
    repeat case_match; rewrite ?lookup_insert_ne by discriminate;
      rewrite ?lookup_insert_eq, ?lookup_empty; intros Hv; inversion Hv; subst;
      try (match goal with |- context [CoordinatorPy.plus_80_over_80 ?y] =>
             destruct (unit_clamp_80 y) as (q & -> & Hq) end; eauto);
      try (exists (1 # 2)%Q; split; [reflexivity|split; lra]).
  - intros H; inversion H; subst d; clear H.
    rewrite !lookup_insert_ne by discriminate. rewrite lookup_insert_eq.
    intros Hv; inversion Hv. exists 0%Q. split; [reflexivity|split; lra].
Qed.

Lemma older_volume_level_unit_on :
  let d := snapshot (CoordinatorPy._async_update_data 5000 decode_ascii older_on) in
  exists p, get d "volume_level" = VFloat (Py.Fin p) /\ (0 <= p)%Q /\ (p <= 1)%Q.
Proof.
  apply (older_volume_level_unit 5000 decode_ascii older_on
           (snapshot (CoordinatorPy._async_update_data 5000 decode_ascii older_on))
           (get (snapshot (CoordinatorPy._async_update_data 5000 decode_ascii older_on)) "volume_level")).
  - vm_compute. reflexivity.
  - vm_compute. reflexivity.
Defined.

(** ** Setting up and unloading an entry *)

(** When the device cannot be reached in 10 s, or the connection that
    was opened for the test does not close normally, the setup raises
    [ConfigEntryNotReady]; [hass.data] is as it was and the platforms
    are not set up. *)
Theorem setup_entry_not_ready
    (forward : Integration.config_entry -> Integration.hass
               -> option Integration.failure * Integration.hass)
    (entry : Integration.config_entry) (h : Integration.hass) (host port : value) :
  Integration.entry_data entry !! "host" = Some host ->
  Integration.entry_data entry !! "port" = Some port ->
  match dials (Integration.world h) with
  | Accepted dt l :: _ => (10000 <= dt)%Z \/ shut l = false
  | _ => True
  end ->
  exists w,
    Integration.async_setup_entry forward entry h
    = (inl Integration.ConfigEntryNotReady, Integration.Hass (Integration.hass_data h) w)
    /\ wire w = wire (Integration.world h).
Proof.
  intros Hh Hp Hd. unfold Integration.async_setup_entry.
  change Integration.CONF_HOST with "host". change Integration.CONF_PORT with "port".
  rewrite Hh, Hp.
  unfold Integration.probe, bind, open_connection, close_wait, ret, raise.
  destruct (dials (Integration.world h)) as [|[dt|dt l] ds]; simpl.
  - eexists. split; reflexivity.
  - destruct (dt <? 10000)%Z; eexists; split; reflexivity.
  - destruct (Z.ltb_spec dt 10000) as [Hlt|Hge]; [|eexists; split; reflexivity].
    destruct Hd as [Hd|Hd]; [lia|]. rewrite Hd. eexists. split; reflexivity.
Qed.

Lemma setup_entry_not_ready_refused :
  exists w,
    Integration.async_setup_entry forward_nothing living_room
      (Integration.Hass ∅ (unconnected [Refused 0]))
    = (inl Integration.ConfigEntryNotReady, Integration.Hass ∅ w)
    /\ wire w = [].
Proof.
  apply (setup_entry_not_ready forward_nothing living_room
           (Integration.Hass ∅ (unconnected [Refused 0])) (VStr "10.0.0.2") (VInt 23)).
  - vm_compute. reflexivity.
  - vm_compute. reflexivity.
  - exact I.
Defined.

Lemma setup_entry_run forward entry h h1 :
  Integration.async_setup_entry forward entry h = (inr true, h1) ->
  exists host port w,
    Integration.entry_data entry !! "host" = Some host
    /\ Integration.entry_data entry !! "port" = Some port
    /\ forward entry
         (Integration.Hass
            (<[DOMAIN := <[Integration.entry_id entry :=
                             <["port" := port]> (<["host" := host]> ∅)]>
                           (default ∅ (Integration.hass_data h !! DOMAIN))]>
               (Integration.hass_data h)) w)
       = (None, h1).
Proof.
  unfold Integration.async_setup_entry.
  change Integration.CONF_HOST with "host". change Integration.CONF_PORT with "port".
  destruct (Integration.entry_data entry !! "host") as [host|]; [|discriminate].
  destruct (Integration.entry_data entry !! "port") as [port|]; [|discriminate].
  destruct (Integration.probe (Integration.world h)) as [[[]|e] w]; [|discriminate].
  cbv zeta.
  match goal with |- context [forward entry ?x] =>
    destruct (forward entry x) as [[e|] h'] eqn:E end; [discriminate|].
  intros H; inversion H; subst. exists host, port, w. auto.
Qed.

(** After a setup that has succeeded, [hass.data] holds the host and
    the port of the entry under the domain and the entry's id; the
    other entries of the domain and the other domains are as they were
    (the framework's call leaving [hass.data] alone). *)
Theorem setup_entry_stores
    (forward : Integration.config_entry -> Integration.hass
               -> option Integration.failure * Integration.hass)
    (entry : Integration.config_entry) (h h1 : Integration.hass) :
  (forall e x, Integration.hass_data (snd (forward e x)) = Integration.hass_data x) ->
  Integration.async_setup_entry forward entry h = (inr true, h1) ->
  exists domain info,
    Integration.hass_data h1 !! DOMAIN = Some domain
    /\ domain !! Integration.entry_id entry = Some info
    /\ info !! "host" = Integration.entry_data entry !! "host"
    /\ info !! "port" = Integration.entry_data entry !! "port"
    /\ (forall other, other <> Integration.entry_id entry ->
          domain !! other = default ∅ (Integration.hass_data h !! DOMAIN) !! other)
    /\ (forall key, key <> DOMAIN ->
          Integration.hass_data h1 !! key = Integration.hass_data h !! key).
Proof.
  intros Hf Hrun. destruct (setup_entry_run forward entry h h1 Hrun) as (host & port & w & Hh & Hp & E).
  match type of E with forward entry ?x = _ => pose proof (Hf entry x) as Hd end.
  rewrite E in Hd. simpl in Hd.
  eexists. eexists. rewrite Hd.
  split; [apply lookup_insert_eq|]. split; [apply lookup_insert_eq|].
  split; [rewrite lookup_insert_ne by discriminate; rewrite lookup_insert_eq; auto|].
  split; [rewrite lookup_insert_eq; auto|].
  split; [intros other Ho; rewrite lookup_insert_ne by auto; reflexivity|].
  intros key Hk. rewrite lookup_insert_ne by auto. reflexivity.
Qed.

Lemma setup_entry_stores_living_room :
  exists domain info,
    Integration.hass_data
      (snd (Integration.async_setup_entry forward_nothing living_room fresh_hass)) !! DOMAIN
    = Some domain
    /\ domain !! Integration.entry_id living_room = Some info
    /\ info !! "host" = Integration.entry_data living_room !! "host"
    /\ info !! "port" = Integration.entry_data living_room !! "port"
    /\ (forall other, other <> Integration.entry_id living_room ->
          domain !! other = default ∅ (Integration.hass_data fresh_hass !! DOMAIN) !! other)
    /\ (forall key, key <> DOMAIN ->
          Integration.hass_data
            (snd (Integration.async_setup_entry forward_nothing living_room fresh_hass)) !! key
          = Integration.hass_data fresh_hass !! key).
Proof.
  apply (setup_entry_stores forward_nothing living_room fresh_hass
           (snd (Integration.async_setup_entry forward_nothing living_room fresh_hass))).
  - intros e x. reflexivity.
  - vm_compute. reflexivity.
Defined.

(** Unloading an entry that was set up takes its connection info out
    of [hass.data] and nothing else: when the domain was there and the
    entry's id was new, [hass.data] is again what it was before the
    setup (the framework's calls leaving [hass.data] alone, and the
    platforms unloading). *)
Theorem setup_then_unload
    (forward : Integration.config_entry -> Integration.hass
               -> option Integration.failure * Integration.hass)
    (unload : Integration.config_entry -> Integration.hass
              -> (Integration.failure + bool) * Integration.hass)
    (entry : Integration.config_entry) (h h1 h2 : Integration.hass) :
  (forall e x, Integration.hass_data (snd (forward e x)) = Integration.hass_data x) ->
  Integration.async_setup_entry forward entry h = (inr true, h1) ->
  unload entry h1 = (inr true, h2) ->
  Integration.hass_data h2 = Integration.hass_data h1 ->
  fst (Integration.async_unload_entry unload entry h1) = inr true
  /\ Integration.hass_data (snd (Integration.async_unload_entry unload entry h1))
     = <[DOMAIN := delete (Integration.entry_id entry)
                     (default ∅ (Integration.hass_data h !! DOMAIN))]>
         (Integration.hass_data h)
  /\ (forall domain,
        Integration.hass_data h !! DOMAIN = Some domain ->
        domain !! Integration.entry_id entry = None ->
        Integration.hass_data (snd (Integration.async_unload_entry unload entry h1))
        = Integration.hass_data h).
Proof.
  intros Hf Hrun Hu Hd2.
  destruct (setup_entry_run forward entry h h1 Hrun) as (host & port & w & Hh & Hp & E).
  match type of E with forward entry ?x = _ => pose proof (Hf entry x) as Hd end.
  rewrite E in Hd. simpl in Hd.
  unfold Integration.async_unload_entry. rewrite Hu, Hd2, Hd.
  rewrite lookup_insert_eq, lookup_insert_eq. cbn [fst snd Integration.hass_data].
  rewrite insert_insert_eq, delete_insert_eq.
  split; [reflexivity|]. split; [reflexivity|].
  intros domain Hdom Hnone. rewrite Hdom. simpl.
  rewrite (delete_id _ _ Hnone). apply insert_id. exact Hdom.
Qed.

Lemma setup_then_unload_living_room :
  let h := Integration.Hass {[DOMAIN := ∅]} (unconnected [Accepted 0 silent]) in
  let h1 := snd (Integration.async_setup_entry forward_nothing living_room h) in
  fst (Integration.async_unload_entry unload_nothing living_room h1) = inr true
  /\ Integration.hass_data (snd (Integration.async_unload_entry unload_nothing living_room h1))
     = <[DOMAIN := delete (Integration.entry_id living_room)
                     (default ∅ (Integration.hass_data h !! DOMAIN))]>
         (Integration.hass_data h)
  /\ (forall domain,
        Integration.hass_data h !! DOMAIN = Some domain ->
        domain !! Integration.entry_id living_room = None ->
        Integration.hass_data (snd (Integration.async_unload_entry unload_nothing living_room h1))
        = Integration.hass_data h).
Proof.
  apply (setup_then_unload forward_nothing unload_nothing living_room
           (Integration.Hass {[DOMAIN := ∅]} (unconnected [Accepted 0 silent]))
           (snd (Integration.async_setup_entry forward_nothing living_room
                   (Integration.Hass {[DOMAIN := ∅]} (unconnected [Accepted 0 silent]))))
           (snd (Integration.async_setup_entry forward_nothing living_room
                   (Integration.Hass {[DOMAIN := ∅]} (unconnected [Accepted 0 silent]))))).
  - intros e x. reflexivity.
  - vm_compute. reflexivity.
  - reflexivity.
  - reflexivity.
Defined.

(** ** The first revision *)

Lemma rstrip_space w : Py.isspace w = true ->
  forall x : string, Py.rstrip (x +:+ String w EmptyString) = Py.rstrip x.
Proof.
  intros Hw. induction x as [|c x IH].
  - change (EmptyString +:+ String w EmptyString) with (String w EmptyString).
    simpl. rewrite Hw. reflexivity.
  - rewrite append_cons. cbn [Py.rstrip]. rewrite IH. reflexivity.
Qed.

Lemma rstrip_nospace : forall x : string,
  (forall c, In c (list_ascii_of_string x) -> Py.isspace c = false) ->
  Py.rstrip x = x.
Proof.
  induction x as [|c x IH]; intros H; [reflexivity|].
  cbn [Py.rstrip]. rewrite IH by (intros a Ha; apply H; right; exact Ha).
  destruct x; [|reflexivity]. rewrite (H c) by (left; reflexivity). reflexivity.
Qed.

Lemma digits_nospace d c :
  In c (list_ascii_of_string (NilEmpty.string_of_uint d)) -> Py.isspace c = false.
Proof.
  induction d; simpl; [tauto|..]; (intros [H|H]; [subst c; reflexivity|auto]).
Qed.

Lemma str_nospace z c : In c (list_ascii_of_string (Py.str z)) -> Py.isspace c = false.
Proof.
  unfold Py.str. destruct z as [|p|p]; simpl.
  - intros [H|[]]. subst c. reflexivity.
  - apply digits_nospace.
  - intros [H|H]; [subst c; reflexivity|]. revert H. apply digits_nospace.
Qed.

Lemma cut_str z : Py.cut (Ascii.eqb "=") (Py.str z) = (Py.str z, None).
Proof.
  unfold Py.str. destruct z as [|p|p]; [reflexivity| |]; simpl.
  - apply cut_digits. repeat constructor.
  - rewrite cut_digits by (repeat constructor). reflexivity.
Qed.

(** The answer that spells the command of [set_volume_level], as
    [update] reads it. *)
Lemma legacy_volume_of_echo (db : Z) :
  Legacy.volume_of (Some (Py.strip (("VOL=" +:+ Py.str db) +:+ Legacy.cr)))
  = match Py.fl (inject_Z (db + 79) / 91) with
    | Py.Fin q => Some q
    | _ => None
    end.
Proof.
  assert (Py.strip (("VOL=" +:+ Py.str db) +:+ Legacy.cr) = "VOL=" +:+ Py.str db) as E.
  { unfold Py.strip.
    change (Py.lstrip (("VOL=" +:+ Py.str db) +:+ Legacy.cr))
      with (("VOL=" +:+ Py.str db) +:+ Legacy.cr).
    unfold Legacy.cr. rewrite rstrip_space by reflexivity.
    apply rstrip_nospace. intros c Hc. apply in_append in Hc. destruct Hc as [Hc|Hc].
    - simpl in Hc. repeat (destruct Hc as [Hc|Hc]; [subst c; reflexivity|]). contradiction.
    - exact (str_nospace db c Hc). }
  rewrite E. unfold Legacy.volume_of, Legacy.second_field.
  change (Py.cut (Ascii.eqb "=") ("VOL=" +:+ Py.str db)) with ("VOL", Some (Py.str db)).
  cbv iota. rewrite cut_str. cbn [fst]. rewrite int_str. reflexivity.
Qed.

(** The value sent for a level between 0 and 1: the level times 91
    less 79, its fraction dropped, the two roundings moving it by less
    than [3/10^14]. *)
Lemma legacy_db_volume_near (volume : Q) :
  (0 <= volume)%Q -> (volume <= 1)%Q ->
  exists db, Legacy.db_volume volume = Some db
             /\ (-79 <= db <= 12)%Z
             /\ (volume * 91 - 79 - 1 - (3 # 100000000000000) < inject_Z db)%Q
             /\ (inject_Z db < volume * 91 - 79 + 1 + (3 # 100000000000000))%Q.
Proof.
  intros H0 H1. unfold Legacy.db_volume, Py.with_int.
  change (inject_Z 91) with 91%Q. change (inject_Z 79) with 79%Q.
  destruct (fl_near (volume * 91) 91) as (P & -> & HP1 & HP2);
    [lra|lra|apply small_le_huge; lra|].
  destruct (fl_near (P - 79) 80) as (D & -> & HD1 & HD2);
    [lra|lra|apply small_le_huge; lra|].
  exists (Py.trunc D). split; [reflexivity|].
  destruct (trunc_towards_zero D) as [Hneg Hpos].
  assert ((-80 < inject_Z (Py.trunc D))%Q /\ (inject_Z (Py.trunc D) < 13)%Q
          /\ (volume * 91 - 79 - 1 - (3 # 100000000000000) < inject_Z (Py.trunc D))%Q
          /\ (inject_Z (Py.trunc D) < volume * 91 - 79 + 1 + (3 # 100000000000000))%Q)
    as (Ha & Hb & Hc & Hd).
  { destruct (Qlt_le_dec 0 D) as [Hd|Hd].
    - destruct (Hpos (Qlt_le_weak _ _ Hd)) as (Hz & Hu & Hl). repeat split; lra.
    - destruct (Hneg Hd) as [Hl Hu]. repeat split; lra. }
  split; [|split; assumption].
  change (-80)%Q with (inject_Z (-80)) in Ha. change 13%Q with (inject_Z 13) in Hb.
  rewrite <- Zlt_Qlt in Ha, Hb. lia.
Qed.

(** The command of [set_volume_level] for a level between 0 and 1
    carries a value between -79 and 12; when the device answers the
    volume query of a later [update] with that command, the volume of
    the player is less than 1/91 away from the level that was set, up
    to the rounding of the float operations (less than
    [1/91 + 10^-15] away). *)
Theorem legacy_volume_read_back
    (volume : Q) (p0 p : Legacy.player) (a pow : string) (rest0 rest : list Legacy.exchange) :
  (0 <= volume)%Q -> (volume <= 1)%Q ->
  Legacy.exchanges (Legacy._client p0) = Legacy.Answered a :: rest0 ->
  Legacy.exchanges (Legacy._client p)
  = Legacy.Answered pow
      :: Legacy.Answered
           (List.last (Legacy.sent (Legacy._client (snd (Legacy.set_volume_level volume p0))))
              EmptyString)
      :: rest ->
  exists db,
    Legacy.db_volume volume = Some db
    /\ (-79 <= db <= 12)%Z
    /\ fst (Legacy.set_volume_level volume p0) = inr tt
    /\ (Qabs (Legacy._volume (snd (Legacy.update p)) - volume)
        < (1 # 91) + (1 # 1000000000000000))%Q.
Proof.
  intros H0 H1 Hsent Hl.
  destruct (legacy_db_volume_near volume H0 H1) as (db & Hdb & Hr & Hlo & Hhi).
  exists db. split; [exact Hdb|]. split; [exact Hr|].
  unfold Legacy.set_volume_level, Legacy.send_command in Hl |- *. rewrite Hdb, Hsent in Hl |- *.
  split; [reflexivity|].
  cbn [snd Legacy._client Legacy.sent] in Hl. rewrite last_last in Hl.
  assert (0 <= inject_Z (db + 79) / 91 /\ inject_Z (db + 79) / 91 <= 1)%Q as [Hy0 Hy1].
  { assert (0 <= inject_Z (db + 79) /\ inject_Z (db + 79) <= 91)%Q as [Hn0 Hn1].
    { change 0%Q with (inject_Z 0). change 91%Q with (inject_Z 91).
      rewrite <- !Zle_Qle. lia. }
    split; [apply Qle_shift_div_l|apply Qle_shift_div_r]; lra. }
  destruct (fl_near (inject_Z (db + 79) / 91) 1) as (y & Hy & Hy2 & Hy3);
    [lra|lra|apply small_le_huge; lra|].
  assert (Legacy._volume (snd (Legacy.update p)) = y) as E.
  { unfold Legacy.update, Legacy.send_command at 1. rewrite Hl.
    unfold Legacy.send_command at 1. cbn [Legacy.exchanges].
    rewrite legacy_volume_of_echo, Hy.
    unfold Legacy.send_command. cbn [Legacy.exchanges].
    destruct rest as [|[| |r] rest']; try reflexivity.
    destruct (Py.contains "=" (Py.strip r)); [|reflexivity].
    destruct (Legacy.second_field (Py.strip r)); reflexivity. }
  rewrite E. rewrite inject_Z_plus in Hy2, Hy3. set (x := inject_Z db) in *.
  change (inject_Z 79) with 79%Q in Hy2, Hy3.
  assert ((x + 79) / 91 == x * (1 # 91) + (79 # 91))%Q as F by field.
  rewrite F in Hy2, Hy3. apply Qabs_Qlt_condition. split; lra.
Qed.

Lemma legacy_volume_read_back_half :
  let p0 := Legacy.new_player (Legacy.Client [Legacy.Answered EmptyString] []) in
  let p :=
    Legacy.new_player
      (Legacy.Client
         [Legacy.Answered "POWON";
          Legacy.Answered
            (List.last
               (Legacy.sent (Legacy._client (snd (Legacy.set_volume_level (1 # 2) p0))))
               EmptyString)] []) in
  exists db,
    Legacy.db_volume (1 # 2) = Some db
    /\ (-79 <= db <= 12)%Z
    /\ fst (Legacy.set_volume_level (1 # 2) p0) = inr tt
    /\ (Qabs (Legacy._volume (snd (Legacy.update p)) - (1 # 2))
        < (1 # 91) + (1 # 1000000000000000))%Q.
Proof.
  apply (legacy_volume_read_back (1 # 2)
           (Legacy.new_player (Legacy.Client [Legacy.Answered EmptyString] []))
           (Legacy.new_player
              (Legacy.Client
                 [Legacy.Answered "POWON";
                  Legacy.Answered
                    (List.last
                       (Legacy.sent
                          (Legacy._client
                             (snd (Legacy.set_volume_level (1 # 2)
                                     (Legacy.new_player
                                        (Legacy.Client [Legacy.Answered EmptyString] []))))))
                       EmptyString)] []))
           EmptyString "POWON" [] []).
  - unfold Qle. simpl. lia.
  - unfold Qle. simpl. lia.
  - reflexivity.
  - reflexivity.
Defined.

Lemma legacy_send_unreachable command k :
  Forall (fun e => e = Legacy.Unreachable) (Legacy.exchanges k) ->
  exists k',
    Legacy.send_command command k = (None, k')
    /\ Legacy.sent k' = Legacy.sent k
    /\ Forall (fun e => e = Legacy.Unreachable) (Legacy.exchanges k').
Proof.
  intros H. unfold Legacy.send_command.
  destruct (Legacy.exchanges k) as [|e rest] eqn:E.
  - exists k. rewrite E. auto.
  - inversion_clear H. subst e. eexists. split; [reflexivity|]. auto.
Qed.

(** When the device is out of reach, [update] raises [TypeError] at the
    test of the answer to [INP=?]; it has set the state to off by then,
    and the volume and the source are as they were. *)
Theorem legacy_update_unreachable (p : Legacy.player) :
  Forall (fun e => e = Legacy.Unreachable) (Legacy.exchanges (Legacy._client p)) ->
  fst (Legacy.update p) = inl Legacy.TypeError
  /\ Legacy._state (snd (Legacy.update p)) = "off"
  /\ Legacy._volume (snd (Legacy.update p)) = Legacy._volume p
  /\ Legacy._source (snd (Legacy.update p)) = Legacy._source p
  /\ Legacy.sent (Legacy._client (snd (Legacy.update p))) = Legacy.sent (Legacy._client p).
Proof.
  intros H. unfold Legacy.update.
  destruct (legacy_send_unreachable "POW=?" _ H) as (k1 & -> & S1 & H1).
  destruct (legacy_send_unreachable "VOL=?" _ H1) as (k2 & -> & S2 & H2).
  destruct (legacy_send_unreachable "INP=?" _ H2) as (k3 & -> & S3 & H3).
  cbn. repeat split. congruence.
Qed.

Lemma legacy_update_unreachable_new :
  let p := Legacy.new_player (Legacy.Client [] []) in
  fst (Legacy.update p) = inl Legacy.TypeError
  /\ Legacy._state (snd (Legacy.update p)) = "off"
  /\ Legacy._volume (snd (Legacy.update p)) = Legacy._volume p
  /\ Legacy._source (snd (Legacy.update p)) = Legacy._source p
  /\ Legacy.sent (Legacy._client (snd (Legacy.update p))) = Legacy.sent (Legacy._client p).
Proof.
  apply (legacy_update_unreachable (Legacy.new_player (Legacy.Client [] []))).
  constructor.
Defined.
